(** * The agentic chat orchestrator of [services/groqService.js]

    A shallow embedding of [GroqService.chat], [deduplicateSources] and
    [handleError], and the properties of the agent loop proved over it.

    Conventions of the embedding.
    - JavaScript [undefined] is [None]; [null] inside parsed data is [JNull].
    - The model provider ([groq.chat.completions.create]), the search
      backend ([tavilyService.search], [tavilyService.extract]),
      [JSON.parse] and the clock are fields of an environment [Env]; the
      provider and the backend are indexed by the number of calls made so
      far, so they may answer every call differently.
    - A completion that succeeds is its [choices[0].message]; a backend
      answer has one of the two shapes the backend service returns.
    - Everything [chat] mutates lives in [RunState], threaded explicitly,
      together with the traces of its effects: the events handed to the
      progress sink, the completion requests sent, the searches made, and
      the callbacks that a rejected round of tool calls leaves waiting.
    - A progress sink may throw; what it writes to the objects it is
      handed is not modelled.
    - A call to the backend completes at the time [tavily_latency] gives
      it; time 0 is an answer that is there when it is awaited.
    - Numbers in parsed arguments are integers; temperatures are stored in
      tenths (0.7 is 7); the length of a string is its number of
      characters; console output is left out, but a text built for it or
      for an event may throw while it is built. *)

From Stdlib Require Import ZArith String Ascii List Bool Lia.
From stdpp Require Import base option list gmap sets strings.

Local Open Scope string_scope.
Local Open Scope list_scope.
Local Open Scope nat_scope.
Set Warnings "-register-all".

(** ** Values produced by [JSON.parse] *)

Inductive Json : Type :=
| JNull
| JBool (b : bool)
| JNum (n : Z)
| JStr (s : string)
| JArr (items : list Json)
| JObj (props : list (string * Json)).

(** ** Sources and the source deduplicator *)

Record Source := {
  title : string;
  url : option string;
  domain : string;
  favicon : option string
}.

(** [sources.filter(s => ...)] with the closure's [seen] set threaded
    through the traversal, front to back. [!s.url] holds for a missing URL
    and for the empty string. *)
Fixpoint filter_unseen (seen : gset string) (sources : list Source) : list Source :=
  match sources with
  | [] => []
  | s :: rest =>
      match url s with
      | Some u =>
          if String.eqb u "" || bool_decide (u ∈ seen)
          then filter_unseen seen rest
          else s :: filter_unseen ({[u]} ∪ seen) rest
      | None => filter_unseen seen rest
      end
  end.

Definition deduplicateSources (sources : list Source) : list Source :=
  filter_unseen ∅ sources.

(** ** JavaScript readings of parsed values *)

Fixpoint assoc (k : string) (props : list (string * Json)) : option Json :=
  match props with
  | [] => None
  | (k', v) :: rest => if String.eqb k k' then Some v else assoc k rest
  end.

(** [v.k] on a parsed value other than [null], for the keys read by [chat]
    ([query], [topic], [search_depth], [max_results], [urls], [error],
    [failed_generation]): none of them exists on a prototype, so only an
    object's own property can answer. *)
Definition js_get (v : Json) (k : string) : option Json :=
  match v with
  | JObj props => assoc k props
  | _ => None
  end.

Definition truthy (v : Json) : bool :=
  match v with
  | JNull => false
  | JBool b => b
  | JNum n => negb (Z.eqb n 0)
  | JStr s => negb (String.eqb s "")
  | JArr _ | JObj _ => true
  end.

(** [v || d] where [v] may be [undefined]. *)
Definition js_or (v : option Json) (d : Json) : Json :=
  match v with
  | Some x => if truthy x then x else d
  | None => d
  end.

(** Whether turning a parsed value into text throws, as a template
    literal or [Array.prototype.join] does it. An object parsed from JSON
    inherits a usable [toString] unless it has a property of that name,
    which is never a function: then [TypeError]. An array joins the texts
    of its entries, [null] counting as the empty text. *)
Fixpoint to_string_throws (v : Json) : bool :=
  match v with
  | JArr items => existsb to_string_throws items
  | JObj props => existsb (λ kv, String.eqb (fst kv) "toString") props
  | JNull | JBool _ | JNum _ | JStr _ => false
  end.

(** The same for a value that may be [undefined], whose text is
    [undefined]. *)
Definition text_throws (v : option Json) : bool :=
  match v with
  | Some x => to_string_throws x
  | None => false
  end.

(** [s.includes(pat)] and [s.substring(start)]. *)
Definition includes (pat s : string) : bool :=
  match String.index 0 pat s with Some _ => true | None => false end.

Definition substring_from (start : nat) (s : string) : string :=
  String.substring start (String.length s - start) s.

Definition nl : string := String "010"%char EmptyString.

Fixpoint join (sep : string) (parts : list string) : string :=
  match parts with
  | [] => ""
  | [p] => p
  | p :: rest => p +:+ sep +:+ join sep rest
  end.

(** ** Messages, tool calls and completion requests *)

Record ToolCall := {
  tc_id : string;          (* toolCall.id *)
  tc_name : string;        (* toolCall.function.name *)
  tc_arguments : string    (* toolCall.function.arguments *)
}.

Inductive Role := system | user | assistant | tool.

Record Message := {
  role : Role;
  content : option string;                (* None is null *)
  tool_calls : option (list ToolCall);
  tool_call_id : option string
}.

(** [response.choices[0].message]: the provider's reply, whose role is
    always [assistant]. *)
Record AssistantMessage := {
  am_content : option string;
  am_tool_calls : option (list ToolCall)
}.

Definition as_message (m : AssistantMessage) : Message :=
  {| role := assistant; content := am_content m;
     tool_calls := am_tool_calls m; tool_call_id := None |}.

Definition text_message (r : Role) (text : string) : Message :=
  {| role := r; content := Some text; tool_calls := None; tool_call_id := None |}.

Definition tool_message (tc : ToolCall) (text : string) : Message :=
  {| role := tool; content := Some text; tool_calls := None;
     tool_call_id := Some (tc_id tc) |}.

Inductive Tool := WEB_SEARCH_TOOL | BROWSER_EXTRACT_TOOL.

Inductive ToolChoice :=
| choice_auto
| choice_none
| choice_function (name : string).

Record CallOptions := {
  req_model : string;
  req_messages : list Message;
  req_temperature : Z;                     (* in tenths *)
  req_tools : option (list Tool);          (* None: the field is undefined *)
  req_tool_choice : option ToolChoice      (* None: the field is undefined *)
}.

Definition MODEL_NAME : string := "meta-llama/llama-4-scout-17b-16e-instruct".

Definition MAX_AGENTIC_STEPS : nat := 6.

(** ** Failures *)

Record ErrorBody := {
  eb_code : option string;
  eb_failed_generation : option string
}.

Record ApiError := {
  err_status : option Z;            (* apiError.status *)
  err_response_status : option Z;   (* apiError.response?.status *)
  err_error : option ErrorBody;     (* apiError.error *)
  err_body_error : option ErrorBody;(* apiError.body?.error *)
  err_code : option string;         (* apiError.code *)
  err_message : option string       (* apiError.message *)
}.

(** What can be thrown inside [chat]: a provider failure, or a
    [TypeError]: of reading a property of [null] or [undefined], of calling
    what is no function, or of turning into text an object that has no
    usable [toString]. *)
Inductive Thrown :=
| api_error (e : ApiError)
| type_error.

Record Failure := {
  success : bool;
  error : string;
  code : string
}.

(** [a || b] on status numbers. *)
Definition status_or (a b : option Z) : option Z :=
  match a with
  | Some n => if Z.eqb n 0 then b else a
  | None => b
  end.

Definition api_status (e : ApiError) : option Z :=
  status_or (err_status e) (err_response_status e).

Definition thrown_status (e : Thrown) : option Z :=
  match e with
  | api_error a => api_status a
  | type_error => None
  end.

Definition status_is (n : Z) (status : option Z) : bool :=
  match status with Some m => Z.eqb m n | None => false end.

Definition handleError (e : Thrown) : Failure :=
  let status := thrown_status e in
  if status_is 429 status then
    {| success := false; error := "Rate limit exceeded."; code := "RATE_LIMIT" |}
  else if status_is 401 status || status_is 403 status then
    {| success := false; error := "Auth error."; code := "AUTH_ERROR" |}
  else
    {| success := false; error := "AI service temporarily unavailable.";
       code := "GROQ_ERROR" |}.

(** ** The search backend *)

Record SearchOptions := {
  so_query : option Json;
  so_topic : Json;
  so_max_results : Json;
  so_search_depth : Json
}.

(** The two shapes [tavilyService.search] returns. *)
Inductive SearchResult :=
| search_ok (answer : option string) (results : string) (sources : list Source)
| search_failed (error code : string).

Record ExtractItem := {
  ex_url : string;
  ex_raw_content : option string;
  ex_content : option string
}.

(** The two shapes [tavilyService.extract] returns. The results of an
    extraction that succeeded are taken to be as the API gives them: an
    array of objects with a URL and texts. *)
Inductive ExtractResult :=
| extract_ok (results : list ExtractItem)
| extract_failed (error code : string).

(** ** Steps and progress events *)

Inductive StepStatus := status_running | status_done | status_error.

Inductive StepId :=
| search_step_id (iteration count : nat)     (* step-<iteration>-<count> *)
| extract_step_id (iteration : nat) (now : Z). (* extract-<iteration>-<now> *)

Inductive StepType :=
| searching (query : option Json) (topic depth : Json)
| reading (urls : option Json).

Record Step := {
  step_id : StepId;
  step_type : StepType;
  status : StepStatus;
  timestamp : Z;
  resultCount : option nat
}.

Inductive EventType :=
| ev_thinking | ev_searching | ev_search_complete | ev_reading
| ev_reading_complete | ev_synthesizing | ev_error | ev_complete.

(** An event as the sink receives it: its type and a snapshot of the step
    it carries. The display text of events is not modelled, but for
    whether building it throws. *)
Record Event := {
  ev_type : EventType;
  ev_step : option Step
}.

(** A progress sink, as far as [chat] depends on it: whether it throws on
    an event. The sink is handed the step object that also sits in
    [searchSteps]; what a sink writes to that object is not modelled, so
    [searchSteps] and the steps of a result hold what [chat] itself wrote
    to them. *)
Definition ProgressSink : Type := Event → bool.

(** ** The environment of a run *)

Record Env := {
  JSON_parse : string → option Json;       (* None: JSON.parse throws *)
  groq_create : nat → CallOptions → AssistantMessage + ApiError;
  tavily_search : nat → SearchOptions → SearchResult;
  tavily_extract : nat → list Json → ExtractResult;
  tavily_latency : nat → nat;              (* completion time of a backend call *)
  Date_now : nat → Z;                      (* successive clock readings *)
  dateStr : string;
  timeStr : string;
  SYSTEM_PROMPT : string;
  DEEP_RESEARCH_PROMPT : string
}.

(** ** Arguments of [chat] *)

Record Options := {
  forceSearch : option bool;
  context : option string;
  isDeepResearch : option bool
}.

Definition empty_options : Options :=
  {| forceSearch := None; context := None; isDeepResearch := None |}.

Inductive OptionsArg :=
| legacy_forceSearch (b : bool)
| options_object (o : Options).

(** The bindings fixed before the loop starts. *)
Record Config := {
  cfg_forceSearch : bool;
  cfg_context : string;
  cfg_isDeepResearch : bool;
  cfg_tools : list Tool;
  cfg_toolChoice : ToolChoice;
  cfg_maxSteps : nat;
  cfg_onProgress : option ProgressSink
}.

(** ** The state of a run *)

(** Where a callback of [tool_calls.map(async ...)] stands once [map]
    returns: settled without awaiting, or waiting for the backend call
    numbered [call], whose answer will be [r]. *)
Inductive Pending :=
| resolved (m : Message)
| rejected (e : Thrown)
| awaiting_search (tc : ToolCall) (index : nat) (call : nat) (r : SearchResult)
| awaiting_extract (tc : ToolCall) (index : nat) (call : nat) (r : ExtractResult).

(** A search made: the number of the backend call, what was passed and
    the answer it gets. *)
Record SearchMade := {
  s_call : nat;
  s_options : SearchOptions;
  s_answer : SearchResult
}.

Record RunState := {
  messages : list Message;
  searchSteps : list Step;
  allSources : list Source;
  iteration : nat;
  lastAssistantMessage : option AssistantMessage;
  totalSearchCount : nat;
  events : list Event;          (* events handed to the sink, oldest first *)
  requests : list CallOptions;  (* completion requests sent, oldest first *)
  tavily_calls : nat;           (* backend calls issued *)
  clock_reads : nat;            (* clock readings taken *)
  searches : list SearchMade;       (* searches made, oldest first *)
  in_flight : list Pending      (* callbacks a rejected round left waiting *)
}.

Definition set_messages (f : list Message → list Message) (st : RunState) :=
  {| messages := f (messages st); searchSteps := searchSteps st;
     allSources := allSources st; iteration := iteration st;
     lastAssistantMessage := lastAssistantMessage st;
     totalSearchCount := totalSearchCount st; events := events st;
     requests := requests st; tavily_calls := tavily_calls st;
     clock_reads := clock_reads st; searches := searches st;
     in_flight := in_flight st |}.

Definition set_searchSteps (f : list Step → list Step) (st : RunState) :=
  {| messages := messages st; searchSteps := f (searchSteps st);
     allSources := allSources st; iteration := iteration st;
     lastAssistantMessage := lastAssistantMessage st;
     totalSearchCount := totalSearchCount st; events := events st;
     requests := requests st; tavily_calls := tavily_calls st;
     clock_reads := clock_reads st; searches := searches st;
     in_flight := in_flight st |}.

Definition set_allSources (f : list Source → list Source) (st : RunState) :=
  {| messages := messages st; searchSteps := searchSteps st;
     allSources := f (allSources st); iteration := iteration st;
     lastAssistantMessage := lastAssistantMessage st;
     totalSearchCount := totalSearchCount st; events := events st;
     requests := requests st; tavily_calls := tavily_calls st;
     clock_reads := clock_reads st; searches := searches st;
     in_flight := in_flight st |}.

Definition set_iteration (f : nat → nat) (st : RunState) :=
  {| messages := messages st; searchSteps := searchSteps st;
     allSources := allSources st; iteration := f (iteration st);
     lastAssistantMessage := lastAssistantMessage st;
     totalSearchCount := totalSearchCount st; events := events st;
     requests := requests st; tavily_calls := tavily_calls st;
     clock_reads := clock_reads st; searches := searches st;
     in_flight := in_flight st |}.

Definition set_lastAssistantMessage (m : AssistantMessage) (st : RunState) :=
  {| messages := messages st; searchSteps := searchSteps st;
     allSources := allSources st; iteration := iteration st;
     lastAssistantMessage := Some m; totalSearchCount := totalSearchCount st;
     events := events st; requests := requests st;
     tavily_calls := tavily_calls st; clock_reads := clock_reads st;
     searches := searches st; in_flight := in_flight st |}.

Definition set_totalSearchCount (f : nat → nat) (st : RunState) :=
  {| messages := messages st; searchSteps := searchSteps st;
     allSources := allSources st; iteration := iteration st;
     lastAssistantMessage := lastAssistantMessage st;
     totalSearchCount := f (totalSearchCount st); events := events st;
     requests := requests st; tavily_calls := tavily_calls st;
     clock_reads := clock_reads st; searches := searches st;
     in_flight := in_flight st |}.

Definition set_events (f : list Event → list Event) (st : RunState) :=
  {| messages := messages st; searchSteps := searchSteps st;
     allSources := allSources st; iteration := iteration st;
     lastAssistantMessage := lastAssistantMessage st;
     totalSearchCount := totalSearchCount st; events := f (events st);
     requests := requests st; tavily_calls := tavily_calls st;
     clock_reads := clock_reads st; searches := searches st;
     in_flight := in_flight st |}.

Definition set_requests (f : list CallOptions → list CallOptions)
    (st : RunState) :=
  {| messages := messages st; searchSteps := searchSteps st;
     allSources := allSources st; iteration := iteration st;
     lastAssistantMessage := lastAssistantMessage st;
     totalSearchCount := totalSearchCount st; events := events st;
     requests := f (requests st); tavily_calls := tavily_calls st;
     clock_reads := clock_reads st; searches := searches st;
     in_flight := in_flight st |}.

Definition set_tavily_calls (f : nat → nat) (st : RunState) :=
  {| messages := messages st; searchSteps := searchSteps st;
     allSources := allSources st; iteration := iteration st;
     lastAssistantMessage := lastAssistantMessage st;
     totalSearchCount := totalSearchCount st; events := events st;
     requests := requests st; tavily_calls := f (tavily_calls st);
     clock_reads := clock_reads st; searches := searches st;
     in_flight := in_flight st |}.

Definition set_clock_reads (f : nat → nat) (st : RunState) :=
  {| messages := messages st; searchSteps := searchSteps st;
     allSources := allSources st; iteration := iteration st;
     lastAssistantMessage := lastAssistantMessage st;
     totalSearchCount := totalSearchCount st; events := events st;
     requests := requests st; tavily_calls := tavily_calls st;
     clock_reads := f (clock_reads st); searches := searches st;
     in_flight := in_flight st |}.

Definition set_searches (f : list SearchMade → list SearchMade) (st : RunState) :=
  {| messages := messages st; searchSteps := searchSteps st;
     allSources := allSources st; iteration := iteration st;
     lastAssistantMessage := lastAssistantMessage st;
     totalSearchCount := totalSearchCount st; events := events st;
     requests := requests st; tavily_calls := tavily_calls st;
     clock_reads := clock_reads st; searches := f (searches st);
     in_flight := in_flight st |}.

Definition set_in_flight (f : list Pending → list Pending) (st : RunState) :=
  {| messages := messages st; searchSteps := searchSteps st;
     allSources := allSources st; iteration := iteration st;
     lastAssistantMessage := lastAssistantMessage st;
     totalSearchCount := totalSearchCount st; events := events st;
     requests := requests st; tavily_calls := tavily_calls st;
     clock_reads := clock_reads st; searches := searches st;
     in_flight := f (in_flight st) |}.

(** What [chat] resolves to. *)
Record ChatResult := {
  response : option string;
  searchPerformed : bool;
  sources : list Source;
  res_searchSteps : list Step;
  totalSteps : nat;
  totalSearches : nat
}.

Inductive ChatReturn :=
| chat_ok (r : ChatResult)
| chat_failed (f : Failure).

(** ** The body of [chat] *)

Section Chat.

Variable env : Env.
Variable cfg : Config.

(** [emit]: the event is handed to the sink when there is one, and what
    the sink throws is caught and ignored. The event itself, text
    included, is built by the caller before [emit] is entered. *)
Definition emit (type : EventType) (step : option Step) (st : RunState) : RunState :=
  match cfg_onProgress cfg with
  | Some onProgress =>
      let event := {| ev_type := type; ev_step := step |} in
      let st := set_events (λ evs, evs ++ [event]) st in
      if onProgress event then st   (* thrown, caught and ignored *)
      else st
  | None => st
  end.

(** [await groq.chat.completions.create(req)] *)
Definition create (req : CallOptions) (st : RunState)
  : (AssistantMessage + ApiError) * RunState :=
  (groq_create env (length (requests st)) req,
   set_requests (λ rs, rs ++ [req]) st).

(** [Date.now()] *)
Definition now (st : RunState) : Z * RunState :=
  (Date_now env (clock_reads st), set_clock_reads S st).

(** *** One tool call: up to its first [await] *)

Definition start_web_search (tc : ToolCall) (args : Json) (st : RunState)
  : Pending * RunState :=
  match args with
  | JNull => (rejected type_error, st)   (* destructuring null *)
  | _ =>
      let query := js_get args "query" in
      let topic := default (JStr "general") (js_get args "topic") in
      let search_depth :=
        if cfg_isDeepResearch cfg then JStr "advanced"
        else js_or (js_get args "search_depth") (JStr "basic") in
      let max_results :=
        if cfg_isDeepResearch cfg then JNum 10
        else js_or (js_get args "max_results") (JNum 5) in
      let st := set_totalSearchCount S st in
      let '(t, st) := now st in
      let step :=
        {| step_id := search_step_id (iteration st) (totalSearchCount st);
           step_type := searching query topic search_depth;
           status := status_running; timestamp := t; resultCount := None |} in
      let index := length (searchSteps st) in
      let st := set_searchSteps (λ steps, steps ++ [step]) st in
      if text_throws query || to_string_throws search_depth then
        (* the text of the event names the query and the depth *)
        (rejected type_error, st)
      else
        let st := emit ev_searching (Some step) st in
        let call := tavily_calls st in
        let options :=
          {| so_query := query; so_topic := topic;
             so_max_results := max_results;
             so_search_depth := search_depth |} in
        let r := tavily_search env call options in
        let st :=
          set_searches
            (λ made, made ++ [{| s_call := call; s_options := options;
                                 s_answer := r |}]) st in
        (awaiting_search tc index call r, set_tavily_calls S st)
  end.

Definition start_browser_extract (tc : ToolCall) (args : Json) (st : RunState)
  : Pending * RunState :=
  match args with
  | JNull => (rejected type_error, st)   (* destructuring null *)
  | _ =>
      let urls := js_get args "urls" in
      let '(t_id, st) := now st in
      let '(t, st) := now st in
      let step :=
        {| step_id := extract_step_id (iteration st) t_id;
           step_type := reading urls;
           status := status_running; timestamp := t; resultCount := None |} in
      let index := length (searchSteps st) in
      let st := set_searchSteps (λ steps, steps ++ [step]) st in
      match urls with
      | None | Some JNull =>
          (* urls.length throws while the event is being built *)
          (rejected type_error, st)
      | Some (JArr items) =>
          let st := emit ev_reading (Some step) st in
          if existsb to_string_throws items then
            (* urls.join turns every entry into text *)
            (rejected type_error, st)
          else
            let call := tavily_calls st in
            let r := tavily_extract env call items in
            (awaiting_extract tc index call r, set_tavily_calls S st)
      | Some (JObj props) =>
          if text_throws (assoc "length" props) then
            (* the text of the event names urls.length *)
            (rejected type_error, st)
          else
            (* urls.join is not a function *)
            (rejected type_error, emit ev_reading (Some step) st)
      | Some _ =>
          (* urls.join is not a function *)
          (rejected type_error, emit ev_reading (Some step) st)
      end
  end.

Definition start_tool_call (tc : ToolCall) (st : RunState) : Pending * RunState :=
  match JSON_parse env (tc_arguments tc) with
  | None => (resolved (tool_message tc "Invalid JSON arguments."), st)
  | Some args =>
      if String.eqb (tc_name tc) "web_search" then start_web_search tc args st
      else if String.eqb (tc_name tc) "browser_extract" then
        start_browser_extract tc args st
      else (resolved (tool_message tc "Unknown tool."), st)
  end.

(** [map] runs every callback up to its first [await], in call order. *)
Fixpoint start_tool_calls (calls : list ToolCall) (st : RunState)
  : list Pending * RunState :=
  match calls with
  | [] => ([], st)
  | tc :: rest =>
      let '(p, st) := start_tool_call tc st in
      let '(ps, st) := start_tool_calls rest st in
      (p :: ps, st)
  end.

(** *** One tool call: after its [await] *)

Definition search_succeeded (r : SearchResult) : bool :=
  match r with search_ok _ _ _ => true | search_failed _ _ => false end.

Definition extract_succeeded (r : ExtractResult) : bool :=
  match r with extract_ok _ => true | extract_failed _ _ => false end.

Definition finish_search_step (r : SearchResult) (step : Step) : Step :=
  {| step_id := step_id step; step_type := step_type step;
     status := if search_succeeded r then status_done else status_error;
     timestamp := timestamp step;
     resultCount :=
       Some match r with
            | search_ok _ _ srcs => length srcs
            | search_failed _ _ => 0
            end |}.

Definition finish_extract_step (r : ExtractResult) (step : Step) : Step :=
  {| step_id := step_id step; step_type := step_type step;
     status := if extract_succeeded r then status_done else status_error;
     timestamp := timestamp step; resultCount := resultCount step |}.

(** The step object is shared with [searchSteps]: writing to it updates
    the entry at its index. *)
Definition resume (p : Pending) (st : RunState) : RunState :=
  match p with
  | awaiting_search _ index _ r =>
      let st := set_searchSteps (alter (finish_search_step r) index) st in
      let st := emit ev_search_complete (searchSteps st !! index) st in
      match r with
      | search_ok _ _ srcs => set_allSources (λ all, all ++ srcs) st
      | search_failed _ _ => st
      end
  | awaiting_extract _ index _ r =>
      let st := set_searchSteps (alter (finish_extract_step r) index) st in
      emit ev_reading_complete (searchSteps st !! index) st
  | resolved _ | rejected _ => st
  end.

(** [r.raw_content || r.content] inside a template literal. *)
Definition item_text (r : ExtractItem) : string :=
  match ex_raw_content r with
  | Some s => if String.eqb s "" then default "undefined" (ex_content r) else s
  | None => default "undefined" (ex_content r)
  end.

Definition format_item (r : ExtractItem) : string :=
  "URL: " +:+ ex_url r +:+ nl +:+ "CONTENT: " +:+ item_text r.

(** The value a callback resolves to. *)
Definition result_message (p : Pending) : option Message :=
  match p with
  | resolved m => Some m
  | rejected _ => None
  | awaiting_search tc _ _ (search_ok _ results _) => Some (tool_message tc results)
  | awaiting_search tc _ _ (search_failed err _) =>
      Some (tool_message tc ("Search failed: " +:+ err))
  | awaiting_extract tc _ _ (extract_ok results) =>
      Some (tool_message tc
              ("Extracted Content:" +:+ nl +:+
               join (nl +:+ nl +:+ "---" +:+ nl +:+ nl) (format_item <$> results)))
  | awaiting_extract tc _ _ (extract_failed err _) =>
      Some (tool_message tc ("Extraction failed: " +:+ err))
  end.

(** *** The order in which awaited backend calls complete *)

Definition backend_call (p : Pending) : option nat :=
  match p with
  | awaiting_search _ _ call _ | awaiting_extract _ _ call _ => Some call
  | resolved _ | rejected _ => None
  end.

Definition latency (p : Pending) : nat :=
  match backend_call p with
  | Some call => tavily_latency env call
  | None => 0
  end.

Fixpoint insert_by_latency (p : Pending) (sorted : list Pending) : list Pending :=
  match sorted with
  | [] => [p]
  | q :: rest =>
      if Nat.leb (latency p) (latency q) then p :: q :: rest
      else q :: insert_by_latency p rest
  end.

(** Callbacks resume by increasing completion time; ties resume in call
    order. *)
Definition completion_order (ps : list Pending) : list Pending :=
  foldr insert_by_latency [] ps.

Fixpoint first_rejection (ps : list Pending) : option Thrown :=
  match ps with
  | [] => None
  | rejected e :: _ => Some e
  | _ :: rest => first_rejection rest
  end.

(** Whether the answer a callback waits for is there when the callback
    awaits it, as when the backend refuses a call without sending
    anything: completion time 0. *)
Definition answered_at_once (p : Pending) : bool := Nat.eqb (latency p) 0.

(** [await Promise.all(tool_calls.map(async ...))], then the push of the
    results in call order. A callback that throws rejects the whole round
    and stops no other: the callbacks whose answer is there at once resume,
    in call order, before the rejection reaches [chat]; the others are
    left waiting and resume when [chat] has returned. *)
Definition tool_round (calls : list ToolCall) (st : RunState)
  : option Thrown * RunState :=
  let '(ps, st) := start_tool_calls calls st in
  match first_rejection ps with
  | Some e =>
      let st := foldl (λ st p, resume p st) st (filter answered_at_once ps) in
      let late := filter (λ p, negb (answered_at_once p)) ps in
      (Some e, set_in_flight (λ waiting, waiting ++ completion_order late) st)
  | None =>
      let st := foldl (λ st p, resume p st) st (completion_order ps) in
      (None, set_messages (λ ms, ms ++ omap result_message ps) st)
  end.

(** What happens once [chat] has returned: the callbacks a rejected round
    left waiting resume as their answers come. They write to steps that
    are no longer returned and hand their events to the sink. *)
Definition aftermath (st : RunState) : RunState :=
  set_in_flight (λ _, [])
    (foldl (λ st p, resume p st) st (in_flight st)).

(** *** Recovery from a provider failure (the inner [catch]) *)

Definition str_truthy (s : option string) : bool :=
  match s with
  | Some x => negb (String.eqb x "")
  | None => false
  end.

Definition str_or (a b : option string) : option string :=
  if str_truthy a then a else b.

Definition str_is (x : string) (s : option string) : bool :=
  match s with Some y => String.eqb y x | None => false end.

Definition message_includes (pat : string) (e : ApiError) : bool :=
  match err_message e with
  | Some m => includes pat m
  | None => false
  end.

(** [apiError.error || apiError.body?.error || {}] *)
Definition errorBody (e : ApiError) : ErrorBody :=
  match err_error e, err_body_error e with
  | Some b, _ => b
  | None, Some b => b
  | None, None => {| eb_code := None; eb_failed_generation := None |}
  end.

Definition tool_use_failed (e : ApiError) : bool :=
  status_is 400 (api_status e)
  && (str_is "tool_use_failed" (str_or (eb_code (errorBody e)) (err_code e))
      || message_includes "tool_use_failed" e).

(** [JSON.parse(message.substring(start)).error?.failed_generation];
    the outer [None] means that the [try] block threw. The provider's
    [failed_generation] is text; another kind of value there is read as
    absent. *)
Definition embedded_failed_generation (m : string) : option (option string) :=
  match String.index 0 "{" m with
  | Some start =>
      match JSON_parse env (substring_from start m) with
      | None | Some JNull => None
      | Some json =>
          match js_get json "error" with
          | Some err =>
              match js_get err "failed_generation" with
              | Some (JStr s) => Some (Some s)
              | _ => Some None
              end
          | None => Some None
          end
      end
  | None => None
  end.

Definition finalFailedText (e : ApiError) : option string :=
  let failedText := eb_failed_generation (errorBody e) in
  if negb (str_truthy failedText) && message_includes "{" e then
    match err_message e with
    | Some m => default failedText (embedded_failed_generation m)
    | None => failedText
    end
  else failedText.

(** The text salvaged from a malformed tool call, when there is one. *)
Definition salvaged (e : ApiError) : option string :=
  if tool_use_failed e then
    match finalFailedText e with
    | Some text => if Nat.ltb 20 (String.length text) then Some text else None
    | None => None
    end
  else None.

Inductive Outcome :=
| continue (st : RunState)
| break (st : RunState)
| throw (e : Thrown) (st : RunState).

Definition synthesis_request (temperature : Z) (st : RunState) : CallOptions :=
  {| req_model := MODEL_NAME; req_messages := messages st;
     req_temperature := temperature; req_tools := None;
     req_tool_choice := None |}.

Definition recover (apiError : ApiError) (st : RunState) : Outcome :=
  match salvaged apiError with
  | Some text =>
      break (set_lastAssistantMessage
               {| am_content := Some text; am_tool_calls := None |} st)
  | None =>
      if Nat.ltb 0 (totalSearchCount st) then
        let st := emit ev_synthesizing None st in
        let '(r, st) := create (synthesis_request 7 st) st in
        match r with
        | inl m => break (set_lastAssistantMessage m st)
        | inr _ => throw (api_error apiError) st
        end
      else throw (api_error apiError) st
  end.

(** *** One pass through the [while] body *)

Definition FORCED_CONTINUATION : string :=
  "The research so far is too shallow or repetitive. Please identify at least 3 NEW, distinct angles, technical details, or specific data points you haven't investigated yet. Broaden the search to completely new sources to ensure a truly comprehensive report.".

Definition callOptions (st : RunState) : CallOptions :=
  let offered := Nat.ltb 0 (length (cfg_tools cfg)) in
  {| req_model := MODEL_NAME;
     req_messages := messages st;
     req_temperature := if cfg_isDeepResearch cfg then 4 else 7;
     req_tools := if offered then Some (cfg_tools cfg) else None;
     req_tool_choice :=
       if offered then
         Some (if Nat.eqb (iteration st) 1 && cfg_forceSearch cfg
               then cfg_toolChoice cfg else choice_auto)
       else None |}.

Definition loop_body (st : RunState) : Outcome :=
  let st := set_iteration S st in
  let req := callOptions st in
  let st := if Nat.ltb 1 (iteration st) then emit ev_thinking None st else st in
  let '(r, st) := create req st in
  match r with
  | inr apiError => recover apiError st
  | inl assistantMsg =>
      match am_tool_calls assistantMsg with
      | None | Some [] =>
          if cfg_isDeepResearch cfg
             && Nat.ltb (totalSearchCount st) 4
             && Nat.ltb (iteration st) (cfg_maxSteps cfg)
          then
            let st := emit ev_thinking None st in
            continue
              (set_messages
                 (λ ms, ms ++ [as_message assistantMsg;
                               text_message user FORCED_CONTINUATION]) st)
          else break (set_lastAssistantMessage assistantMsg st)
      | Some calls =>
          let st := set_messages (λ ms, ms ++ [as_message assistantMsg]) st in
          match tool_round calls st with
          | (Some e, st) => throw e st
          | (None, st) => continue st
          end
      end
  end.

(** [while (iteration < maxSteps) { ... }]. The fuel bounds the number of
    passes; [cfg_maxSteps] passes are always enough
    ([agentic_loop_fuel]). *)
Fixpoint agentic_loop (fuel : nat) (st : RunState) : option Thrown * RunState :=
  if Nat.ltb (iteration st) (cfg_maxSteps cfg) then
    match fuel with
    | 0 => (None, st)
    | S fuel =>
        match loop_body st with
        | continue st => agentic_loop fuel st
        | break st => (None, st)
        | throw e st => (Some e, st)
        end
    end
  else (None, st).

(** *** After the loop *)

Definition synthesize (st : RunState) : option Thrown * RunState :=
  match lastAssistantMessage st with
  | None =>
      let st := emit ev_synthesizing None st in
      let '(r, st) := create (synthesis_request 5 st) st in
      match r with
      | inl m => (None, set_lastAssistantMessage m st)
      | inr e => (Some (api_error e), st)
      end
  | Some _ =>
      (None, if Nat.ltb 0 (totalSearchCount st)
             then emit ev_synthesizing None st else st)
  end.

Definition assemble (st : RunState) : (Thrown + ChatResult) * RunState :=
  let uniqueSources := deduplicateSources (allSources st) in
  let st := emit ev_complete None st in
  match lastAssistantMessage st with
  | Some m =>
      (inr {| response := am_content m;
              searchPerformed := Nat.ltb 0 (totalSearchCount st);
              sources := uniqueSources;
              res_searchSteps := searchSteps st;
              totalSteps := iteration st;
              totalSearches := totalSearchCount st |}, st)
  | None => (inl type_error, st)
  end.

(** The outer [catch]. *)
Definition fail (e : Thrown) (st : RunState) : ChatReturn * RunState :=
  (chat_failed (handleError e), emit ev_error None st).

Definition run (st : RunState) : ChatReturn * RunState :=
  match agentic_loop (cfg_maxSteps cfg) st with
  | (Some e, st) => fail e st
  | (None, st) =>
      match synthesize st with
      | (Some e, st) => fail e st
      | (None, st) =>
          match assemble st with
          | (inl e, st) => fail e st
          | (inr r, st) => (chat_ok r, st)
          end
      end
  end.

(** *** Before the loop *)

Definition finalSystemPrompt : string :=
  SYSTEM_PROMPT env +:+ nl +:+ nl +:+ "## CURRENT REAL-WORLD CONTEXT" +:+ nl
  +:+ "- Current Date: " +:+ dateStr env +:+ nl
  +:+ "- Current Time: " +:+ timeStr env +:+ nl +:+ nl
  +:+ "You MUST use this time context."
  +:+ (if cfg_isDeepResearch cfg
       then nl +:+ nl +:+ DEEP_RESEARCH_PROMPT env else "")
  +:+ (if String.eqb (cfg_context cfg) "" then ""
       else nl +:+ nl +:+ "RELEVANT CONTEXT FROM DOCUMENTS:" +:+ nl
            +:+ cfg_context cfg).

Definition initial_messages (message : string) (conversationHistory : list Message)
  : list Message :=
  [text_message system finalSystemPrompt] ++ conversationHistory
  ++ [text_message user message].

Definition initial_state (message : string) (conversationHistory : list Message)
  : RunState :=
  let st :=
    {| messages := initial_messages message conversationHistory;
       searchSteps := []; allSources := []; iteration := 0;
       lastAssistantMessage := None; totalSearchCount := 0;
       events := []; requests := []; tavily_calls := 0; clock_reads := 0;
       searches := []; in_flight := [] |} in
  let st := emit ev_thinking None st in
  if String.eqb (cfg_context cfg) "" then st else emit ev_thinking None st.

End Chat.

(** *** [chat] *)

(** The legacy boolean third argument becomes an options object; an omitted
    argument is the empty object. *)
Definition normalize (optionsOrForceSearch : option OptionsArg) : Options :=
  match optionsOrForceSearch with
  | Some (legacy_forceSearch b) =>
      {| forceSearch := Some b; context := None; isDeepResearch := None |}
  | Some (options_object o) => o
  | None => empty_options
  end.

Definition configure (options : Options) (onProgress : option ProgressSink) : Config :=
  let forceSearch := default false (forceSearch options) in
  let context := default "" (context options) in
  let isDeepResearch := default false (isDeepResearch options) in
  let has_context := negb (String.eqb context "") in
  let tools :=
    [WEB_SEARCH_TOOL] ++ (if isDeepResearch then [BROWSER_EXTRACT_TOOL] else []) in
  {| cfg_forceSearch := forceSearch;
     cfg_context := context;
     cfg_isDeepResearch := isDeepResearch;
     cfg_tools := if has_context then [] else tools;
     cfg_toolChoice :=
       if has_context then choice_none
       else if forceSearch then choice_function "web_search"
       else choice_auto;
     cfg_maxSteps := if isDeepResearch then 10 else MAX_AGENTIC_STEPS;
     cfg_onProgress := onProgress |}.

(** [chat] together with the final state of the run. *)
Definition chat_run (env : Env) (message : string)
    (conversationHistory : list Message)
    (optionsOrForceSearch : option OptionsArg)
    (onProgress : option ProgressSink) : ChatReturn * RunState :=
  let cfg := configure (normalize optionsOrForceSearch) onProgress in
  run env cfg (initial_state env cfg message conversationHistory).

Definition chat (env : Env) (message : string)
    (conversationHistory : list Message)
    (optionsOrForceSearch : option OptionsArg)
    (onProgress : option ProgressSink) : ChatReturn :=
  fst (chat_run env message conversationHistory optionsOrForceSearch onProgress).

(** ** Observations on a run

    The vocabulary of the statements below: what is read off a tool call,
    a pending callback, a pass of the loop and a transcript. *)

#[global] Instance ToolCall_eq_dec : EqDecision ToolCall.
Proof. solve_decision. Defined.
#[global] Instance Role_eq_dec : EqDecision Role.
Proof. solve_decision. Defined.
#[global] Instance Message_eq_dec : EqDecision Message.
Proof. solve_decision. Defined.

Section Observations.

Variable env : Env.
Variable cfg : Config.

(** A web_search call whose arguments parsed. *)
Definition parsed_web_search (tc : ToolCall) : bool :=
  match JSON_parse env (tc_arguments tc) with
  | Some _ => String.eqb (tc_name tc) "web_search"
  | None => false
  end.

(** The answer a pending search waits for is an answer of the backend. *)
Definition from_backend (p : Pending) : Prop :=
  match p with
  | awaiting_search _ _ call r => ∃ opts, r = tavily_search env call opts
  | _ => True
  end.

(** How the callback started for [tc] stands: it answers to [tc]'s id,
    and says that the arguments are invalid exactly when they do not
    parse. *)
Definition started_for (tc : ToolCall) (p : Pending) : Prop :=
  match p with
  | resolved m =>
      ∃ text, m = tool_message tc text ∧
              (JSON_parse env (tc_arguments tc) = None →
               text = "Invalid JSON arguments.")
  | rejected e => e = type_error ∧ JSON_parse env (tc_arguments tc) ≠ None
  | awaiting_search tc' _ _ _ | awaiting_extract tc' _ _ _ =>
      tc' = tc ∧ JSON_parse env (tc_arguments tc) ≠ None
  end.

(** The sources a resumed callback pushes. *)
Definition new_sources (p : Pending) : list Source :=
  match p with
  | awaiting_search _ _ _ (search_ok _ _ srcs) => srcs
  | _ => []
  end.

(** What a settled round pushed for each call. *)
Definition answers (tc : ToolCall) (m : Message) : Prop :=
  ∃ text, m = tool_message tc text ∧
          (JSON_parse env (tc_arguments tc) = None →
           text = "Invalid JSON arguments.").

(** What a web_search call with the arguments [args] asks of the
    backend. *)
Definition search_options (args : Json) : SearchOptions :=
  {| so_query := js_get args "query";
     so_topic := default (JStr "general") (js_get args "topic");
     so_max_results :=
       if cfg_isDeepResearch cfg then JNum 10
       else js_or (js_get args "max_results") (JNum 5);
     so_search_depth :=
       if cfg_isDeepResearch cfg then JStr "advanced"
       else js_or (js_get args "search_depth") (JStr "basic") |}.

(** The search a tool call stands for: none unless it is a web_search call
    whose arguments parsed. *)
Definition search_of (tc : ToolCall) : option SearchOptions :=
  match JSON_parse env (tc_arguments tc) with
  | Some args =>
      if String.eqb (tc_name tc) "web_search" then Some (search_options args)
      else None
  | None => None
  end.

(** The sources a search contributes: those of its answer, when it
    succeeded. *)
Definition found (s : SearchMade) : list Source :=
  match s_answer s with
  | search_ok _ _ srcs => srcs
  | search_failed _ _ => []
  end.

(** The answer logged for a search is the backend's answer to it. *)
Definition answered (s : SearchMade) : Prop :=
  s_answer s = tavily_search env (s_call s) (s_options s).

(** A source that came out of an answer of the search backend. *)
Definition searched (s : Source) : Prop :=
  ∃ call opts answer results srcs,
    tavily_search env call opts = search_ok answer results srcs ∧ s ∈ srcs.

(** The request of the next pass and the provider's reply to it. *)
Definition next_request (st : RunState) : CallOptions :=
  callOptions cfg (set_iteration S st).

Definition next_reply (st : RunState) : AssistantMessage + ApiError :=
  groq_create env (length (requests st)) (next_request st).

(** The state in which the reply of a pass is examined. *)
Definition requested (st : RunState) : RunState :=
  let st := set_iteration S st in
  let req := callOptions cfg st in
  let st := if Nat.ltb 1 (iteration st) then emit cfg ev_thinking None st else st in
  snd (create env req st).

Definition force_continuation (m : AssistantMessage) (st : RunState) : RunState :=
  set_messages
    (λ ms, ms ++ [as_message m; text_message user FORCED_CONTINUATION])
    (emit cfg ev_thinking None st).

Definition must_continue (st : RunState) : bool :=
  cfg_isDeepResearch cfg
  && Nat.ltb (totalSearchCount st) 4
  && Nat.ltb (iteration st) (cfg_maxSteps cfg).

Definition tool_free (m : AssistantMessage) : bool :=
  match am_tool_calls m with
  | None | Some [] => true
  | Some (_ :: _) => false
  end.

(** The state after the recovery request of the inner [catch]. *)
Definition recovering (st : RunState) : RunState :=
  set_requests (λ rs, rs ++ [synthesis_request 7 st])
    (emit cfg ev_synthesizing None st).

(** One pass of the loop as a step relation: the eight ways through
    the body. *)
Inductive body_step (st : RunState) : Outcome → Prop :=
| step_salvaged e text :
    next_reply st = inr e → salvaged env e = Some text →
    body_step st
      (break (set_lastAssistantMessage
                {| am_content := Some text; am_tool_calls := None |}
                (requested st)))
| step_recovered e m :
    next_reply st = inr e → salvaged env e = None →
    0 < totalSearchCount st →
    groq_create env (length (requests (requested st)))
      (synthesis_request 7 (requested st)) = inl m →
    body_step st (break (set_lastAssistantMessage m (recovering (requested st))))
| step_unrecovered e e' :
    next_reply st = inr e → salvaged env e = None →
    0 < totalSearchCount st →
    groq_create env (length (requests (requested st)))
      (synthesis_request 7 (requested st)) = inr e' →
    body_step st (throw (api_error e) (recovering (requested st)))
| step_failed e :
    next_reply st = inr e → salvaged env e = None →
    totalSearchCount st = 0 →
    body_step st (throw (api_error e) (requested st))
| step_forced m :
    next_reply st = inl m → tool_free m = true →
    cfg_isDeepResearch cfg = true → totalSearchCount st < 4 →
    S (iteration st) < cfg_maxSteps cfg →
    body_step st (continue (force_continuation m (requested st)))
| step_answered m :
    next_reply st = inl m → tool_free m = true →
    ¬ (cfg_isDeepResearch cfg = true ∧ totalSearchCount st < 4
       ∧ S (iteration st) < cfg_maxSteps cfg) →
    body_step st (break (set_lastAssistantMessage m (requested st)))
| step_tools m tc calls st' :
    next_reply st = inl m → am_tool_calls m = Some (tc :: calls) →
    tool_round env cfg (tc :: calls)
      (set_messages (λ ms, ms ++ [as_message m]) (requested st)) = (None, st') →
    body_step st (continue st')
| step_tools_rejected m tc calls e st' :
    next_reply st = inl m → am_tool_calls m = Some (tc :: calls) →
    tool_round env cfg (tc :: calls)
      (set_messages (λ ms, ms ++ [as_message m]) (requested st)) = (Some e, st') →
    body_step st (throw e st').

(** The result assembled from a state. *)
Definition result_of (m : AssistantMessage) (st : RunState) : ChatResult :=
  {| response := am_content m;
     searchPerformed := Nat.ltb 0 (totalSearchCount st);
     sources := deduplicateSources (allSources st);
     res_searchSteps := searchSteps st;
     totalSteps := iteration st;
     totalSearches := totalSearchCount st |}.

(** The synthetic instruction of a forced continuation. *)
Definition directive : Message := text_message user FORCED_CONTINUATION.

Definition forced_directives (ms : list Message) : nat :=
  length (filter (λ m, m = directive) ms).

(** An assistant reply without tool calls. *)
Definition tool_free_reply (m : Message) : bool :=
  match role m, tool_calls m with
  | assistant, (None | Some []) => true
  | _, _ => false
  end.

Definition tool_free_replies (ms : list Message) : nat :=
  length (filter (λ m, tool_free_reply m = true) ms).

(** The tool calls carried by the messages of a transcript, in order. *)
Definition requested_calls (ms : list Message) : list ToolCall :=
  concat ((λ m, default [] (tool_calls m)) <$> ms).

Definition web_searches (ms : list Message) : nat :=
  length (filter (λ tc, parsed_web_search tc = true) (requested_calls ms)).

(** What holds of the transcript and the counters between passes;
    [complete] is false once a tool round was rejected. *)
Definition recorded (init : list Message) (complete : bool) (st : RunState) : Prop :=
  ∃ appended,
    messages st = init ++ appended ∧
    forced_directives appended = tool_free_replies appended ∧
    forced_directives appended ≤ iteration st ∧
    (complete = true →
     totalSearchCount st = web_searches appended ∧
     ∀ s, s ∈ allSources st → searched s).

(** The searches made since the transcript was [init] are those of the
    web_search calls the transcript gained, in the order of the calls; each
    got the backend's answer; and the sources collected are the sources
    these searches found, in some order. *)
Definition logged (init : list Message) (st : RunState) : Prop :=
  ∃ appended,
    messages st = init ++ appended ∧
    s_options <$> searches st = omap search_of (requested_calls appended) ∧
    Forall answered (searches st) ∧
    allSources st ≡ₚ concat (found <$> searches st).

(** A request that offers no tool and carries no tool choice. *)
Definition omits_tools (req : CallOptions) : Prop :=
  req_tools req = None ∧ req_tool_choice req = None.

(** Enforcement on the provider's side: a request that offers no tool and
    carries no tool choice is answered without a tool call. *)
Definition enforced : Prop :=
  ∀ n req m,
    omits_tools req → groq_create env n req = inl m → tool_free m = true.

(** No tool call was executed since the transcript was [init]: no call
    reached the backend, no step was opened, no search was counted, and
    what the transcript gained holds neither a tool call nor the answer to
    one. *)
Definition no_tool_run (init : list Message) (st : RunState) : Prop :=
  tavily_calls st = 0 ∧ searchSteps st = [] ∧ totalSearchCount st = 0 ∧
  ∃ appended,
    messages st = init ++ appended ∧
    requested_calls appended = [] ∧
    Forall (λ m, role m ≠ tool) appended.

End Observations.

#[global] Arguments requested : simpl never.
#[global] Arguments recovering : simpl never.
#[global] Arguments force_continuation : simpl never.

(** The configuration, the first state, the first request and the first
    reply of a call to [chat]. *)
Definition run_config (arg : option OptionsArg) (onProgress : option ProgressSink)
  : Config :=
  configure (normalize arg) onProgress.

Definition start_state (env : Env) (message : string) (history : list Message)
    (arg : option OptionsArg) (onProgress : option ProgressSink) : RunState :=
  initial_state env (run_config arg onProgress) message history.

Definition first_request (env : Env) (message : string) (history : list Message)
    (arg : option OptionsArg) (onProgress : option ProgressSink) : CallOptions :=
  next_request (run_config arg onProgress)
    (start_state env message history arg onProgress).

Definition first_reply (env : Env) (message : string) (history : list Message)
    (arg : option OptionsArg) (onProgress : option ProgressSink)
  : AssistantMessage + ApiError :=
  groq_create env 0 (first_request env message history arg onProgress).

(** The state in which a call to [chat] ends. *)
Definition final_state (env : Env) (message : string) (history : list Message)
    (arg : option OptionsArg) (onProgress : option ProgressSink) : RunState :=
  snd (chat_run env message history arg onProgress).

(** The transcript [chat] starts from. *)
Definition first_messages (env : Env) (message : string) (history : list Message)
    (arg : option OptionsArg) (onProgress : option ProgressSink) : list Message :=
  initial_messages env (run_config arg onProgress) message history.

(** The request of the inner [catch]: the transcript of [st], no tools,
    temperature 0.7. *)
Definition recovery_request (st : RunState) : CallOptions :=
  {| req_model := MODEL_NAME; req_messages := messages st;
     req_temperature := 7; req_tools := None; req_tool_choice := None |}.

(** The tool message that answers a call whose arguments do not parse. *)
Definition invalid_arguments (tc : ToolCall) : Message :=
  tool_message tc "Invalid JSON arguments.".

(** ** Sample runs

    Concrete environments on which the statements are exercised. *)

Module Samples.

Definition quote : string := String "034"%char EmptyString.

Definition quoted (s : string) : string := quote +:+ s +:+ quote.

(** The argument texts [{"query":"bitcoin"}] and
    [{"urls":["https://example.com/a"]}]. *)
Definition query_arguments : string :=
  "{" +:+ quoted "query" +:+ ":" +:+ quoted "bitcoin" +:+ "}".

Definition urls_arguments : string :=
  "{" +:+ quoted "urls" +:+ ":[" +:+ quoted "https://example.com/a" +:+ "]}".

(** [JSON.parse] on the texts the samples pass to it: the two argument
    texts above, [null], and [not json], on which it throws. *)
Definition parse (s : string) : option Json :=
  if String.eqb s query_arguments then Some (JObj [("query", JStr "bitcoin")])
  else if String.eqb s urls_arguments then
    Some (JObj [("urls", JArr [JStr "https://example.com/a"])])
  else if String.eqb s "null" then Some JNull
  else None.

Definition answer (text : string) : AssistantMessage :=
  {| am_content := Some text; am_tool_calls := None |}.

Definition calling (tc : ToolCall) : AssistantMessage :=
  {| am_content := None; am_tool_calls := Some [tc] |}.

Definition search_call : ToolCall :=
  {| tc_id := "call_1"; tc_name := "web_search"; tc_arguments := query_arguments |}.

Definition broken_call : ToolCall :=
  {| tc_id := "call_1"; tc_name := "web_search"; tc_arguments := "not json" |}.

Definition extract_call : ToolCall :=
  {| tc_id := "call_1"; tc_name := "browser_extract";
     tc_arguments := urls_arguments |}.

Definition null_call : ToolCall :=
  {| tc_id := "call_2"; tc_name := "web_search"; tc_arguments := "null" |}.

Definition status_error (n : Z) : ApiError :=
  {| err_status := Some n; err_response_status := None; err_error := None;
     err_body_error := None; err_code := None; err_message := None |}.

Definition page (u : string) : Source :=
  {| title := "Bitcoin price"; url := Some u; domain := "example.com";
     favicon := None |}.

Definition found : SearchResult :=
  search_ok None "Title: Bitcoin price"
    [page "https://example.com/a"; page "https://example.com/b";
     page "https://example.com/a"].

(** An environment whose provider plays [script] and whose backend always
    gives the same two answers. *)
Definition scripted (script : nat → AssistantMessage + ApiError)
    (search : SearchResult) (extract : ExtractResult) : Env :=
  {| JSON_parse := parse;
     groq_create := λ n _, script n;
     tavily_search := λ _ _, search;
     tavily_extract := λ _ _, extract;
     tavily_latency := λ _, 0;
     Date_now := λ n, (1700000000000 + Z.of_nat n)%Z;
     dateStr := "Sunday, November 1, 2026";
     timeStr := "09:00 AM";
     SYSTEM_PROMPT := "You are an expert AI assistant.";
     DEEP_RESEARCH_PROMPT := "DEEP RESEARCH PROTOCOL" |}.

Definition read : ExtractResult :=
  extract_ok [{| ex_url := "https://example.com/a";
                 ex_raw_content := Some "Bitcoin is a currency.";
                 ex_content := None |}].

(** The model answers at once. *)
Definition direct : Env := scripted (λ _, inl (answer "4")) found read.

(** The provider is rate limited. *)
Definition rate_limited : Env :=
  scripted (λ _, inr (status_error 429)) found read.

(** The model asks for one search, then answers. *)
Definition one_search : Env :=
  scripted (λ n, match n with
                 | 0 => inl (calling search_call)
                 | _ => inl (answer "done")
                 end) found read.

(** The model sends arguments that do not parse, then answers. *)
Definition broken_arguments : Env :=
  scripted (λ n, match n with
                 | 0 => inl (calling broken_call)
                 | _ => inl (answer "done")
                 end) found read.

(** The model sends, in one reply, a call whose arguments do not parse
    and a call whose arguments are [null]. *)
Definition broken_beside_null : Env :=
  scripted (λ n, match n with
                 | 0 => inl {| am_content := None;
                               am_tool_calls := Some [broken_call; null_call] |}
                 | _ => inl (answer "done")
                 end) found read.

(** The model sends, in one reply, a search and a call whose arguments
    are [null]. *)
Definition search_beside_null : Env :=
  scripted (λ n, match n with
                 | 0 => inl {| am_content := None;
                               am_tool_calls := Some [search_call; null_call] |}
                 | _ => inl (answer "done")
                 end) found read.

(** A sink that never throws. *)
Definition quiet_sink : ProgressSink := λ _, false.

(** The only search fails, the provider then fails once and answers the
    recovery request. *)
Definition failed_search_then_outage : Env :=
  scripted (λ n, match n with
                 | 0 => inl (calling search_call)
                 | 1 => inr (status_error 500)
                 | _ => inl (answer "partial answer")
                 end)
    (search_failed "Search service temporarily unavailable." "TAVILY_ERROR")
    read.

(** A page is read successfully, then the provider fails. *)
Definition extract_then_outage : Env :=
  scripted (λ n, match n with
                 | 0 => inl (calling extract_call)
                 | _ => inr (status_error 500)
                 end) found read.

Definition deep : option OptionsArg :=
  Some (options_object
          {| forceSearch := None; context := None; isDeepResearch := Some true |}).

Definition with_context : option OptionsArg :=
  Some (options_object
          {| forceSearch := None; context := Some "Chapter 1. Bitcoin.";
             isDeepResearch := None |}).

(** The model asks for a search on each of the six passes; only the
    synthesis request gets an answer. *)
Definition restless : Env :=
  scripted (λ n, if Nat.ltb n 6 then inl (calling search_call)
                 else inl (answer "final")) found read.

(** The model of a deep-research run answers without searching. *)
Definition shallow : Env :=
  scripted (λ _, inl (answer "shallow")) found read.

Definition shallow_start : RunState :=
  start_state shallow "What is bitcoin?" [] deep None.

(** The state of the run on [failed_search_then_outage] after its first
    pass. *)
Definition after_failed_search : RunState :=
  match loop_body failed_search_then_outage (run_config None None)
          (start_state failed_search_then_outage "What is bitcoin?" [] None None)
  with
  | continue st | break st | throw _ st => st
  end.

End Samples.

(** ** Runs without a progress sink *)

(** The configuration of the same run made without a sink. *)
Definition silent (cfg : Config) : Config :=
  {| cfg_forceSearch := cfg_forceSearch cfg;
     cfg_context := cfg_context cfg;
     cfg_isDeepResearch := cfg_isDeepResearch cfg;
     cfg_tools := cfg_tools cfg;
     cfg_toolChoice := cfg_toolChoice cfg;
     cfg_maxSteps := cfg_maxSteps cfg;
     cfg_onProgress := None |}.

(** A state with its event trace forgotten. *)
Definition erase (st : RunState) : RunState := set_events (λ _, []) st.

Definition erase_outcome (o : Outcome) : Outcome :=
  match o with
  | continue st => continue (erase st)
  | break st => break (erase st)
  | throw e st => throw e (erase st)
  end.

(** ** Steps of a tool round *)

(** The position in [searchSteps] of the step a pending callback will
    finish. *)
Definition pending_index (p : Pending) : option nat :=
  match p with
  | awaiting_search _ index _ _ | awaiting_extract _ index _ _ => Some index
  | resolved _ | rejected _ => None
  end.

(** What a resumed callback writes to its step. *)
Definition finish_with (p : Pending) : Step → Step :=
  match p with
  | awaiting_search _ _ _ r => finish_search_step r
  | awaiting_extract _ _ _ r => finish_extract_step r
  | resolved _ | rejected _ => λ s, s
  end.

Definition finish_step (p : Pending) (steps : list Step) : list Step :=
  match pending_index p with
  | Some index => alter (finish_with p) index steps
  | None => steps
  end.

Definition is_searching (s : Step) : bool :=
  match step_type s with
  | searching _ _ _ => true
  | reading _ => false
  end.

Definition is_running (s : Step) : bool :=
  match status s with
  | status_running => true
  | status_done | status_error => false
  end.

(** The number of searching steps in a step list. *)
Definition searching_steps (steps : list Step) : nat :=
  length (filter (λ s, is_searching s = true) steps).

(** The same environment with other completion times. *)
Definition with_latency (env : Env) (latency : nat → nat) : Env :=
  {| JSON_parse := JSON_parse env;
     groq_create := groq_create env;
     tavily_search := tavily_search env;
     tavily_extract := tavily_extract env;
     tavily_latency := latency;
     Date_now := Date_now env;
     dateStr := dateStr env;
     timeStr := timeStr env;
     SYSTEM_PROMPT := SYSTEM_PROMPT env;
     DEEP_RESEARCH_PROMPT := DEEP_RESEARCH_PROMPT env |}.

(** ** Observations on the requests of a run *)

(** The transcripts the requests of a run carried, oldest first. *)
Definition transcripts (st : RunState) : list (list Message) :=
  req_messages <$> requests st.

(** A list of transcripts in which every one extends those before it. *)
Definition growing (ts : list (list Message)) : Prop :=
  ∀ i j a b, i ≤ j → ts !! i = Some a → ts !! j = Some b → a `prefix_of` b.

(** A request that leaves the choice of a tool to the model. *)
Definition free_choice (req : CallOptions) : Prop :=
  req_tool_choice req = None ∨ req_tool_choice req = Some choice_auto.

(** ** Observations on the calls of a round *)

(** A call whose callback throws before its first [await]: a call to one
    of the two tools whose arguments parsed to [null]; a web_search call
    whose [query], or outside deep research whose [search_depth], cannot be
    turned into text; a browser_extract call whose [urls] is not an array,
    or is an array with an entry that cannot be turned into text. *)
Definition rejects (env : Env) (cfg : Config) (tc : ToolCall) : bool :=
  match JSON_parse env (tc_arguments tc) with
  | None => false
  | Some args =>
      if String.eqb (tc_name tc) "web_search" then
        match args with
        | JNull => true
        | _ =>
            text_throws (js_get args "query")
            || negb (cfg_isDeepResearch cfg)
               && text_throws (js_get args "search_depth")
        end
      else if String.eqb (tc_name tc) "browser_extract" then
        match args with
        | JNull => true
        | _ => match js_get args "urls" with
               | Some (JArr items) => existsb to_string_throws items
               | _ => true
               end
        end
      else false
  end.

(** A call that is answered without being run: its arguments do not
    parse, or it names a tool other than the two [chat] runs. *)
Definition not_run (env : Env) (tc : ToolCall) : bool :=
  match JSON_parse env (tc_arguments tc) with
  | None => true
  | Some _ =>
      negb (String.eqb (tc_name tc) "web_search")
      && negb (String.eqb (tc_name tc) "browser_extract")
  end.

Definition refusal (env : Env) (tc : ToolCall) : Message :=
  tool_message tc
    match JSON_parse env (tc_arguments tc) with
    | None => "Invalid JSON arguments."
    | Some _ => "Unknown tool."
    end.

(** What [handleError] makes of anything that is not a provider failure
    with a telling status. *)
Definition unavailable : Failure :=
  {| success := false; error := "AI service temporarily unavailable.";
     code := "GROQ_ERROR" |}.

(** ** Observations on the events of a run *)

(** What an event says while a run is under way: [thinking] and
    [synthesizing] carry no step; [searching] and [reading] carry the step
    just opened, still running; [search_complete] and [reading_complete]
    carry the same step once it is finished, a search with its result
    count. *)
Definition reports (e : Event) : bool :=
  match ev_type e, ev_step e with
  | (ev_thinking | ev_synthesizing), None => true
  | ev_searching, Some s => is_searching s && is_running s
  | ev_search_complete, Some s =>
      is_searching s && negb (is_running s)
      && bool_decide (is_Some (resultCount s))
  | ev_reading, Some s => negb (is_searching s) && is_running s
  | ev_reading_complete, Some s => negb (is_searching s) && negb (is_running s)
  | _, _ => false
  end.

(** The two events that close a run. *)
Definition terminal (e : Event) : bool :=
  match ev_type e with
  | ev_complete | ev_error => true
  | _ => false
  end.

Definition opening_event : Event :=
  {| ev_type := ev_thinking; ev_step := None |}.

Definition closing_event (r : ChatReturn) : Event :=
  {| ev_type := match r with
                | chat_ok _ => ev_complete
                | chat_failed _ => ev_error
                end;
     ev_step := None |}.

(** [st'] shows the events of [st] followed by reports. *)
Definition reported (st st' : RunState) : Prop :=
  ∃ new, events st' = events st ++ new ∧ Forall (λ e, reports e = true) new.

(** The step a pending callback waits to finish is of the callback's
    kind. *)
Definition pending_ok (types : list StepType) (p : Pending) : Prop :=
  match p with
  | awaiting_search _ index _ _ =>
      ∃ q t d, types !! index = Some (searching q t d)
  | awaiting_extract _ index _ _ => ∃ u, types !! index = Some (reading u)
  | resolved _ | rejected _ => True
  end.

(** An event that reports the end of a step. *)
Definition completion (e : Event) : bool :=
  match ev_type e with
  | ev_search_complete | ev_reading_complete => true
  | _ => false
  end.

(** A callback that waits for an answer of the backend. *)
Definition waits (p : Pending) : Prop := is_Some (backend_call p).

(** The callbacks left waiting do wait, each on a step of its kind. *)
Definition left_waiting (st : RunState) : Prop :=
  Forall (λ p, waits p ∧ pending_ok (step_type <$> searchSteps st) p)
    (in_flight st).

(** ** Observations on step ids *)

(** The search number in the id of a searching step. *)
Definition search_number (id : StepId) : option nat :=
  match id with
  | search_step_id _ count => Some count
  | extract_step_id _ _ => None
  end.

(** The pass recorded in a step id. *)
Definition step_pass (id : StepId) : nat :=
  match id with
  | search_step_id iteration _ | extract_step_id iteration _ => iteration
  end.

(** The search numbers of the steps of a list, in order. *)
Definition search_numbers (steps : list Step) : list nat :=
  omap search_number (step_id <$> steps).

(** Search numbers are handed out in order, and the pass in a step id is a
    pass of the run. *)
Definition numbered (st : RunState) : Prop :=
  search_numbers (searchSteps st) = seq 1 (totalSearchCount st) ∧
  Forall (λ s, 1 ≤ step_pass (step_id s) ≤ iteration st) (searchSteps st).

(** ** Observations on the depth of a search *)

(** The depth recorded in a searching step is a truthy value, and in deep
    research it is [advanced]. *)
Definition depth_ok (cfg : Config) (type : StepType) : Prop :=
  match type with
  | searching _ _ depth =>
      truthy depth = true ∧
      (cfg_isDeepResearch cfg = true → depth = JStr "advanced")
  | reading _ => True
  end.

(** ** The [seen] set of the deduplicator *)

(** The closure's [seen] set once [filter] has gone through [sources]. *)
Fixpoint seen_after (seen : gset string) (sources : list Source) : gset string :=
  match sources with
  | [] => seen
  | s :: rest =>
      match url s with
      | Some u =>
          if String.eqb u "" || bool_decide (u ∈ seen)
          then seen_after seen rest
          else seen_after ({[u]} ∪ seen) rest
      | None => seen_after seen rest
      end
  end.

(** ** [getDynamicResearchMessage] *)

Definition RESEARCH_MESSAGES : list string :=
  ["Diverging search angles to find hidden patterns...";
   "Cross-referencing sources for factual consistency...";
   "Identifying missing links in the investigation...";
   "Deepening analysis of key dimensions...";
   "Triangulating data from multiple domains...";
   "Expanding search to secondary leads...";
   "Validating findings against primary sources...";
   "Synthesizing complex relationships...";
   "Refining research based on discovered information...";
   "Exhausting all investigation paths..."].

(** The number nearest to an integer among those a double holds, ties
    going to the even significand: every integer up to 2^53 in size is
    such a number; above, [e] low bits are rounded away. *)
Definition nearest_double (n : Z) : Z :=
  let size := Z.abs n in
  let e := (Z.log2 size - 52)%Z in
  if (e <=? 0)%Z then n
  else
    let q := (size / 2 ^ e)%Z in
    let r := (size mod 2 ^ e)%Z in
    let half := (2 ^ (e - 1))%Z in
    let q' :=
      if (r <? half)%Z then q
      else if (half <? r)%Z then (q + 1)%Z
      else if Z.even q then q else (q + 1)%Z in
    (Z.sgn n * (q' * 2 ^ e))%Z.

(** [messages[(iteration - 2) % messages.length]] for an [iteration] that
    is an integer. The difference is a double, so it is rounded; the
    remainder is exact and has the sign of the difference; an index below
    zero reads [undefined]. *)
Definition getDynamicResearchMessage (iteration : Z) : option string :=
  let index :=
    Z.rem (nearest_double (iteration - 2))
      (Z.of_nat (length RESEARCH_MESSAGES)) in
  if (index <? 0)%Z then None else RESEARCH_MESSAGES !! Z.to_nat index.

(** * The search backend of [services/tavilyService.js]

    [TavilyService.search], [formatResults], [extractSources],
    [handleError] and [extract]. The HTTP client, the API key of the
    process environment and the URL parser are fields of a [World]; a
    response is its [data]. A result of the API has a title, a content and
    a URL, all strings, and a score, kept as the text the template
    literal renders; the options of [search] are those [chat] passes. *)

Module Tavily.

Record ResultItem := {
  r_title : string;
  r_content : string;
  r_url : string;
  r_score : string
}.

Record ResponseData := {
  d_answer : option string;
  d_results : option (list ResultItem)     (* None: the field is missing *)
}.

(** What [axios.post] or [new URL] throws, as [handleError] reads it. *)
Record HttpError := {
  he_response_status : option Z;           (* error.response?.status *)
  he_code : option string                  (* error.code *)
}.

(** The body [search] posts. *)
Record SearchRequest := {
  rq_query : string;
  rq_topic : Json;
  rq_search_depth : Json;
  rq_max_results : Json;
  rq_include_answer : bool;
  rq_include_raw_content : bool;
  rq_include_images : bool
}.

Record World := {
  TAVILY_API_KEY : option string;          (* process.env.TAVILY_API_KEY *)
  post_search : nat → SearchRequest → ResponseData + HttpError;
  post_extract : nat → list Json → list ExtractItem + HttpError;
  hostname : string → option string        (* None: [new URL] throws *)
}.

(** The [TypeError] of [new URL] on a string that is not a URL. *)
Definition invalid_url : HttpError :=
  {| he_response_status := None; he_code := Some "ERR_INVALID_URL" |}.

(** [s.replace(pat, rep)] for a string pattern: the first occurrence
    only. *)
Definition replace_first (pat rep s : string) : string :=
  match String.index 0 pat s with
  | Some n =>
      String.substring 0 n s +:+ rep
      +:+ substring_from (n + String.length pat) s
  | None => s
  end.

Section Service.

Variable w : World.

Definition has_key : bool := str_truthy (TAVILY_API_KEY w).

Definition format_result (r : ResultItem) : string :=
  "Title: " +:+ r_title r +:+ nl +:+ "Content: " +:+ r_content r +:+ nl
  +:+ "Source: " +:+ r_url r +:+ nl +:+ "Score: " +:+ r_score r.

Definition formatResults (response : ResponseData) : string :=
  match d_results response with
  | None | Some [] => "No results found."
  | Some results => join (nl +:+ nl) (format_result <$> results)
  end.

Definition source_of (r : ResultItem) : option Source :=
  match hostname w (r_url r) with
  | Some host =>
      Some {| title := r_title r;
              url := Some (r_url r);
              domain := replace_first "www." "" host;
              favicon :=
                Some ("https://www.google.com/s2/favicons?domain=" +:+ host
                      +:+ "&sz=32") |}
  | None => None
  end.

(** [response.results.map(...)]; [None] when [new URL] throws on one of
    the results. *)
Definition extractSources (response : ResponseData) : option (list Source) :=
  match d_results response with
  | None | Some [] => Some []
  | Some results => mapM source_of results
  end.

(** The [error] and the [code] of the failure object. *)
Definition handleError (e : HttpError) : string * string :=
  let status := he_response_status e in
  if status_is 429 status then
    ("Search rate limit exceeded. Please try again in a few minutes.",
     "RATE_LIMIT")
  else if status_is 401 status || status_is 403 status then
    ("Tavily API key is invalid or expired.", "AUTH_ERROR")
  else if str_is "ECONNABORTED" (he_code e) || str_is "ETIMEDOUT" (he_code e) then
    ("Search request timed out. Please try again.", "TIMEOUT")
  else ("Search service temporarily unavailable.", "TAVILY_ERROR").

Definition search_error (e : HttpError) : SearchResult :=
  search_failed (fst (handleError e)) (snd (handleError e)).

Definition extract_error (e : HttpError) : ExtractResult :=
  extract_failed (fst (handleError e)) (snd (handleError e)).

Definition INVALID_QUERY : SearchResult :=
  search_failed "Query is required and must be a string." "INVALID_QUERY".

(** The [TypeError] of a log line whose text cannot be built: it has
    neither a response nor a code. *)
Definition no_text : HttpError :=
  {| he_response_status := None; he_code := None |}.

(** Whether the log line of [search], which names the topic, the depth
    and the number of results, can be built. *)
Definition unprintable (options : SearchOptions) : bool :=
  to_string_throws (so_topic options)
  || to_string_throws (so_search_depth options)
  || to_string_throws (so_max_results options).

Definition search_request (query : string) (options : SearchOptions)
  : SearchRequest :=
  {| rq_query := query;
     rq_topic := so_topic options;
     rq_search_depth := so_search_depth options;
     rq_max_results := so_max_results options;
     rq_include_answer := true;
     rq_include_raw_content := false;
     rq_include_images := false |}.

(** [search(options)], as the call numbered [call] to the backend. *)
Definition search (call : nat) (options : SearchOptions) : SearchResult :=
  match so_query options with
  | Some (JStr query) =>
      if String.eqb query "" then INVALID_QUERY
      else if negb has_key then
        search_failed "Search service configuration error." "CONFIG_ERROR"
      else if unprintable options then
        (* thrown by the log line inside [try], before the request *)
        search_error no_text
      else
        match post_search w call (search_request query options) with
        | inl data =>
            match extractSources data with
            | Some sources =>
                search_ok (d_answer data) (formatResults data) sources
            | None => search_error invalid_url
            end
        | inr e => search_error e
        end
  | _ => INVALID_QUERY
  end.

(** [extract(urls)], as the call numbered [call] to the backend. *)
Definition extract (call : nat) (urls : option Json) : ExtractResult :=
  match urls with
  | Some (JArr (u :: rest)) =>
      if negb has_key then
        extract_failed "Extraction service configuration error." "CONFIG_ERROR"
      else
        match post_extract w call (u :: rest) with
        | inl results => extract_ok results
        | inr e => extract_error e
        end
  | _ => extract_failed "URLs array is required." "INVALID_URLS"
  end.

End Service.

End Tavily.


(** The results of a response, none when the field is missing. *)
Definition results_of (data : Tavily.ResponseData) : list Tavily.ResultItem :=
  default [] (Tavily.d_results data).

(** * The chat routes of [routes/chat.js]

    [POST /api/chat] and [POST /api/chat/stream]. A request is its body;
    [conversationHistory], when present, is a list of messages and
    [documentContexts], when it is an array, an array of strings. The
    heartbeat comments of the stream, which SSE parsers skip, are left
    out, and writes to the response succeed. [trim] is [String.trim]. *)

Module Routes.

Record Body := {
  b_message : option Json;
  b_conversationHistory : option (list Message);
  b_forceSearch : option Json;
  b_deepSearch : option Json;
  b_documentContexts : option (list string)  (* None: absent or no array *)
}.

(** What [POST /api/chat] answers, or the error it hands to the next
    handler of the application. *)
Inductive Response :=
| bad_request (error code : string)        (* status 400 *)
| server_error (f : Failure)               (* status 500 *)
| ok (data : ChatResult)                   (* status 200, [success: true] *)
| passed_on (e : Thrown).                  (* [next(error)] *)



Section Handlers.

Variable trim : string → string.
Variable env : Env.

(** [!message || typeof message !== 'string' ||
    message.trim().length === 0], negated. *)
Definition valid_message (body : Body) : option string :=
  match b_message body with
  | Some (JStr s) =>
      if String.eqb s "" || String.eqb (trim s) "" then None else Some s
  | _ => None
  end.

Definition context_of (body : Body) : string :=
  match b_documentContexts body with
  | Some (d :: ds) => join (nl +:+ nl +:+ "---" +:+ nl +:+ nl) (d :: ds)
  | _ => ""
  end.

(** [v] where a boolean is expected, [undefined] included. *)
Definition flag (v : option Json) : bool :=
  match v with
  | Some x => truthy x
  | None => false
  end.

(** The options object both handlers pass to [chat]. *)
Definition chat_options (body : Body) : option OptionsArg :=
  Some (options_object
          {| forceSearch := Some (flag (b_forceSearch body));
             context := Some (context_of body);
             isDeepResearch := Some (flag (b_deepSearch body)) |}).

Definition history_of (body : Body) : list Message :=
  default [] (b_conversationHistory body).

(** Whether the log line of [POST /api/chat], which names [forceSearch]
    and [deepSearch] as they came, can be built. *)
Definition unprintable (body : Body) : bool :=
  text_throws (b_forceSearch body) || text_throws (b_deepSearch body).

Definition post_chat (body : Body) : Response :=
  match valid_message body with
  | None =>
      bad_request "Message is required and must be a non-empty string."
        "INVALID_INPUT"
  | Some message =>
      if unprintable body then passed_on type_error
      else
        match chat env (trim message) (history_of body) (chat_options body)
                None with
        | chat_failed f => server_error f
        | chat_ok r => ok r
        end
  end.



End Handlers.

End Routes.


(** * The single-round [chat] and its retrieval caller

    The earlier [GroqService.chat] of [services/groqService.js], which
    runs at most one search, its [handleError], and [RAGService.query],
    which calls it with retrieved context. The environment is the one of
    the agent loop; the vector store is an oracle. A call made is recorded
    with what was passed: [search_depth], which this [chat] leaves out, is
    recorded as the backend's default. *)

Module Legacy.

(** The four shapes this [chat] returns. A search that failed is reported
    in a response text built from the query and the error; the text
    itself is not modelled, but for whether building it throws. *)
Inductive Return :=
| answered (response : option string)
| answered_from_search (response : option string)
    (searchQuery : option Json) (searchTopic : Json) (sources : list Source)
| search_issue (searchQuery : option Json) (searchTopic : Json)
    (searchError : string)
| failed (f : Failure).

(** The completion requests sent and the searches made, oldest first. *)
Record Trace := {
  sent : list CallOptions;
  searches : list SearchOptions
}.

Definition handleError (e : Thrown) : Failure :=
  let status := thrown_status e in
  if status_is 429 status then
    {| success := false; error := "Too many requests. Please wait a moment.";
       code := "RATE_LIMIT" |}
  else if status_is 401 status || status_is 403 status then
    {| success := false; error := "AI service configuration error.";
       code := "AUTH_ERROR" |}
  else
    {| success := false; error := "AI service temporarily unavailable.";
       code := "GROQ_ERROR" |}.

Definition INSTRUCTIONS : string :=
  "Use the above context to answer the user's question. If the answer is in the context, use it. If not, say you don't know based on the document. Do NOT say you cannot read documents, because the content has been provided to you as text above.".

Section Chat.

Variable env : Env.

Definition finalSystemPrompt (context : string) : string :=
  if String.eqb context "" then SYSTEM_PROMPT env
  else SYSTEM_PROMPT env +:+ nl +:+ nl +:+ "RELEVANT CONTEXT FROM DOCUMENTS:"
       +:+ nl +:+ context +:+ nl +:+ nl +:+ "INSTRUCTIONS:" +:+ nl
       +:+ INSTRUCTIONS.

Definition initial_messages (message : string)
    (conversationHistory : list Message) (context : string) : list Message :=
  [text_message system (finalSystemPrompt context)] ++ conversationHistory
  ++ [text_message user message].

Definition initial_request (message : string)
    (conversationHistory : list Message) (forceSearch : bool)
    (context : string) : CallOptions :=
  {| req_model := MODEL_NAME;
     req_messages := initial_messages message conversationHistory context;
     req_temperature := 7;
     req_tools :=
       if String.eqb context "" then Some [WEB_SEARCH_TOOL] else None;
     req_tool_choice :=
       Some (if String.eqb context "" then
               if forceSearch then choice_function "web_search"
               else choice_auto
             else choice_none) |}.

Definition final_request (messages : list Message) : CallOptions :=
  {| req_model := MODEL_NAME; req_messages := messages;
     req_temperature := 7; req_tools := None; req_tool_choice := None |}.

Definition toolResultContent (answer : option string) (results : string)
  : string :=
  if str_truthy answer then
    "Answer: " +:+ default "" answer +:+ nl +:+ nl +:+ "Search Results:"
    +:+ nl +:+ results
  else "Search Results:" +:+ nl +:+ results.

(** The search of the first tool call and the final completion. *)
Definition run_search (messages : list Message)
    (assistantMessage : AssistantMessage) (toolCall : ToolCall)
    (functionArgs : Json) (first : CallOptions) : Return * Trace :=
  match functionArgs with
  | JNull => (failed (handleError type_error),
              {| sent := [first]; searches := [] |})
  | _ =>
      let query := js_get functionArgs "query" in
      let topic := default (JStr "general") (js_get functionArgs "topic") in
      let options :=
        {| so_query := query; so_topic := topic; so_max_results := JNum 5;
           so_search_depth := JStr "basic" |} in
      match tavily_search env 0 options with
      | search_failed err _ =>
          if text_throws query then
            (* the response text names the query *)
            (failed (handleError type_error),
             {| sent := [first]; searches := [options] |})
          else
            (search_issue query topic err,
             {| sent := [first]; searches := [options] |})
      | search_ok answer results sources =>
          let messages :=
            messages ++ [as_message assistantMessage;
                         tool_message toolCall
                           (toolResultContent answer results)] in
          let final := final_request messages in
          match groq_create env 1 final with
          | inl finalMessage =>
              (answered_from_search (am_content finalMessage) query topic
                 sources,
               {| sent := [first; final]; searches := [options] |})
          | inr e =>
              (failed (handleError (api_error e)),
               {| sent := [first; final]; searches := [options] |})
          end
      end
  end.

Definition chat_run (message : string) (conversationHistory : list Message)
    (forceSearch : bool) (context : string) : Return * Trace :=
  let messages := initial_messages message conversationHistory context in
  let first := initial_request message conversationHistory forceSearch context in
  match groq_create env 0 first with
  | inr e =>
      (failed (handleError (api_error e)),
       {| sent := [first]; searches := [] |})
  | inl assistantMessage =>
      match am_tool_calls assistantMessage with
      | Some (toolCall :: _) =>
          match JSON_parse env (tc_arguments toolCall) with
          | None =>
              (failed (handleError type_error),
               {| sent := [first]; searches := [] |})
          | Some functionArgs =>
              if String.eqb (tc_name toolCall) "web_search" then
                run_search messages assistantMessage toolCall functionArgs first
              else
                (answered (am_content assistantMessage),
                 {| sent := [first]; searches := [] |})
          end
      | _ =>
          (answered (am_content assistantMessage),
           {| sent := [first]; searches := [] |})
      end
  end.

Definition chat (message : string) (conversationHistory : list Message)
    (forceSearch : bool) (context : string) : Return :=
  fst (chat_run message conversationHistory forceSearch context).

(** [RAGService.query]. [similaritySearch] answers with the page contents
    of the documents found, or fails, as does a failure to reach the
    vector store. *)
Definition query_run (similaritySearch : string → nat → option (list string))
    (message : string) (history : list Message) : Return * Trace :=
  match similaritySearch message 10 with
  | Some relevantDocs =>
      chat_run message history false (join (nl +:+ nl) relevantDocs)
  | None => chat_run message history false ""
  end.

Definition query (similaritySearch : string → nat → option (list string))
    (message : string) (history : list Message) : Return :=
  fst (query_run similaritySearch message history).

End Chat.

(** [searchPerformed], where the return has the field. *)
Definition searchPerformed (r : Return) : option bool :=
  match r with
  | answered _ => Some false
  | answered_from_search _ _ _ _ | search_issue _ _ _ => Some true
  | failed _ => None
  end.

End Legacy.

(** ** More sample inputs *)

Module Cases.

(** The argument text [{"urls":[]}]. *)
Definition no_urls_arguments : string :=
  "{" +:+ Samples.quoted "urls" +:+ ":[]}".

(** [JSON.parse] on two more texts: [{}] and the text above. *)
Definition parse (s : string) : option Json :=
  if String.eqb s "{}" then Some (JObj [])
  else if String.eqb s no_urls_arguments then Some (JObj [("urls", JArr [])])
  else Samples.parse s.

(** An environment whose provider plays [script], with the parser above. *)
Definition scripted (script : nat → AssistantMessage + ApiError) : Env :=
  {| JSON_parse := parse;
     groq_create := λ n _, script n;
     tavily_search := λ _ _, Samples.found;
     tavily_extract := λ _ _, Samples.read;
     tavily_latency := λ _, 0;
     Date_now := λ n, (1700000000000 + Z.of_nat n)%Z;
     dateStr := "Sunday, November 1, 2026";
     timeStr := "09:00 AM";
     SYSTEM_PROMPT := "You are an expert AI assistant.";
     DEEP_RESEARCH_PROMPT := "DEEP RESEARCH PROTOCOL" |}.

Definition null_call : ToolCall :=
  {| tc_id := "call_1"; tc_name := "web_search"; tc_arguments := "null" |}.



Definition calculator_call : ToolCall :=
  {| tc_id := "call_2"; tc_name := "calculator";
     tc_arguments := Samples.query_arguments |}.

(** The model asks for a search with [null] as arguments. *)
Definition null_arguments : Env :=
  scripted (λ _, inl (Samples.calling null_call)).

(** The model answers at once. *)
Definition direct : Env := scripted (λ _, inl (Samples.answer "4")).

(** A state between two passes. *)
Definition start : RunState :=
  start_state direct "What is bitcoin?" [] None None.

(** A backend that finds the given results; its URL parser knows two
    pages. *)
Definition item (u : string) : Tavily.ResultItem :=
  {| Tavily.r_title := "Bitcoin price";
     Tavily.r_content := "Bitcoin is a currency.";
     Tavily.r_url := u;
     Tavily.r_score := "0.98" |}.

Definition hostname (u : string) : option string :=
  if String.eqb u "https://www.example.com/a" then Some "www.example.com"
  else if String.eqb u "https://example.org/b" then Some "example.org"
  else None.

Definition response (results : list Tavily.ResultItem) : Tavily.ResponseData :=
  {| Tavily.d_answer := None; Tavily.d_results := Some results |}.

Definition world (results : list Tavily.ResultItem) : Tavily.World :=
  {| Tavily.TAVILY_API_KEY := Some "tvly-key";
     Tavily.post_search := λ _ _, inl (response results);
     Tavily.post_extract := λ _ _, inl [];
     Tavily.hostname := hostname |}.

Definition two_pages : list Tavily.ResultItem :=
  [item "https://www.example.com/a"; item "https://example.org/b"].

Definition one_broken : list Tavily.ResultItem :=
  [item "https://www.example.com/a"; item "not a url"].

Definition bitcoin : SearchOptions :=
  {| so_query := Some (JStr "bitcoin"); so_topic := JStr "general";
     so_max_results := JNum 5; so_search_depth := JStr "basic" |}.

Definition source (u host dom : string) : Source :=
  {| title := "Bitcoin price"; url := Some u; domain := dom;
     favicon :=
       Some ("https://www.google.com/s2/favicons?domain=" +:+ host
             +:+ "&sz=32") |}.

Definition two_sources : list Source :=
  [source "https://www.example.com/a" "www.example.com" "example.com";
   source "https://example.org/b" "example.org" "example.org"].

(** A request body with a question and the given document contexts. *)
Definition asking (docs : option (list string)) : Routes.Body :=
  {| Routes.b_message := Some (JStr " What is bitcoin? ");
     Routes.b_conversationHistory := None;
     Routes.b_forceSearch := None;
     Routes.b_deepSearch := None;
     Routes.b_documentContexts := docs |}.

(** [trim] for the white space of ASCII: space, tab, line feed and
    carriage return. *)
Definition is_space (c : ascii) : bool :=
  Ascii.eqb c " " || Ascii.eqb c "009" || Ascii.eqb c "010" || Ascii.eqb c "013".

Fixpoint trim_start (s : string) : string :=
  match s with
  | String c rest => if is_space c then trim_start rest else s
  | EmptyString => EmptyString
  end.

Definition trim (s : string) : string :=
  String.rev (trim_start (String.rev (trim_start s))).

End Cases.

(** ** Properties of the deduplicator *)

Section Dedupe.

Implicit Types (seen : gset string) (sources pre post : list Source).

Lemma filter_unseen_sublist seen sources :
  filter_unseen seen sources `sublist_of` sources.
Proof.
  revert seen; induction sources as [|s rest IH]; intros seen; simpl.
  - constructor.
  - destruct (url s) as [u|]; [|by apply sublist_cons].
    destruct (String.eqb u "" || bool_decide (u ∈ seen)).
    + by apply sublist_cons.
    + by apply sublist_skip.
Qed.

Lemma filter_unseen_url seen sources s :
  s ∈ filter_unseen seen sources →
  ∃ u, url s = Some u ∧ u ≠ "" ∧ u ∉ seen.
Proof.
  revert seen; induction sources as [|x rest IH]; intros seen; simpl.
  - by intros ?%elem_of_nil.
  - destruct (url x) as [u|] eqn:Hu; [|by apply IH].
    destruct (String.eqb u "") eqn:He; simpl; [by apply IH|].
    case_bool_decide as Hin; [by apply IH|].
    intros [->|Hs]%elem_of_cons.
    + exists u. apply String.eqb_neq in He. done.
    + destruct (IH _ Hs) as (v & ? & ? & ?). exists v. set_solver.
Qed.

Lemma filter_unseen_NoDup seen sources :
  NoDup (url <$> filter_unseen seen sources).
Proof.
  revert seen; induction sources as [|x rest IH]; intros seen; simpl.
  - constructor.
  - destruct (url x) as [u|] eqn:Hu; [|by apply IH].
    destruct (String.eqb u "") eqn:He; simpl; [by apply IH|].
    case_bool_decide as Hin; [by apply IH|].
    simpl. constructor; [|by apply IH].
    rewrite Hu. intros (s & Hs & Hin')%list_elem_of_fmap.
    apply filter_unseen_url in Hin' as (v & Hv & _ & Hnot).
    rewrite Hv in Hs. set_solver.
Qed.

Lemma filter_unseen_keeps_first seen sources pre s post u :
  sources = pre ++ s :: post →
  url s = Some u → u ≠ "" → u ∉ seen → Some u ∉ url <$> pre →
  s ∈ filter_unseen seen sources.
Proof.
  revert seen sources; induction pre as [|x pre IH];
    intros seen sources -> Hu Hne Hseen Hpre; simpl.
  - rewrite Hu. apply String.eqb_neq in Hne. rewrite Hne. simpl.
    rewrite bool_decide_eq_false_2 by done. by left.
  - rewrite fmap_cons in Hpre. apply not_elem_of_cons in Hpre as [Hx Hpre].
    destruct (url x) as [v|] eqn:Hv; [|by eapply IH].
    destruct (String.eqb v "" || bool_decide (v ∈ seen)); [by eapply IH|].
    right. eapply IH; eauto.
    apply not_elem_of_union; split; [|done].
    apply not_elem_of_singleton. congruence.
Qed.

Lemma filter_unseen_is_first seen sources s :
  s ∈ filter_unseen seen sources →
  ∃ pre post u,
    sources = pre ++ s :: post ∧ url s = Some u ∧ Some u ∉ url <$> pre.
Proof.
  revert seen; induction sources as [|x rest IH]; intros seen; simpl.
  - by intros ?%elem_of_nil.
  - assert (Hskip : ∀ seen', (∀ v, url x = Some v → v = "" ∨ v ∈ seen') →
                    s ∈ filter_unseen seen' rest →
                    ∃ pre post u, x :: rest = pre ++ s :: post ∧ url s = Some u
                                  ∧ Some u ∉ url <$> pre).
    { intros seen' Hx Hs.
      destruct (filter_unseen_url _ _ _ Hs) as (u & Hu & Hne & Hseen).
      destruct (IH _ Hs) as (pre & post & u' & -> & Hu' & Hpre).
      exists (x :: pre), post, u. split_and!; [done|done|].
      rewrite fmap_cons. apply not_elem_of_cons. split; [|congruence].
      intros Hxu. symmetry in Hxu. destruct (Hx _ Hxu); done. }
    destruct (url x) as [v|] eqn:Hv; [|apply (Hskip seen); congruence].
    destruct (String.eqb v "") eqn:He; simpl.
    { apply String.eqb_eq in He. apply (Hskip seen). intros ? [= <-]. by left. }
    case_bool_decide as Hin.
    { apply (Hskip seen). intros ? [= <-]. by right. }
    intros [->|Hs]%elem_of_cons.
    + exists [], rest, v. split_and!; [done|done|]. by intros ?%elem_of_nil.
    + apply (Hskip ({[v]} ∪ seen)); [|done]. intros ? [= <-]. right. set_solver.
Qed.

Lemma NoDup_fmap_eq {A B} (f : A → B) (l : list A) x y :
  NoDup (f <$> l) → x ∈ l → y ∈ l → f x = f y → x = y.
Proof.
  induction l as [|a l IH]; simpl; [by intros _ ?%elem_of_nil|].
  intros [Ha Hl]%NoDup_cons [->|Hx]%elem_of_cons [->|Hy]%elem_of_cons Hf; auto.
  - exfalso. apply Ha. rewrite Hf. by apply list_elem_of_fmap_2.
  - exfalso. apply Ha. rewrite <- Hf. by apply list_elem_of_fmap_2.
Qed.

End Dedupe.

(** C8. For every ordered list of sources, the output of
    [deduplicateSources] has no two entries with the same URL, is a
    subsequence of the input (so the kept entries keep their relative
    order), and the first occurrence of a URL wins: every kept entry is the
    first entry of the input with its URL, and the first entry carrying a
    given non-empty URL is kept and is the only kept entry with that URL.
    The function reads nothing but its argument and starts from an empty
    [seen] set at every call. *)
Theorem deduplicateSources_unique_first_seen (sources : list Source) :
  NoDup (url <$> deduplicateSources sources) ∧
  deduplicateSources sources `sublist_of` sources ∧
  (∀ s, s ∈ deduplicateSources sources →
        ∃ pre post u,
          sources = pre ++ s :: post ∧ url s = Some u ∧ Some u ∉ url <$> pre) ∧
  (∀ pre s post u,
      sources = pre ++ s :: post → url s = Some u → u ≠ "" →
      Some u ∉ url <$> pre →
      s ∈ deduplicateSources sources ∧
      ∀ s', s' ∈ deduplicateSources sources → url s' = Some u → s' = s).
Proof.
  unfold deduplicateSources. split; [apply filter_unseen_NoDup|].
  split; [apply filter_unseen_sublist|].
  split; [intros s; apply filter_unseen_is_first|].
  intros pre s post u Hsrc Hu Hne Hpre.
  assert (Hin : s ∈ filter_unseen ∅ sources)
    by (eapply filter_unseen_keeps_first; eauto; set_solver).
  split; [done|]. intros s' Hs' Hu'.
  eapply (NoDup_fmap_eq url); eauto using filter_unseen_NoDup. congruence.
Qed.

(** ** Frame properties: what each operation leaves untouched *)

Lemma concat_fmap_perm {A B} (f : A → list B) (l l' : list A) :
  l ≡ₚ l' → concat (f <$> l) ≡ₚ concat (f <$> l').
Proof.
  induction 1 as [|x l l' _ IH|x y l|l l' l'' _ IH _ IH']; simpl.
  - done.
  - by rewrite IH.
  - rewrite !app_assoc. f_equiv. apply Permutation_app_comm.
  - by rewrite IH.
Qed.

Lemma Forall_filter_of {A} (P Q : A → Prop) `{!∀ x, Decision (Q x)} (l : list A) :
  Forall P l → Forall P (filter Q l).
Proof.
  intros Hl. apply Forall_forall. intros x [_ Hx]%list_elem_of_filter.
  rewrite Forall_forall in Hl. by apply Hl.
Qed.

Section Frames.

Variable env : Env.
Variable cfg : Config.

(** The run does not depend on what the sink answers. *)
Lemma emit_unfold type step st :
  emit cfg type step st =
  match cfg_onProgress cfg with
  | Some _ =>
      set_events (λ evs, evs ++ [{| ev_type := type; ev_step := step |}]) st
  | None => st
  end.
Proof.
  unfold emit. destruct (cfg_onProgress cfg) as [onProgress|]; [|done].
  cbn. by destruct (onProgress _).
Qed.

Lemma emit_frame type step st :
  messages (emit cfg type step st) = messages st ∧
  searchSteps (emit cfg type step st) = searchSteps st ∧
  allSources (emit cfg type step st) = allSources st ∧
  iteration (emit cfg type step st) = iteration st ∧
  lastAssistantMessage (emit cfg type step st) = lastAssistantMessage st ∧
  totalSearchCount (emit cfg type step st) = totalSearchCount st ∧
  requests (emit cfg type step st) = requests st ∧
  tavily_calls (emit cfg type step st) = tavily_calls st ∧
  clock_reads (emit cfg type step st) = clock_reads st ∧
  searches (emit cfg type step st) = searches st ∧
  in_flight (emit cfg type step st) = in_flight st.
Proof. rewrite emit_unfold. by destruct (cfg_onProgress cfg). Qed.

Lemma emit_messages type step st : messages (emit cfg type step st) = messages st.
Proof. apply emit_frame. Qed.
Lemma emit_searchSteps type step st : searchSteps (emit cfg type step st) = searchSteps st.
Proof. apply emit_frame. Qed.
Lemma emit_allSources type step st : allSources (emit cfg type step st) = allSources st.
Proof. apply emit_frame. Qed.
Lemma emit_iteration type step st : iteration (emit cfg type step st) = iteration st.
Proof. apply emit_frame. Qed.
Lemma emit_lastAssistantMessage type step st :
  lastAssistantMessage (emit cfg type step st) = lastAssistantMessage st.
Proof. apply emit_frame. Qed.
Lemma emit_totalSearchCount type step st :
  totalSearchCount (emit cfg type step st) = totalSearchCount st.
Proof. apply emit_frame. Qed.
Lemma emit_requests type step st : requests (emit cfg type step st) = requests st.
Proof. apply emit_frame. Qed.
Lemma emit_tavily_calls type step st : tavily_calls (emit cfg type step st) = tavily_calls st.
Proof. apply emit_frame. Qed.
Lemma emit_clock_reads type step st : clock_reads (emit cfg type step st) = clock_reads st.
Proof. apply emit_frame. Qed.
Lemma emit_searches type step st : searches (emit cfg type step st) = searches st.
Proof. apply emit_frame. Qed.
Lemma emit_in_flight type step st : in_flight (emit cfg type step st) = in_flight st.
Proof. apply emit_frame. Qed.

End Frames.

Create Rewrite HintDb frame.
#[global] Hint Rewrite emit_messages emit_searchSteps emit_allSources emit_iteration
  emit_lastAssistantMessage emit_totalSearchCount emit_requests
  emit_tavily_calls emit_clock_reads emit_searches emit_in_flight : frame.

(** Splits on every test a started call makes. *)
Ltac branches H :=
  repeat match type of H with
         | context [if ?b then _ else _] => destruct b eqn:?
         | context [match ?x with _ => _ end] => destruct x eqn:?
         end.

Section ToolRound.

Variable env : Env.
Variable cfg : Config.

Ltac frame := simpl; autorewrite with frame; simpl; repeat split; auto.

Lemma start_web_search_frame tc args st p st' :
  start_web_search env cfg tc args st = (p, st') →
  messages st' = messages st ∧ allSources st' = allSources st ∧
  iteration st' = iteration st ∧
  lastAssistantMessage st' = lastAssistantMessage st ∧
  requests st' = requests st.
Proof.
  unfold start_web_search, now.
  destruct args; intros H; cbv beta iota zeta in H;
    try destruct (text_throws _ || to_string_throws _);
    inversion H; subst; frame.
Qed.

Lemma start_browser_extract_frame tc args st p st' :
  start_browser_extract env cfg tc args st = (p, st') →
  messages st' = messages st ∧ allSources st' = allSources st ∧
  iteration st' = iteration st ∧
  lastAssistantMessage st' = lastAssistantMessage st ∧
  requests st' = requests st ∧ totalSearchCount st' = totalSearchCount st.
Proof.
  unfold start_browser_extract, now.
  destruct args; simpl; intros H; branches H; inversion H; subst; frame.
Qed.

Lemma start_tool_call_frame tc st p st' :
  start_tool_call env cfg tc st = (p, st') →
  messages st' = messages st ∧ allSources st' = allSources st ∧
  iteration st' = iteration st ∧
  lastAssistantMessage st' = lastAssistantMessage st ∧
  requests st' = requests st.
Proof.
  unfold start_tool_call. intros H.
  destruct (JSON_parse env (tc_arguments tc)); [|by inversion H].
  destruct (String.eqb (tc_name tc) "web_search");
    [by eapply start_web_search_frame|].
  destruct (String.eqb (tc_name tc) "browser_extract");
    [|by inversion H].
  apply start_browser_extract_frame in H. tauto.
Qed.

Lemma start_tool_calls_frame calls : ∀ st ps st',
  start_tool_calls env cfg calls st = (ps, st') →
  messages st' = messages st ∧ allSources st' = allSources st ∧
  iteration st' = iteration st ∧
  lastAssistantMessage st' = lastAssistantMessage st ∧
  requests st' = requests st.
Proof.
  induction calls as [|tc calls IH]; simpl; intros st ps st' H.
  - by inversion H.
  - destruct (start_tool_call env cfg tc st) as [p st1] eqn:H1.
    destruct (start_tool_calls env cfg calls st1) as [ps' st2] eqn:H2.
    inversion H; subst.
    apply start_tool_call_frame in H1 as (? & ? & ? & ? & ?).
    apply IH in H2 as (? & ? & ? & ? & ?). repeat split; congruence.
Qed.

Lemma start_web_search_count tc args st p st' :
  start_web_search env cfg tc args st = (p, st') →
  first_rejection [p] = None →
  totalSearchCount st' = S (totalSearchCount st).
Proof.
  unfold start_web_search, now.
  destruct args; intros H; cbv beta iota zeta in H;
    try destruct (text_throws _ || to_string_throws _);
    inversion H; subst; simpl; try done; by frame.
Qed.

Lemma start_tool_call_count tc st p st' :
  start_tool_call env cfg tc st = (p, st') →
  first_rejection [p] = None →
  totalSearchCount st' =
  totalSearchCount st + (if parsed_web_search env tc then 1 else 0).
Proof.
  unfold start_tool_call, parsed_web_search. intros H Hp.
  destruct (JSON_parse env (tc_arguments tc)); [|inversion H; lia].
  destruct (String.eqb (tc_name tc) "web_search").
  { erewrite start_web_search_count by eauto. lia. }
  destruct (String.eqb (tc_name tc) "browser_extract");
    [|inversion H; lia].
  apply start_browser_extract_frame in H as (_ & _ & _ & _ & _ & ->). lia.
Qed.

Lemma first_rejection_cons p ps :
  first_rejection (p :: ps) = None →
  first_rejection [p] = None ∧ first_rejection ps = None.
Proof. by destruct p. Qed.

Lemma start_tool_calls_count calls : ∀ st ps st',
  start_tool_calls env cfg calls st = (ps, st') →
  first_rejection ps = None →
  totalSearchCount st' =
  totalSearchCount st + length (filter (λ tc, parsed_web_search env tc = true) calls).
Proof.
  induction calls as [|tc calls IH]; simpl; intros st ps st' H Hps.
  - inversion H; lia.
  - destruct (start_tool_call env cfg tc st) as [p st1] eqn:H1.
    destruct (start_tool_calls env cfg calls st1) as [ps' st2] eqn:H2.
    inversion H; subst.
    apply first_rejection_cons in Hps as [Hp Hps].
    rewrite (IH _ _ _ H2 Hps), (start_tool_call_count _ _ _ _ H1 Hp).
    destruct (parsed_web_search env tc) eqn:E.
    + rewrite filter_cons_True by done. simpl. lia.
    + rewrite filter_cons_False by congruence. lia.
Qed.

Lemma start_web_search_started tc args st p st' :
  JSON_parse env (tc_arguments tc) = Some args →
  start_web_search env cfg tc args st = (p, st') →
  started_for env tc p ∧ from_backend env p.
Proof.
  unfold start_web_search, now. intros Hparse H.
  destruct args; cbv beta iota zeta in H;
    try destruct (text_throws _ || to_string_throws _);
    inversion H; subst; simpl; (split; [split; congruence | eauto]).
Qed.

Lemma start_browser_extract_started tc args st p st' :
  JSON_parse env (tc_arguments tc) = Some args →
  start_browser_extract env cfg tc args st = (p, st') →
  started_for env tc p ∧ from_backend env p.
Proof.
  unfold start_browser_extract, now. intros Hparse H.
  destruct args as [| | | | |props]; simpl in H; branches H;
    inversion H; subst; simpl; (split; [split; congruence | eauto]).
Qed.

Lemma start_tool_call_started tc st p st' :
  start_tool_call env cfg tc st = (p, st') →
  started_for env tc p ∧ from_backend env p.
Proof.
  unfold start_tool_call. intros H.
  destruct (JSON_parse env (tc_arguments tc)) as [args|] eqn:Hparse.
  2:{ inversion H; subst; simpl. eauto. }
  destruct (String.eqb (tc_name tc) "web_search");
    [by eapply start_web_search_started|].
  destruct (String.eqb (tc_name tc) "browser_extract");
    [by eapply start_browser_extract_started|].
  inversion H; subst; simpl. split; [|done].
  eexists; split; [done|congruence].
Qed.

Lemma start_tool_calls_started calls : ∀ st ps st',
  start_tool_calls env cfg calls st = (ps, st') →
  Forall2 (started_for env) calls ps ∧ Forall (from_backend env) ps.
Proof.
  induction calls as [|tc calls IH]; simpl; intros st ps st' H.
  - inversion H. split; constructor.
  - destruct (start_tool_call env cfg tc st) as [p st1] eqn:H1.
    destruct (start_tool_calls env cfg calls st1) as [ps' st2] eqn:H2.
    inversion H; subst.
    apply start_tool_call_started in H1 as [??].
    apply IH in H2 as [??]. split; by constructor.
Qed.


Lemma resume_frame p st :
  messages (resume cfg p st) = messages st ∧
  iteration (resume cfg p st) = iteration st ∧
  lastAssistantMessage (resume cfg p st) = lastAssistantMessage st ∧
  totalSearchCount (resume cfg p st) = totalSearchCount st ∧
  requests (resume cfg p st) = requests st ∧
  tavily_calls (resume cfg p st) = tavily_calls st ∧
  allSources (resume cfg p st) = allSources st ++ new_sources p.
Proof.
  destruct p as [| | ? ? ? []| ? ? ? []]; frame; by rewrite app_nil_r.
Qed.

Lemma resume_all_frame ps : ∀ st,
  let st' := foldl (λ st p, resume cfg p st) st ps in
  messages st' = messages st ∧
  iteration st' = iteration st ∧
  lastAssistantMessage st' = lastAssistantMessage st ∧
  totalSearchCount st' = totalSearchCount st ∧
  requests st' = requests st ∧
  tavily_calls st' = tavily_calls st ∧
  allSources st' = allSources st ++ concat (new_sources <$> ps).
Proof.
  induction ps as [|p ps IH]; intros st; simpl.
  - by rewrite app_nil_r.
  - destruct (IH (resume cfg p st)) as (-> & -> & -> & -> & -> & -> & ->).
    destruct (resume_frame p st) as (-> & -> & -> & -> & -> & -> & ->).
    by rewrite <- app_assoc.
Qed.

Lemma insert_by_latency_perm p sorted :
  insert_by_latency env p sorted ≡ₚ p :: sorted.
Proof.
  induction sorted as [|q rest IH]; simpl; [done|].
  destruct (Nat.leb _ _); [done|]. rewrite IH. apply Permutation_swap.
Qed.

Lemma completion_order_perm ps : completion_order env ps ≡ₚ ps.
Proof.
  induction ps as [|p ps IH]; simpl; [done|].
  by rewrite insert_by_latency_perm, IH.
Qed.

Lemma result_messages_answer calls ps :
  Forall2 (started_for env) calls ps → first_rejection ps = None →
  Forall2 (answers env) calls (omap result_message ps).
Proof.
  induction 1 as [|tc p calls ps Hp _ IH]; simpl; [constructor|].
  intros [Hrej Hps]%first_rejection_cons.
  destruct p as [m|e|tc' i c r|tc' i c r]; simpl in *.
  - constructor; auto.
  - done.
  - destruct Hp as [-> Hparse].
    destruct r; simpl; (constructor; [|by auto]);
      eexists; (split; [done|congruence]).
  - destruct Hp as [-> Hparse].
    destruct r; simpl; (constructor; [|by auto]);
      eexists; (split; [done|congruence]).
Qed.

Lemma new_sources_searched ps s :
  Forall (from_backend env) ps → s ∈ concat (new_sources <$> ps) → searched env s.
Proof.
  induction 1 as [|p ps Hp _ IH]; simpl; [by intros ?%elem_of_nil|].
  intros [Hs|Hs]%elem_of_app; [|by auto].
  destruct p as [| | ? ? call [answer results srcs|]|]; simpl in Hs;
    try by apply elem_of_nil in Hs.
  destruct Hp as [opts Hr]. by exists call, opts, answer, results, srcs.
Qed.

Lemma tool_round_settled calls st st' :
  tool_round env cfg calls st = (None, st') →
  (∃ msgs, messages st' = messages st ++ msgs ∧ Forall2 (answers env) calls msgs) ∧
  iteration st' = iteration st ∧
  lastAssistantMessage st' = lastAssistantMessage st ∧
  requests st' = requests st ∧
  totalSearchCount st' =
    totalSearchCount st + length (filter (λ tc, parsed_web_search env tc = true) calls) ∧
  (∀ s, s ∈ allSources st' → s ∈ allSources st ∨ searched env s).
Proof.
  unfold tool_round.
  destruct (start_tool_calls env cfg calls st) as [ps st1] eqn:Hstart.
  destruct (first_rejection ps) eqn:Hrej; [done|].
  intros H; inversion H; subst; clear H. simpl.
  pose proof (resume_all_frame (completion_order env ps) st1) as Hres.
  simpl in Hres. destruct Hres as (-> & -> & -> & -> & -> & _ & Hsrc).
  pose proof (start_tool_calls_frame _ _ _ _ Hstart) as (-> & Hall & -> & -> & ->).
  pose proof (start_tool_calls_started _ _ _ _ Hstart) as [Hfor Hback].
  rewrite (start_tool_calls_count _ _ _ _ Hstart Hrej).
  repeat split; try done.
  - eexists; split; [done|]. by apply result_messages_answer.
  - intros s. rewrite Hsrc, Hall. intros [?|Hs]%elem_of_app; [by left|right].
    eapply (new_sources_searched (completion_order env ps)); [|done].
    by rewrite completion_order_perm.
Qed.

Lemma first_rejection_type_error calls ps e :
  Forall2 (started_for env) calls ps → first_rejection ps = Some e → e = type_error.
Proof.
  induction 1 as [|tc p calls ps Hp _ IH]; simpl; [done|].
  destruct p; auto. destruct Hp as [-> _]. congruence.
Qed.

Lemma tool_round_rejected calls st e st' :
  tool_round env cfg calls st = (Some e, st') →
  e = type_error ∧
  messages st' = messages st ∧
  iteration st' = iteration st ∧
  lastAssistantMessage st' = lastAssistantMessage st ∧
  requests st' = requests st.
Proof.
  unfold tool_round.
  destruct (start_tool_calls env cfg calls st) as [ps st1] eqn:Hstart.
  destruct (first_rejection ps) eqn:Hrej; [|done].
  intros H; inversion H; subst; clear H.
  cbn [messages iteration lastAssistantMessage requests set_in_flight].
  pose proof (resume_all_frame (filter (answered_at_once env) ps) st1) as Hres.
  simpl in Hres. destruct Hres as (-> & -> & -> & _ & -> & _).
  pose proof (start_tool_calls_frame _ _ _ _ Hstart) as (-> & _ & -> & -> & ->).
  pose proof (start_tool_calls_started _ _ _ _ Hstart) as [Hfor _].
  split; [|done]. eapply first_rejection_type_error; eauto.
Qed.

Lemma js_or_throws v d :
  to_string_throws d = false →
  to_string_throws (js_or v d) = text_throws v.
Proof.
  intros Hd. destruct v as [[|[]|n|t| |]|]; cbn; try done.
  - by destruct (Z.eqb n 0).
  - by destruct (String.eqb t "").
Qed.

Lemma search_text_throws args :
  text_throws (js_get args "query")
  || to_string_throws
       (if cfg_isDeepResearch cfg then JStr "advanced"
        else js_or (js_get args "search_depth") (JStr "basic"))
  = text_throws (js_get args "query")
    || negb (cfg_isDeepResearch cfg) && text_throws (js_get args "search_depth").
Proof.
  destruct (cfg_isDeepResearch cfg); [done|]. by rewrite js_or_throws.
Qed.

Lemma start_tool_call_rejects tc st :
  first_rejection [fst (start_tool_call env cfg tc st)] =
  if rejects env cfg tc then Some type_error else None.
Proof.
  unfold start_tool_call, rejects.
  destruct (JSON_parse env (tc_arguments tc)) as [args|]; [|done].
  destruct (String.eqb (tc_name tc) "web_search").
  { rewrite <- search_text_throws. unfold start_web_search, now.
    destruct args; cbv beta iota zeta; try done;
      by destruct (text_throws _ || to_string_throws _). }
  destruct (String.eqb (tc_name tc) "browser_extract"); [|done].
  unfold start_browser_extract.
  destruct args as [| | | | |props]; try done.
  cbn. destruct (assoc "urls" props) as [[| | | |items|more]|]; try done.
  - by destruct (existsb to_string_throws items).
  - by destruct (text_throws (assoc "length" more)).
Qed.

Lemma first_rejection_app p ps :
  first_rejection (p :: ps) =
  match first_rejection [p] with
  | Some e => Some e
  | None => first_rejection ps
  end.
Proof. by destruct p. Qed.

Lemma start_tool_calls_rejects calls : ∀ st,
  first_rejection (fst (start_tool_calls env cfg calls st)) =
  if existsb (rejects env cfg) calls then Some type_error else None.
Proof.
  induction calls as [|tc calls IH]; intros st; [done|]. simpl.
  pose proof (start_tool_call_rejects tc st) as Hp.
  destruct (start_tool_call env cfg tc st) as [p st1].
  specialize (IH st1).
  destruct (start_tool_calls env cfg calls st1) as [ps st2].
  cbn [fst] in *. rewrite first_rejection_app, Hp, IH.
  by destruct (rejects env cfg tc).
Qed.

Lemma tool_round_fst calls st :
  fst (tool_round env cfg calls st) =
  if existsb (rejects env cfg) calls then Some type_error else None.
Proof.
  pose proof (start_tool_calls_rejects calls st) as Hrej.
  unfold tool_round.
  destruct (start_tool_calls env cfg calls st) as [ps st1]. cbn [fst] in Hrej.
  rewrite Hrej. by destruct (existsb (rejects env cfg) calls).
Qed.

Lemma resume_length p st :
  length (searchSteps (resume cfg p st)) = length (searchSteps st).
Proof.
  destruct p as [| | ? ? ? []| ? ? ? []]; cbn; autorewrite with frame; cbn;
    by rewrite ?length_alter.
Qed.

Lemma resume_all_opened ps : ∀ st,
  length (searchSteps (foldl (λ st p, resume cfg p st) st ps))
  = length (searchSteps st).
Proof.
  induction ps as [|p ps IH]; intros st; simpl; [done|].
  by rewrite IH, resume_length.
Qed.

(** A call that is run and does not throw opens one step. *)
Lemma start_tool_call_opened tc st p st' :
  start_tool_call env cfg tc st = (p, st') →
  first_rejection [p] = None →
  length (searchSteps st') =
  length (searchSteps st) + (if not_run env tc then 0 else 1).
Proof.
  unfold start_tool_call, not_run. intros H Hp.
  destruct (JSON_parse env (tc_arguments tc)) as [args|];
    [|inversion H; subst; lia].
  destruct (String.eqb (tc_name tc) "web_search").
  { cbn. unfold start_web_search, now in H.
    destruct args; cbv beta iota zeta in H;
      try destruct (text_throws _ || to_string_throws _);
      inversion H; subst; try done;
      cbn; autorewrite with frame; cbn; by rewrite length_app. }
  destruct (String.eqb (tc_name tc) "browser_extract");
    [|inversion H; subst; cbn; lia].
  cbn. unfold start_browser_extract, now in H.
  destruct args as [| | | | |props]; simpl in H; branches H;
    inversion H; subst; try done;
    cbn; autorewrite with frame; cbn; by rewrite length_app.
Qed.

Lemma start_tool_calls_opened calls : ∀ st ps st',
  start_tool_calls env cfg calls st = (ps, st') →
  first_rejection ps = None →
  length (searchSteps st') =
  length (searchSteps st) + length (filter (λ tc, not_run env tc = false) calls).
Proof.
  induction calls as [|tc calls IH]; simpl; intros st ps st' H Hps.
  - inversion H; lia.
  - destruct (start_tool_call env cfg tc st) as [p st1] eqn:H1.
    destruct (start_tool_calls env cfg calls st1) as [ps' st2] eqn:H2.
    inversion H; subst.
    apply first_rejection_cons in Hps as [Hp Hps].
    rewrite (IH _ _ _ H2 Hps), (start_tool_call_opened _ _ _ _ H1 Hp).
    destruct (not_run env tc) eqn:E.
    + rewrite filter_cons_False by congruence. lia.
    + rewrite filter_cons_True by done. simpl. lia.
Qed.

(** A settled round opens one step for each call that is run. *)
Lemma tool_round_opened calls st st' :
  tool_round env cfg calls st = (None, st') →
  length (searchSteps st') =
  length (searchSteps st) + length (filter (λ tc, not_run env tc = false) calls).
Proof.
  unfold tool_round.
  destruct (start_tool_calls env cfg calls st) as [ps st1] eqn:Hstart.
  destruct (first_rejection ps) eqn:Hrej; [done|].
  intros H; inversion H; subst; clear H.
  cbn [searchSteps set_messages]. rewrite resume_all_opened.
  by eapply start_tool_calls_opened.
Qed.

End ToolRound.

Section Loop.

Variable env : Env.
Variable cfg : Config.

Lemma requested_frame st :
  messages (requested env cfg st) = messages st ∧
  searchSteps (requested env cfg st) = searchSteps st ∧
  allSources (requested env cfg st) = allSources st ∧
  iteration (requested env cfg st) = S (iteration st) ∧
  lastAssistantMessage (requested env cfg st) = lastAssistantMessage st ∧
  totalSearchCount (requested env cfg st) = totalSearchCount st ∧
  tavily_calls (requested env cfg st) = tavily_calls st ∧
  requests (requested env cfg st) = requests st ++ [next_request cfg st].
Proof.
  unfold requested, create, next_request. simpl.
  destruct (Nat.ltb 1 (S (iteration st))); simpl; autorewrite with frame;
    simpl; done.
Qed.

(** [loop_body], one reply at a time. *)
Lemma loop_body_failed st e :
  next_reply env cfg st = inr e →
  loop_body env cfg st = recover env cfg e (requested env cfg st).
Proof.
  unfold next_reply, next_request, loop_body, requested, create. simpl.
  destruct (Nat.ltb 1 (S (iteration st))); simpl; autorewrite with frame;
    simpl; by intros ->.
Qed.

Lemma loop_body_tool_free st m :
  next_reply env cfg st = inl m → tool_free m = true →
  loop_body env cfg st =
  if must_continue cfg (requested env cfg st)
  then continue (force_continuation cfg m (requested env cfg st))
  else break (set_lastAssistantMessage m (requested env cfg st)).
Proof.
  unfold next_reply, next_request, loop_body, requested, create, tool_free,
    must_continue, force_continuation. simpl.
  destruct (Nat.ltb 1 (S (iteration st))); simpl; autorewrite with frame;
    simpl; intros -> Hm; by destruct (am_tool_calls m) as [[]|].
Qed.

Lemma loop_body_tools st m tc calls :
  next_reply env cfg st = inl m → am_tool_calls m = Some (tc :: calls) →
  loop_body env cfg st =
  match tool_round env cfg (tc :: calls)
          (set_messages (λ ms, ms ++ [as_message m]) (requested env cfg st)) with
  | (Some e, st') => throw e st'
  | (None, st') => continue st'
  end.
Proof.
  unfold next_reply, next_request, loop_body, requested, create. simpl.
  destruct (Nat.ltb 1 (S (iteration st))); simpl; autorewrite with frame;
    simpl; by intros -> ->.
Qed.

Lemma recover_cases e st :
  recover env cfg e st =
  match salvaged env e with
  | Some text =>
      break (set_lastAssistantMessage
               {| am_content := Some text; am_tool_calls := None |} st)
  | None =>
      if Nat.ltb 0 (totalSearchCount st) then
        let st' := set_requests (λ rs, rs ++ [synthesis_request 7 st])
                     (emit cfg ev_synthesizing None st) in
        match groq_create env (length (requests st)) (synthesis_request 7 st) with
        | inl m => break (set_lastAssistantMessage m st')
        | inr _ => throw (api_error e) st'
        end
      else throw (api_error e) st
  end.
Proof.
  unfold recover, create, synthesis_request.
  destruct (salvaged env e); [done|].
  destruct (Nat.ltb 0 (totalSearchCount st)); [|done].
  autorewrite with frame. by destruct (groq_create _ _ _).
Qed.


Lemma must_continue_requested st :
  must_continue cfg (requested env cfg st) = true ↔
  cfg_isDeepResearch cfg = true ∧ totalSearchCount st < 4
  ∧ S (iteration st) < cfg_maxSteps cfg.
Proof.
  unfold must_continue.
  destruct (requested_frame st) as (_ & _ & _ & -> & _ & -> & _).
  rewrite !andb_true_iff, !Nat.ltb_lt. tauto.
Qed.

Lemma loop_body_step st : body_step env cfg st (loop_body env cfg st).
Proof.
  destruct (next_reply env cfg st) as [m|e] eqn:Hreply.
  - destruct (am_tool_calls m) as [[|tc calls]|] eqn:Hcalls.
    + rewrite (loop_body_tool_free _ m) by (unfold tool_free; by rewrite ?Hcalls).
      destruct (must_continue cfg (requested env cfg st)) eqn:Hc.
      * apply must_continue_requested in Hc as (? & ? & ?).
        apply step_forced; unfold tool_free; by rewrite ?Hcalls.
      * apply step_answered; [done|unfold tool_free; by rewrite Hcalls|].
        rewrite <- must_continue_requested. congruence.
    + rewrite (loop_body_tools _ m tc calls) by done.
      destruct (tool_round _ _ _ _) as [[e|] st'] eqn:Hround.
      * by eapply step_tools_rejected.
      * by eapply step_tools.
    + rewrite (loop_body_tool_free _ m) by (unfold tool_free; by rewrite ?Hcalls).
      destruct (must_continue cfg (requested env cfg st)) eqn:Hc.
      * apply must_continue_requested in Hc as (? & ? & ?).
        apply step_forced; unfold tool_free; by rewrite ?Hcalls.
      * apply step_answered; [done|unfold tool_free; by rewrite Hcalls|].
        rewrite <- must_continue_requested. congruence.
  - rewrite (loop_body_failed _ e), recover_cases by done.
    destruct (salvaged env e) as [text|] eqn:Hs; [by eapply step_salvaged|].
    destruct (Nat.ltb 0 (totalSearchCount (requested env cfg st))) eqn:Hn.
    + apply Nat.ltb_lt in Hn.
      destruct (requested_frame st) as (_ & _ & _ & _ & _ & Hcount & _).
      rewrite Hcount in Hn. simpl.
      destruct (groq_create _ _ _) eqn:Hsynth.
      * by eapply step_recovered.
      * by eapply step_unrecovered.
    + apply Nat.ltb_ge in Hn.
      destruct (requested_frame st) as (_ & _ & _ & _ & _ & Hcount & _).
      rewrite Hcount in Hn. apply step_failed; [done..|lia].
Qed.

Lemma recovering_frame st :
  messages (recovering cfg st) = messages st ∧
  searchSteps (recovering cfg st) = searchSteps st ∧
  allSources (recovering cfg st) = allSources st ∧
  iteration (recovering cfg st) = iteration st ∧
  lastAssistantMessage (recovering cfg st) = lastAssistantMessage st ∧
  totalSearchCount (recovering cfg st) = totalSearchCount st ∧
  tavily_calls (recovering cfg st) = tavily_calls st ∧
  requests (recovering cfg st) = requests st ++ [synthesis_request 7 st].
Proof. unfold recovering. simpl. autorewrite with frame. done. Qed.

Lemma force_continuation_frame m st :
  messages (force_continuation cfg m st) =
    messages st ++ [as_message m; text_message user FORCED_CONTINUATION] ∧
  searchSteps (force_continuation cfg m st) = searchSteps st ∧
  allSources (force_continuation cfg m st) = allSources st ∧
  iteration (force_continuation cfg m st) = iteration st ∧
  lastAssistantMessage (force_continuation cfg m st) = lastAssistantMessage st ∧
  totalSearchCount (force_continuation cfg m st) = totalSearchCount st ∧
  tavily_calls (force_continuation cfg m st) = tavily_calls st ∧
  requests (force_continuation cfg m st) = requests st.
Proof. unfold force_continuation. simpl. autorewrite with frame. done. Qed.

(** Every pass advances the iteration counter by exactly one. *)
Lemma body_step_iteration st o :
  body_step env cfg st o →
  match o with
  | continue st' | break st' | throw _ st' => iteration st' = S (iteration st)
  end.
Proof.
  destruct (requested_frame st) as (_ & _ & _ & Hit & _).
  destruct 1 as [| | | | | |m tc calls st' _ _ Hround|m tc calls e st' _ _ Hround];
    unfold recovering, force_continuation; simpl; autorewrite with frame;
    try done.
  - apply tool_round_settled in Hround as (_ & -> & _). done.
  - apply tool_round_rejected in Hround as (_ & _ & -> & _). done.
Qed.

(** Induction over the passes of the loop: [I] is kept by every pass that
    continues, [Q] holds however the loop is left. *)
Lemma agentic_loop_ind (I : RunState → Prop) (Q : option Thrown → RunState → Prop) :
  (∀ st, I st → cfg_maxSteps cfg ≤ iteration st → Q None st) →
  (∀ st o, I st → iteration st < cfg_maxSteps cfg → body_step env cfg st o →
     match o with
     | continue st' => I st'
     | break st' => Q None st'
     | throw e st' => Q (Some e) st'
     end) →
  ∀ fuel st, I st → cfg_maxSteps cfg ≤ fuel + iteration st →
    Q (fst (agentic_loop env cfg fuel st)) (snd (agentic_loop env cfg fuel st)).
Proof.
  intros Hexit Hstep. induction fuel as [|fuel IH]; intros st HI Hfuel; simpl.
  - destruct (Nat.ltb_spec (iteration st) (cfg_maxSteps cfg)); [lia|].
    by apply Hexit.
  - destruct (Nat.ltb_spec (iteration st) (cfg_maxSteps cfg)) as [Hlt|Hge];
      [|by apply Hexit].
    pose proof (loop_body_step st) as Hbody.
    pose proof (Hstep _ _ HI Hlt Hbody) as Hpost.
    pose proof (body_step_iteration _ _ Hbody) as Hit.
    destruct (loop_body env cfg st) as [st'|st'|e st']; simpl; try done.
    apply IH; [done|lia].
Qed.

(** More fuel than the iteration budget changes nothing. *)
Lemma agentic_loop_fuel fuel : ∀ fuel' st,
  cfg_maxSteps cfg ≤ fuel + iteration st →
  cfg_maxSteps cfg ≤ fuel' + iteration st →
  agentic_loop env cfg fuel st = agentic_loop env cfg fuel' st.
Proof.
  induction fuel as [|fuel IH]; intros fuel' st Hf Hf'.
  - destruct fuel'; simpl;
      destruct (Nat.ltb_spec (iteration st) (cfg_maxSteps cfg)); try done; lia.
  - destruct fuel' as [|fuel']; simpl;
      destruct (Nat.ltb_spec (iteration st) (cfg_maxSteps cfg)); try done; try lia.
    pose proof (body_step_iteration _ _ (loop_body_step st)) as Hit.
    destruct (loop_body env cfg st) as [st'|st'|e st']; try done.
    apply IH; lia.
Qed.

End Loop.

Section Run.

Variable env : Env.
Variable cfg : Config.

Lemma synthesize_frame st :
  messages (snd (synthesize env cfg st)) = messages st ∧
  searchSteps (snd (synthesize env cfg st)) = searchSteps st ∧
  allSources (snd (synthesize env cfg st)) = allSources st ∧
  iteration (snd (synthesize env cfg st)) = iteration st ∧
  totalSearchCount (snd (synthesize env cfg st)) = totalSearchCount st ∧
  tavily_calls (snd (synthesize env cfg st)) = tavily_calls st.
Proof.
  unfold synthesize, create.
  destruct (lastAssistantMessage st); simpl.
  - destruct (Nat.ltb 0 (totalSearchCount st)); autorewrite with frame; done.
  - destruct (groq_create _ _ _); simpl; autorewrite with frame; done.
Qed.

(** The final synthesis: skipped when an answer was captured, otherwise
    one more request, without tools, over the transcript. *)
Lemma synthesize_cases st :
  match lastAssistantMessage st with
  | Some m =>
      fst (synthesize env cfg st) = None ∧
      lastAssistantMessage (snd (synthesize env cfg st)) = Some m ∧
      requests (snd (synthesize env cfg st)) = requests st
  | None =>
      requests (snd (synthesize env cfg st)) =
        requests st ++ [synthesis_request 5 st] ∧
      match groq_create env (length (requests st)) (synthesis_request 5 st) with
      | inl m =>
          fst (synthesize env cfg st) = None ∧
          lastAssistantMessage (snd (synthesize env cfg st)) = Some m
      | inr e => fst (synthesize env cfg st) = Some (api_error e)
      end
  end.
Proof.
  unfold synthesize, create, synthesis_request.
  destruct (lastAssistantMessage st) eqn:Hlast; simpl.
  - destruct (Nat.ltb 0 (totalSearchCount st)); autorewrite with frame; done.
  - autorewrite with frame. destruct (groq_create _ _ _); simpl;
      autorewrite with frame; done.
Qed.

Lemma assemble_cases st :
  messages (snd (assemble cfg st)) = messages st ∧
  requests (snd (assemble cfg st)) = requests st ∧
  iteration (snd (assemble cfg st)) = iteration st ∧
  fst (assemble cfg st) =
    match lastAssistantMessage st with
    | Some m => inr (result_of m st)
    | None => inl type_error
    end.
Proof.
  unfold assemble, result_of. autorewrite with frame.
  destruct (lastAssistantMessage st); simpl; autorewrite with frame; done.
Qed.

Lemma fail_cases e st :
  fst (fail cfg e st) = chat_failed (handleError e) ∧
  messages (snd (fail cfg e st)) = messages st ∧
  requests (snd (fail cfg e st)) = requests st ∧
  iteration (snd (fail cfg e st)) = iteration st.
Proof. unfold fail. simpl. autorewrite with frame. done. Qed.

(** How a run that starts in [st] ends, from how its loop ends. *)
Lemma run_thrown st e st1 :
  agentic_loop env cfg (cfg_maxSteps cfg) st = (Some e, st1) →
  fst (run env cfg st) = chat_failed (handleError e) ∧
  messages (snd (run env cfg st)) = messages st1 ∧
  requests (snd (run env cfg st)) = requests st1 ∧
  iteration (snd (run env cfg st)) = iteration st1.
Proof. unfold run. intros ->. apply fail_cases. Qed.

Lemma run_answered st m st1 :
  agentic_loop env cfg (cfg_maxSteps cfg) st = (None, st1) →
  lastAssistantMessage st1 = Some m →
  fst (run env cfg st) = chat_ok (result_of m st1) ∧
  messages (snd (run env cfg st)) = messages st1 ∧
  requests (snd (run env cfg st)) = requests st1 ∧
  iteration (snd (run env cfg st)) = iteration st1.
Proof.
  unfold run. intros -> Hlast.
  pose proof (synthesize_cases st1) as Hs. rewrite Hlast in Hs.
  destruct Hs as (Ho & Hl & Hr).
  pose proof (synthesize_frame st1) as (Hm & Hst & Hsrc & Hit & Hn & _).
  destruct (synthesize env cfg st1) as [o st2]; simpl in *. subst o.
  pose proof (assemble_cases st2) as (Hm' & Hr' & Hit' & Ha).
  rewrite Hl in Ha.
  destruct (assemble cfg st2) as [[e|r] st3]; simpl in *; [done|].
  inversion Ha; subst r. unfold result_of.
  rewrite Hst, Hsrc, Hit, Hn. repeat split; congruence.
Qed.

Lemma run_exhausted st st1 :
  agentic_loop env cfg (cfg_maxSteps cfg) st = (None, st1) →
  lastAssistantMessage st1 = None →
  requests (snd (run env cfg st)) = requests st1 ++ [synthesis_request 5 st1] ∧
  messages (snd (run env cfg st)) = messages st1 ∧
  iteration (snd (run env cfg st)) = iteration st1 ∧
  match groq_create env (length (requests st1)) (synthesis_request 5 st1) with
  | inl m => fst (run env cfg st) = chat_ok (result_of m st1)
  | inr e => fst (run env cfg st) = chat_failed (handleError (api_error e))
  end.
Proof.
  unfold run. intros -> Hlast.
  pose proof (synthesize_cases st1) as Hs. rewrite Hlast in Hs.
  destruct Hs as (Hr & Hs).
  pose proof (synthesize_frame st1) as (Hm & Hst & Hsrc & Hit & Hn & _).
  destruct (synthesize env cfg st1) as [o st2]; simpl in *.
  destruct (groq_create _ _ _) as [m|e].
  - destruct Hs as [-> Hl].
    pose proof (assemble_cases st2) as (Hm' & Hr' & Hit' & Ha).
    rewrite Hl in Ha.
    destruct (assemble cfg st2) as [[e|r] st3]; simpl in *; [done|].
    inversion Ha; subst r. unfold result_of.
    rewrite Hst, Hsrc, Hit, Hn. repeat split; congruence.
  - subst o. destruct (fail_cases (api_error e) st2) as (? & ? & ? & ?).
    repeat split; congruence.
Qed.

End Run.

Section Passes.

Variable env : Env.
Variable cfg : Config.

Lemma agentic_loop_break st st' :
  iteration st < cfg_maxSteps cfg → loop_body env cfg st = break st' →
  agentic_loop env cfg (cfg_maxSteps cfg) st = (None, st').
Proof.
  intros Hlt Hbody. destruct (cfg_maxSteps cfg) as [|k] eqn:Hmax; [lia|].
  simpl. rewrite Hmax, Hbody.
  by destruct (Nat.ltb_spec (iteration st) (S k)); [|lia].
Qed.

Lemma agentic_loop_throw st e st' :
  iteration st < cfg_maxSteps cfg → loop_body env cfg st = throw e st' →
  agentic_loop env cfg (cfg_maxSteps cfg) st = (Some e, st').
Proof.
  intros Hlt Hbody. destruct (cfg_maxSteps cfg) as [|k] eqn:Hmax; [lia|].
  simpl. rewrite Hmax, Hbody.
  by destruct (Nat.ltb_spec (iteration st) (S k)); [|lia].
Qed.

Lemma agentic_loop_continue st st' :
  iteration st < cfg_maxSteps cfg → loop_body env cfg st = continue st' →
  agentic_loop env cfg (cfg_maxSteps cfg) st =
  agentic_loop env cfg (cfg_maxSteps cfg) st'.
Proof.
  intros Hlt Hbody.
  pose proof (body_step_iteration _ _ _ _ (loop_body_step env cfg st)) as Hit.
  rewrite Hbody in Hit.
  destruct (cfg_maxSteps cfg) as [|k] eqn:Hmax; [lia|].
  transitivity (agentic_loop env cfg k st').
  - simpl. rewrite Hmax, Hbody.
    by destruct (Nat.ltb_spec (iteration st) (S k)); [|lia].
  - apply agentic_loop_fuel; lia.
Qed.

(** A result comes from a loop that was left without an exception. *)
Lemma run_ok_inv st r :
  fst (run env cfg st) = chat_ok r →
  ∃ m, fst (agentic_loop env cfg (cfg_maxSteps cfg) st) = None ∧
       r = result_of m (snd (agentic_loop env cfg (cfg_maxSteps cfg) st)).
Proof.
  destruct (agentic_loop env cfg (cfg_maxSteps cfg) st) as [[e|] st1] eqn:Hloop.
  - destruct (run_thrown _ _ _ _ _ Hloop) as [-> _]. done.
  - simpl. destruct (lastAssistantMessage st1) as [m|] eqn:Hlast.
    + destruct (run_answered _ _ _ _ _ Hloop Hlast) as [-> _].
      intros [= <-]. by exists m.
    + destruct (run_exhausted _ _ _ _ Hloop Hlast) as (_ & _ & _ & Hr).
      destruct (groq_create _ _ _) as [m|e]; rewrite Hr; [|done].
      intros [= <-]. by exists m.
Qed.

(** The loop never gives back a smaller iteration count, never exceeds
    the maximum, and counts one more when it makes a pass. *)
Lemma agentic_loop_iteration st :
  iteration st ≤ cfg_maxSteps cfg →
  let st' := snd (agentic_loop env cfg (cfg_maxSteps cfg) st) in
  iteration st' ≤ cfg_maxSteps cfg ∧
  (iteration st < cfg_maxSteps cfg → S (iteration st) ≤ iteration st').
Proof.
  intros Hle. simpl.
  apply (agentic_loop_ind env cfg
           (λ s, iteration s ≤ cfg_maxSteps cfg ∧
                 (s = st ∨ S (iteration st) ≤ iteration s))
           (λ _ s, iteration s ≤ cfg_maxSteps cfg ∧
                   (iteration st < cfg_maxSteps cfg →
                    S (iteration st) ≤ iteration s))); [| |by auto|lia].
  - intros s [? [->|?]] ?; split; auto; lia.
  - intros s o [? Hs] Hlt Hstep.
    apply body_step_iteration in Hstep.
    assert (S (iteration st) ≤ S (iteration s)) by (destruct Hs as [->|?]; lia).
    destruct o as [s'|s'|e s']; rewrite Hstep; (split; [lia|]).
    + by right.
    + done.
    + done.
Qed.

End Passes.

(** ** The first pass of [chat] *)

Section FirstPass.

Variable env : Env.

Lemma initial_state_frame cfg message history :
  let st := initial_state env cfg message history in
  messages st = initial_messages env cfg message history ∧
  searchSteps st = [] ∧ allSources st = [] ∧ iteration st = 0 ∧
  lastAssistantMessage st = None ∧ totalSearchCount st = 0 ∧
  tavily_calls st = 0 ∧ requests st = [].
Proof.
  unfold initial_state. simpl.
  destruct (String.eqb (cfg_context cfg) ""); autorewrite with frame; done.
Qed.

Lemma start_state_frame message history arg sink :
  let st := start_state env message history arg sink in
  messages st = initial_messages env (run_config arg sink) message history ∧
  searchSteps st = [] ∧ allSources st = [] ∧ iteration st = 0 ∧
  lastAssistantMessage st = None ∧ totalSearchCount st = 0 ∧
  tavily_calls st = 0 ∧ requests st = [].
Proof. apply initial_state_frame. Qed.

Lemma start_state_log message history arg sink :
  searches (start_state env message history arg sink) = [] ∧
  in_flight (start_state env message history arg sink) = [].
Proof.
  unfold start_state, initial_state.
  destruct (String.eqb (cfg_context (run_config arg sink)) "");
    by autorewrite with frame.
Qed.

Lemma chat_run_unfold message history arg sink :
  chat_run env message history arg sink =
  run env (run_config arg sink) (start_state env message history arg sink).
Proof. reflexivity. Qed.

Lemma first_reply_next message history arg sink :
  next_reply env (run_config arg sink) (start_state env message history arg sink)
  = first_reply env message history arg sink.
Proof.
  unfold next_reply, first_reply, first_request.
  by destruct (start_state_frame message history arg sink)
    as (_ & _ & _ & _ & _ & _ & _ & ->).
Qed.

Lemma maxSteps_config arg sink :
  cfg_maxSteps (run_config arg sink) =
  if cfg_isDeepResearch (run_config arg sink) then 10 else 6.
Proof. reflexivity. Qed.

End FirstPass.

(** C7. When the model's first response carries no tool calls and deep
    research is off (so nothing forces a continuation), the run returns a
    result with [totalSteps] 1, no step recorded, [searchPerformed] false
    and [totalSearches] 0. *)
Theorem tool_free_first_reply_single_pass
    (env : Env) (message : string) (history : list Message)
    (arg : option OptionsArg) (sink : option ProgressSink) (m : AssistantMessage) :
  cfg_isDeepResearch (run_config arg sink) = false →
  first_reply env message history arg sink = inl m →
  tool_free m = true →
  chat env message history arg sink =
  chat_ok {| response := am_content m; searchPerformed := false; sources := [];
             res_searchSteps := []; totalSteps := 1; totalSearches := 0 |}.
Proof.
  intros Hdeep Hreply Hfree. unfold chat. rewrite chat_run_unfold.
  set (cfg := run_config arg sink) in *.
  destruct (start_state_frame env message history arg sink)
    as (_ & Hsteps & Hsrc & Hit & _ & Hn & _).
  set (st := start_state env message history arg sink) in *.
  destruct (requested_frame env cfg st) as (_ & Hsteps' & Hsrc' & Hit' & _ & Hn' & _).
  assert (Hbody : loop_body env cfg st
                  = break (set_lastAssistantMessage m (requested env cfg st))).
  { rewrite (loop_body_tool_free env cfg st m);
      [|by unfold st, cfg; rewrite first_reply_next|done].
    unfold must_continue. by rewrite Hdeep. }
  assert (Hlt : iteration st < cfg_maxSteps cfg).
  { rewrite Hit. unfold cfg. rewrite maxSteps_config. fold cfg.
    rewrite Hdeep. lia. }
  destruct (run_answered env cfg st m _ (agentic_loop_break env cfg _ _ Hlt Hbody) eq_refl)
    as [-> _].
  unfold result_of. cbn.
  by rewrite Hn', Hn, Hsrc', Hsrc, Hsteps', Hsteps, Hit', Hit.
Qed.

(** C6. When the provider answers the first request with status 429, the
    run returns the structured failure with code [RATE_LIMIT] and its
    message, and the failed request is the only completion request made: no
    synthesis is attempted. *)
Theorem rate_limit_on_first_request
    (env : Env) (message : string) (history : list Message)
    (arg : option OptionsArg) (sink : option ProgressSink) (e : ApiError) :
  first_reply env message history arg sink = inr e →
  api_status e = Some 429%Z →
  chat env message history arg sink =
    chat_failed {| success := false; error := "Rate limit exceeded.";
                   code := "RATE_LIMIT" |} ∧
  requests (snd (chat_run env message history arg sink)) =
    [first_request env message history arg sink].
Proof.
  intros Hreply Hstatus. unfold chat. rewrite chat_run_unfold.
  set (cfg := run_config arg sink) in *.
  destruct (start_state_frame env message history arg sink)
    as (_ & _ & _ & Hit & _ & Hn & _ & Hreq).
  set (st := start_state env message history arg sink) in *.
  destruct (requested_frame env cfg st) as (_ & _ & _ & _ & _ & Hn' & _ & Hreq').
  assert (Hsalvage : salvaged env e = None).
  { unfold salvaged, tool_use_failed. by rewrite Hstatus. }
  assert (Hbody : loop_body env cfg st = throw (api_error e) (requested env cfg st)).
  { rewrite (loop_body_failed env cfg st e)
      by (by unfold st, cfg; rewrite first_reply_next).
    rewrite recover_cases, Hsalvage, Hn', Hn. done. }
  assert (Hlt : iteration st < cfg_maxSteps cfg).
  { rewrite Hit. unfold cfg. rewrite maxSteps_config.
    destruct (cfg_isDeepResearch _); lia. }
  destruct (run_thrown env cfg st _ _ (agentic_loop_throw env cfg _ _ _ Hlt Hbody))
    as (-> & _ & -> & _).
  split.
  - unfold handleError. simpl. by rewrite Hstatus.
  - by rewrite Hreq', Hreq.
Qed.

(** C10. Calling [chat] with a boolean [b] as third argument is the same as
    calling it with the options object whose only field is
    [forceSearch: b]: the boolean is turned into that object before anything
    else happens, so the two runs are equal, final state included. *)
Theorem legacy_boolean_is_forceSearch_option
    (env : Env) (message : string) (history : list Message)
    (onProgress : option ProgressSink) (b : bool) :
  normalize (Some (legacy_forceSearch b)) =
    {| forceSearch := Some b; context := None; isDeepResearch := None |} ∧
  chat_run env message history (Some (legacy_forceSearch b)) onProgress =
  chat_run env message history
    (Some (options_object
             {| forceSearch := Some b; context := None; isDeepResearch := None |}))
    onProgress ∧
  chat env message history (Some (legacy_forceSearch b)) onProgress =
  chat env message history
    (Some (options_object
             {| forceSearch := Some b; context := None; isDeepResearch := None |}))
    onProgress.
Proof. repeat split. Qed.

Section Requests.

Variable env : Env.
Variable cfg : Config.

(** Every pass sends at least one completion request. *)
Lemma body_step_requests st o :
  body_step env cfg st o →
  match o with
  | continue st' | break st' | throw _ st' =>
      S (length (requests st)) ≤ length (requests st')
  end.
Proof.
  destruct (requested_frame env cfg st) as (_ & _ & _ & _ & _ & _ & _ & Hreq).
  assert (Hlen : length (requests (requested env cfg st)) = S (length (requests st)))
    by (rewrite Hreq, length_app; simpl; lia).
  destruct 1 as [| | | | | |m tc calls st' _ _ Hround|m tc calls e st' _ _ Hround];
    unfold recovering, force_continuation; cbn; autorewrite with frame;
    rewrite ?length_app; try lia.
  - apply tool_round_settled in Hround as (_ & _ & _ & -> & _). cbn. lia.
  - apply tool_round_rejected in Hround as (_ & _ & _ & _ & ->). cbn. lia.
Qed.

Lemma agentic_loop_requests st :
  iteration st < cfg_maxSteps cfg →
  S (length (requests st))
  ≤ length (requests (snd (agentic_loop env cfg (cfg_maxSteps cfg) st))).
Proof.
  intros Hlt.
  apply (agentic_loop_ind env cfg
           (λ s, s = st ∨ S (length (requests st)) ≤ length (requests s))
           (λ _ s, S (length (requests st)) ≤ length (requests s)));
    [| |by auto|lia].
  - intros s [->|?] ?; [lia|done].
  - intros s o Hs _ Hstep. apply body_step_requests in Hstep.
    assert (length (requests st) ≤ length (requests s))
      by (destruct Hs as [->|?]; lia).
    destruct o as [s'|s'|e s']; [right| |]; lia.
Qed.

Lemma run_requests st :
  length (requests (snd (agentic_loop env cfg (cfg_maxSteps cfg) st)))
  ≤ length (requests (snd (run env cfg st))).
Proof.
  destruct (agentic_loop env cfg (cfg_maxSteps cfg) st) as [[e|] st1] eqn:Hloop.
  - destruct (run_thrown _ _ _ _ _ Hloop) as (_ & _ & -> & _). done.
  - simpl. destruct (lastAssistantMessage st1) as [m|] eqn:Hlast.
    + destruct (run_answered _ _ _ _ _ Hloop Hlast) as (_ & _ & -> & _). done.
    + destruct (run_exhausted _ _ _ _ Hloop Hlast) as (-> & _).
      rewrite length_app. lia.
Qed.

End Requests.

(** C1. In deep-research mode, when the model answers without tool calls
    while fewer than 4 searches have been counted and the pass is not the
    last one allowed, the loop is not left: the reply and then the synthetic
    user instruction are appended to the transcript, no final answer is
    captured, and the loop goes on from that state with its condition still
    true, so that a further request, carrying the extended transcript, is
    sent. A result returned by the run then counts at least two passes more
    than had been made before; when this happens on the first pass,
    [totalSteps] is at least 2. *)
Theorem forced_continuation_reenters_reasoning
    (env : Env) (cfg : Config) (st : RunState) (m : AssistantMessage) :
  cfg_isDeepResearch cfg = true →
  next_reply env cfg st = inl m →
  tool_free m = true →
  totalSearchCount st < 4 →
  S (iteration st) < cfg_maxSteps cfg →
  ∃ st',
    loop_body env cfg st = continue st' ∧
    messages st' =
      messages st ++ [as_message m; text_message user FORCED_CONTINUATION] ∧
    lastAssistantMessage st' = lastAssistantMessage st ∧
    iteration st' = S (iteration st) ∧
    agentic_loop env cfg (cfg_maxSteps cfg) st =
      agentic_loop env cfg (cfg_maxSteps cfg) st' ∧
    req_messages (next_request cfg st') = messages st' ∧
    S (S (length (requests st))) ≤ length (requests (snd (run env cfg st))) ∧
    ∀ r, fst (run env cfg st) = chat_ok r → S (S (iteration st)) ≤ totalSteps r.
Proof.
  intros Hdeep Hreply Hfree Hcount Hbudget.
  exists (force_continuation cfg m (requested env cfg st)).
  destruct (requested_frame env cfg st)
    as (Hmsg & _ & _ & Hit & Hlast & _ & _ & Hreq).
  destruct (force_continuation_frame cfg m (requested env cfg st))
    as (Hmsg' & _ & _ & Hit' & Hlast' & _ & _ & Hreq').
  assert (Hbody : loop_body env cfg st
                  = continue (force_continuation cfg m (requested env cfg st))).
  { rewrite (loop_body_tool_free env cfg st m) by done.
    by rewrite (proj2 (must_continue_requested env cfg st)). }
  assert (Hlt : iteration st < cfg_maxSteps cfg) by lia.
  assert (Hloop := agentic_loop_continue env cfg _ _ Hlt Hbody).
  set (st' := force_continuation cfg m (requested env cfg st)) in *.
  assert (Hst' : iteration st' = S (iteration st)) by congruence.
  repeat split; try congruence.
  - pose proof (run_requests env cfg st) as Hrun. rewrite Hloop in Hrun.
    pose proof (agentic_loop_requests env cfg st' ltac:(lia)) as Hmore.
    assert (length (requests st') = S (length (requests st)))
      by (rewrite Hreq', Hreq, length_app; simpl; lia).
    lia.
  - intros r (m' & _ & ->)%run_ok_inv. rewrite Hloop. cbn.
    pose proof (agentic_loop_iteration env cfg st' ltac:(lia)) as [_ Hmore].
    specialize (Hmore ltac:(lia)). lia.
Qed.

(** C5 (as the code has it). When the provider fails during a pass, three
    cases arise. A malformed tool call whose payload carries a long enough
    generation is salvaged: that text is the answer and no further request
    is made. Otherwise, if at least one web_search call has been started in
    the run (whether or not it succeeded), exactly one more request is made,
    over the same transcript, without tools and at temperature 0.7; its
    reply is the final answer, and if it fails too the original failure is
    surfaced. Otherwise the failure is surfaced at once and no further
    request is made. *)
Theorem provider_failure_recovery
    (env : Env) (cfg : Config) (st : RunState) (e : ApiError) :
  iteration st < cfg_maxSteps cfg →
  next_reply env cfg st = inr e →
  match salvaged env e with
  | Some text =>
      requests (snd (run env cfg st)) = requests st ++ [next_request cfg st] ∧
      ∃ r, fst (run env cfg st) = chat_ok r ∧ response r = Some text
  | None =>
      if Nat.ltb 0 (totalSearchCount st) then
        requests (snd (run env cfg st)) =
          requests st ++ [next_request cfg st; recovery_request st] ∧
        match groq_create env (S (length (requests st))) (recovery_request st) with
        | inl m => ∃ r, fst (run env cfg st) = chat_ok r ∧ response r = am_content m
        | inr _ => fst (run env cfg st) = chat_failed (handleError (api_error e))
        end
      else
        requests (snd (run env cfg st)) = requests st ++ [next_request cfg st] ∧
        fst (run env cfg st) = chat_failed (handleError (api_error e))
  end.
Proof.
  intros Hlt Hreply. set (retry := recovery_request st).
  destruct (requested_frame env cfg st)
    as (Hmsg & _ & _ & _ & _ & Hn & _ & Hreq).
  assert (Hretry : synthesis_request 7 (requested env cfg st) = retry)
    by (unfold synthesis_request, retry, recovery_request; by rewrite Hmsg).
  assert (Hlen : length (requests (requested env cfg st)) = S (length (requests st)))
    by (rewrite Hreq, length_app; simpl; lia).
  pose proof (loop_body_failed env cfg st e Hreply) as Hbody.
  rewrite recover_cases, Hn, Hlen, Hretry in Hbody.
  destruct (salvaged env e) as [text|].
  - apply (agentic_loop_break env cfg _ _ Hlt) in Hbody.
    destruct (run_answered env cfg _ _ _ Hbody eq_refl) as (-> & _ & -> & _).
    split; [done|]. by eexists.
  - destruct (Nat.ltb 0 (totalSearchCount st)).
    + cbn zeta in Hbody. destruct (groq_create env _ retry) as [m|e'].
      * apply (agentic_loop_break env cfg _ _ Hlt) in Hbody.
        destruct (run_answered env cfg _ _ _ Hbody eq_refl) as (-> & _ & -> & _).
        cbn. autorewrite with frame. rewrite Hreq, <- app_assoc.
        split; [done|]. by eexists.
      * apply (agentic_loop_throw env cfg _ _ _ Hlt) in Hbody.
        destruct (run_thrown env cfg _ _ _ Hbody) as (-> & _ & -> & _).
        cbn. autorewrite with frame. by rewrite Hreq, <- app_assoc.
    + apply (agentic_loop_throw env cfg _ _ _ Hlt) in Hbody.
      by destruct (run_thrown env cfg _ _ _ Hbody) as (-> & _ & -> & _).
Qed.

(** ** What the transcript records *)

Section Transcript.

Variable env : Env.
Variable cfg : Config.

Lemma forced_directives_app ms ms' :
  forced_directives (ms ++ ms') = forced_directives ms + forced_directives ms'.
Proof. unfold forced_directives. by rewrite filter_app, length_app. Qed.

Lemma tool_free_replies_app ms ms' :
  tool_free_replies (ms ++ ms') = tool_free_replies ms + tool_free_replies ms'.
Proof. unfold tool_free_replies. by rewrite filter_app, length_app. Qed.

Lemma web_searches_app ms ms' :
  web_searches env (ms ++ ms') = web_searches env ms + web_searches env ms'.
Proof.
  unfold web_searches, requested_calls.
  by rewrite fmap_app, concat_app, filter_app, length_app.
Qed.

Lemma answers_transcript calls msgs :
  Forall2 (answers env) calls msgs →
  forced_directives msgs = 0 ∧ tool_free_replies msgs = 0 ∧ web_searches env msgs = 0.
Proof.
  induction 1 as [|tc m calls msgs (text & -> & _) _ IH]; [done|].
  destruct IH as (Hd & Hf & Hw).
  change (tool_message tc text :: msgs) with ([tool_message tc text] ++ msgs).
  rewrite forced_directives_app, tool_free_replies_app, web_searches_app.
  rewrite Hd, Hf, Hw. split; [|done].
  unfold forced_directives. rewrite filter_cons_False; [done|].
  unfold directive, text_message, tool_message. congruence.
Qed.

Lemma assistant_transcript m :
  forced_directives [as_message m] = 0 ∧
  tool_free_replies [as_message m] = (if tool_free m then 1 else 0) ∧
  web_searches env [as_message m] =
    length (filter (λ tc, parsed_web_search env tc = true)
              (default [] (am_tool_calls m))).
Proof.
  split; [|split].
  - unfold forced_directives. rewrite filter_cons_False; [done|].
    unfold directive, text_message, as_message. congruence.
  - unfold tool_free_replies, tool_free, tool_free_reply.
    destruct (am_tool_calls m) as [[|tc calls]|] eqn:Hc.
    + rewrite filter_cons_True; [done|]. simpl. by rewrite Hc.
    + rewrite filter_cons_False; [done|]. simpl. by rewrite Hc.
    + rewrite filter_cons_True; [done|]. simpl. by rewrite Hc.
  - unfold web_searches, requested_calls. simpl. by rewrite app_nil_r.
Qed.

Lemma directive_transcript :
  forced_directives [directive] = 1 ∧ tool_free_replies [directive] = 0 ∧
  web_searches env [directive] = 0.
Proof.
  split; [|done]. unfold forced_directives. by rewrite filter_cons_True.
Qed.

Lemma body_step_recorded init st o :
  recorded env init true st → body_step env cfg st o →
  match o with
  | continue st' | break st' => recorded env init true st'
  | throw _ st' => recorded env init false st'
  end.
Proof.
  intros (appended & Hmsg & Hdir & Hle & Hcomplete) Hstep.
  destruct (Hcomplete eq_refl) as [Hn Hsrc].
  destruct (requested_frame env cfg st)
    as (Hmsg' & _ & Hsrc' & Hit' & _ & Hn' & _).
  destruct Hstep as [e text _ _|e m _ _ _ _|e e' _ _ _ _|e _ _ _
                    |m _ Hfree _ _ _|m _ _ _
                    |m tc calls st' _ Hcalls Hround
                    |m tc calls e st' _ Hcalls Hround].
  1-4,6: exists appended; unfold recovering; cbn; autorewrite with frame;
    rewrite Hmsg', Hit', ?Hn', ?Hsrc'; (split_and!; [done..|lia|]); done.
  - (* forced continuation *)
    exists (appended ++ [as_message m] ++ [directive]).
    destruct (force_continuation_frame cfg m (requested env cfg st))
      as (-> & _ & -> & -> & _ & -> & _).
    destruct (assistant_transcript m) as (Hd & Hf & Hw).
    destruct directive_transcript as (Hd' & Hf' & Hw').
    rewrite Hfree in Hf.
    assert (Hnone : default [] (am_tool_calls m) = [])
      by (unfold tool_free in Hfree; by destruct (am_tool_calls m) as [[]|]).
    rewrite Hnone, filter_nil in Hw. simpl in Hw.
    rewrite !forced_directives_app, !tool_free_replies_app, !web_searches_app.
    rewrite Hmsg', Hit', Hn', Hsrc', Hmsg, Hd, Hf, Hw, Hd', Hf', Hw'.
    rewrite <- app_assoc.
    split_and!; [done|lia|lia|]. intros _. split; [lia|done].
  - (* a settled tool round *)
    apply tool_round_settled in Hround
      as ((msgs & Hmsgs & Hans) & Hit & _ & _ & Hcount & Hsources).
    cbn [set_messages messages iteration totalSearchCount allSources]
      in Hmsgs, Hit, Hcount, Hsources.
    exists (appended ++ [as_message m] ++ msgs).
    destruct (assistant_transcript m) as (Hd & Hf & Hw).
    destruct (answers_transcript _ _ Hans) as (Hd' & Hf' & Hw').
    assert (Hfree : tool_free m = false) by (unfold tool_free; by rewrite Hcalls).
    rewrite Hfree in Hf. rewrite Hcalls in Hw. simpl in Hw.
    rewrite !forced_directives_app, !tool_free_replies_app, !web_searches_app.
    rewrite Hmsgs, Hit, Hcount, Hmsg', Hit', Hn', Hmsg, Hd, Hf, Hw, Hd', Hf', Hw'.
    rewrite <- !app_assoc. split_and!; [done|lia|lia|]. intros _.
    split; [simpl; lia|].
    intros s [Hs|Hs]%Hsources; [|done]. rewrite Hsrc' in Hs. auto.
  - (* a rejected tool round *)
    apply tool_round_rejected in Hround as (_ & Hmsgs & Hit & _).
    cbn in Hmsgs, Hit.
    exists (appended ++ [as_message m]).
    destruct (assistant_transcript m) as (Hd & Hf & _).
    assert (Hfree : tool_free m = false) by (unfold tool_free; by rewrite Hcalls).
    rewrite Hfree in Hf.
    rewrite !forced_directives_app, !tool_free_replies_app.
    rewrite Hmsgs, Hit, Hmsg', Hit', Hmsg, Hd, Hf.
    rewrite <- !app_assoc. split_and!; [done|lia|lia|done].
Qed.

Lemma recorded_weaken init complete st :
  recorded env init true st → recorded env init complete st.
Proof.
  intros (appended & ? & ? & ? & Hc). exists appended.
  split_and!; try done. intros _. by apply Hc.
Qed.

Lemma agentic_loop_recorded init st :
  recorded env init true st →
  let out := agentic_loop env cfg (cfg_maxSteps cfg) st in
  recorded env init (if fst out is None then true else false) (snd out).
Proof.
  intros Hst.
  apply (agentic_loop_ind env cfg (recorded env init true)
           (λ o s, recorded env init (if o is None then true else false) s));
    [done| |done|lia].
  intros s o Hs _ Hstep. pose proof (body_step_recorded _ _ _ Hs Hstep).
  by destruct o.
Qed.

End Transcript.

Section Final.

Variable env : Env.
Variable cfg : Config.

(** The state in which a run ends, against the state in which its loop
    ends: at most one request more, everything else as it was. *)
Lemma run_final st :
  let out := snd (agentic_loop env cfg (cfg_maxSteps cfg) st) in
  let fin := snd (run env cfg st) in
  messages fin = messages out ∧ iteration fin = iteration out ∧
  searchSteps fin = searchSteps out ∧ tavily_calls fin = tavily_calls out ∧
  totalSearchCount fin = totalSearchCount out ∧
  (requests fin = requests out
   ∨ requests fin = requests out ++ [synthesis_request 5 out]).
Proof.
  unfold run.
  destruct (agentic_loop env cfg (cfg_maxSteps cfg) st) as [[e|] st1]; simpl.
  { unfold fail; simpl. autorewrite with frame. auto 10. }
  pose proof (synthesize_frame env cfg st1) as (Hm & Hst & _ & Hit & Hn & Ht).
  pose proof (synthesize_cases env cfg st1) as Hs.
  assert (Hreq : requests (snd (synthesize env cfg st1)) = requests st1
                 ∨ requests (snd (synthesize env cfg st1))
                   = requests st1 ++ [synthesis_request 5 st1]).
  { destruct (lastAssistantMessage st1); [left|right]; apply Hs. }
  clear Hs. destruct (synthesize env cfg st1) as [[e|] st2]; simpl in *.
  { unfold fail; simpl. autorewrite with frame.
    rewrite Hm, Hst, Hit, Hn, Ht. auto 10. }
  unfold assemble. autorewrite with frame.
  destruct (lastAssistantMessage st2); simpl; unfold fail; simpl;
    autorewrite with frame; rewrite Hm, Hst, Hit, Hn, Ht; auto 10.
Qed.

End Final.

(** C2. The iteration count of a run never exceeds the maximum, which is 6
    in normal mode and 10 in deep-research mode, and a returned result
    reports exactly that count. Forced continuations are counted in it: the
    transcript holds one synthetic instruction for each tool-free reply that
    was appended, and no more instructions than passes made. The synthesis
    request after the loop leaves the iteration count as it is, also when
    it sends one more request to the provider. *)
Theorem iterations_within_budget
    (env : Env) (message : string) (history : list Message)
    (arg : option OptionsArg) (sink : option ProgressSink) :
  cfg_maxSteps (run_config arg sink) =
    (if cfg_isDeepResearch (run_config arg sink) then 10 else 6) ∧
  iteration (final_state env message history arg sink)
    ≤ cfg_maxSteps (run_config arg sink) ∧
  (∀ r, chat env message history arg sink = chat_ok r →
        totalSteps r = iteration (final_state env message history arg sink) ∧
        totalSteps r ≤ (if cfg_isDeepResearch (run_config arg sink) then 10 else 6)) ∧
  (∃ appended,
      messages (final_state env message history arg sink) =
        first_messages env message history arg sink ++ appended ∧
      forced_directives appended = tool_free_replies appended ∧
      forced_directives appended ≤ iteration (final_state env message history arg sink)) ∧
  (∀ st, iteration (snd (synthesize env (run_config arg sink) st)) = iteration st ∧
         (lastAssistantMessage st = None →
          requests (snd (synthesize env (run_config arg sink) st))
          = requests st ++ [synthesis_request 5 st])).
Proof.
  unfold final_state, first_messages, chat. rewrite chat_run_unfold.
  set (cfg := run_config arg sink).
  destruct (start_state_frame env message history arg sink)
    as (Hmsg & _ & Hsrc & Hit & _ & Hn & _).
  set (st := start_state env message history arg sink) in *.
  destruct (run_final env cfg st) as (Hfm & Hfi & _).
  pose proof (agentic_loop_iteration env cfg st ltac:(lia)) as [Hle _].
  split_and!.
  - apply maxSteps_config.
  - by rewrite Hfi.
  - intros r (m & _ & ->)%run_ok_inv. unfold result_of. cbn [totalSteps].
    rewrite Hfi. split; [done|].
    pose proof (maxSteps_config arg sink) as Hmax. fold cfg in Hmax.
    by rewrite <- Hmax.
  - assert (Hrec : recorded env (initial_messages env cfg message history) true st).
    { exists []. rewrite app_nil_r. split_and!; [done|done|cbn; lia|].
      intros _. rewrite Hn, Hsrc. split; [done|]. by intros s ?%elem_of_nil. }
    apply (agentic_loop_recorded env cfg) in Hrec
      as (appended & Ha & Hd & Hi & _).
    exists appended. by rewrite Hfm, Hfi.
  - intros st'. split; [apply synthesize_frame|].
    intros Hlast. pose proof (synthesize_cases env cfg st') as Hs.
    rewrite Hlast in Hs. apply Hs.
Qed.

(** ** The searches made and the sources collected *)

Section Searches.

Variable env : Env.
Variable cfg : Config.

Lemma start_tool_call_logged tc st p st' :
  start_tool_call env cfg tc st = (p, st') →
  first_rejection [p] = None →
  allSources st' = allSources st ∧
  ∃ new, searches st' = searches st ++ new ∧
         s_options <$> new = option_list (search_of env cfg tc) ∧
         concat (found <$> new) = new_sources p ∧
         Forall (answered env) new.
Proof.
  intros H Hp.
  split; [by apply start_tool_call_frame in H as (_ & ? & _)|].
  revert H. unfold start_tool_call, search_of.
  destruct (JSON_parse env (tc_arguments tc)) as [args|].
  2:{ intros [= <- <-]. exists []. by rewrite app_nil_r. }
  destruct (String.eqb (tc_name tc) "web_search").
  { unfold start_web_search, now. intros H.
    destruct args; cbv beta iota zeta in H;
      try destruct (text_throws _ || to_string_throws _);
      inversion H; subst; try done;
      (eexists [_]; cbn; autorewrite with frame; cbn;
       split_and!; [done|done|by rewrite app_nil_r|];
       apply Forall_cons_2; [done|apply Forall_nil_2]). }
  destruct (String.eqb (tc_name tc) "browser_extract").
  2:{ intros [= <- <-]. exists []. by rewrite app_nil_r. }
  unfold start_browser_extract, now. intros H.
  destruct args as [| | | | |props]; simpl in H; branches H;
    inversion H; subst; try done;
    (exists []; cbn; autorewrite with frame; cbn; by rewrite app_nil_r).
Qed.

Lemma start_tool_calls_logged calls : ∀ st ps st',
  start_tool_calls env cfg calls st = (ps, st') →
  first_rejection ps = None →
  allSources st' = allSources st ∧
  ∃ new, searches st' = searches st ++ new ∧
         s_options <$> new = omap (search_of env cfg) calls ∧
         concat (found <$> new) = concat (new_sources <$> ps) ∧
         Forall (answered env) new.
Proof.
  induction calls as [|tc calls IH]; simpl; intros st ps st' H Hps.
  - inversion H; subst. split; [done|]. exists []. by rewrite app_nil_r.
  - destruct (start_tool_call env cfg tc st) as [p st1] eqn:H1.
    destruct (start_tool_calls env cfg calls st1) as [ps' st2] eqn:H2.
    inversion H; subst.
    apply first_rejection_cons in Hps as [Hp Hps].
    destruct (start_tool_call_logged _ _ _ _ H1 Hp)
      as (Ha1 & new1 & Hs1 & Ho1 & Hf1 & Hq1).
    destruct (IH _ _ _ H2 Hps) as (Ha2 & new2 & Hs2 & Ho2 & Hf2 & Hq2).
    split; [congruence|]. exists (new1 ++ new2).
    rewrite Hs2, Hs1, <- app_assoc, !fmap_app, !concat_app, Ho1, Ho2, Hf1, Hf2.
    split_and!; [done| |done|by apply Forall_app].
    by destruct (search_of env cfg tc).
Qed.

Lemma resume_searches p st : searches (resume cfg p st) = searches st.
Proof.
  destruct p as [| | ? ? ? []| ? ? ? []]; cbn; by autorewrite with frame.
Qed.

Lemma resume_all_searches ps : ∀ st,
  searches (foldl (λ st p, resume cfg p st) st ps) = searches st.
Proof.
  induction ps as [|p ps IH]; intros st; simpl; [done|].
  by rewrite IH, resume_searches.
Qed.

(** What a settled round adds to the searches and to the sources. *)
Lemma tool_round_logged calls st st' :
  tool_round env cfg calls st = (None, st') →
  ∃ new, searches st' = searches st ++ new ∧
         s_options <$> new = omap (search_of env cfg) calls ∧
         Forall (answered env) new ∧
         allSources st' ≡ₚ allSources st ++ concat (found <$> new).
Proof.
  unfold tool_round.
  destruct (start_tool_calls env cfg calls st) as [ps st1] eqn:Hstart.
  destruct (first_rejection ps) eqn:Hrej; [done|].
  intros H; inversion H; subst; clear H.
  destruct (start_tool_calls_logged _ _ _ _ Hstart Hrej)
    as (Hall & new & Hs & Ho & Hf & Hq).
  exists new. cbn [searches allSources set_messages].
  rewrite resume_all_searches.
  pose proof (resume_all_frame cfg (completion_order env ps) st1)
    as (_ & _ & _ & _ & _ & _ & Hsrc). cbn zeta in Hsrc.
  split_and!; [done..|].
  rewrite Hsrc, Hall, Hf. f_equiv. apply concat_fmap_perm.
  apply completion_order_perm.
Qed.

Lemma requested_searches st : searches (requested env cfg st) = searches st.
Proof.
  unfold requested, create. cbn.
  destruct (iteration st); cbn; by autorewrite with frame.
Qed.

Lemma requested_calls_app ms ms' :
  requested_calls (ms ++ ms') = requested_calls ms ++ requested_calls ms'.
Proof. unfold requested_calls. by rewrite fmap_app, concat_app. Qed.

Lemma body_step_logged init st o :
  logged env cfg init st → body_step env cfg st o →
  match o with
  | continue st' | break st' => logged env cfg init st'
  | throw _ _ => True
  end.
Proof.
  intros (appended & Hm & Ho & Hq & Hsrc) Hstep.
  destruct (requested_frame env cfg st) as (Hm' & _ & Ha' & _).
  pose proof (requested_searches st) as Hs'.
  assert (Hsame : ∀ s', messages s' = messages (requested env cfg st) →
            searches s' = searches (requested env cfg st) →
            allSources s' = allSources (requested env cfg st) →
            logged env cfg init s').
  { intros s' H1 H2 H3. exists appended. by rewrite H1, H2, H3, Hm', Hs', Ha'. }
  destruct Hstep as [| | | |m Hreply Hfree| |m tc calls st' Hreply Hcalls Hround|];
    try done.
  1,2,4: apply Hsame; unfold recovering; cbn; by autorewrite with frame.
  - exists (appended ++ [as_message m; text_message user FORCED_CONTINUATION]).
    unfold force_continuation. cbn. autorewrite with frame.
    rewrite Hm', Hs', Ha', Hm, <- app_assoc.
    split_and!; [done| |done|done].
    rewrite requested_calls_app, omap_app, Ho.
    unfold tool_free in Hfree. unfold requested_calls. cbn.
    destruct (am_tool_calls m) as [[|]|]; try done; by rewrite app_nil_r.
  - apply tool_round_settled in Hround as Hsettled.
    destruct Hsettled as ((msgs & Hmsgs & Hans) & _).
    apply tool_round_logged in Hround as (new & Hnew & Hopts & Hqs & Hall).
    cbn [messages searches allSources set_messages] in *.
    exists (appended ++ as_message m :: msgs).
    rewrite Hmsgs, Hnew, Hs', Hm', Hm, <- !app_assoc.
    split_and!; [done| | |].
    + rewrite fmap_app, Ho, Hopts.
      change (as_message m :: msgs) with ([as_message m] ++ msgs).
      rewrite !requested_calls_app, !omap_app. f_equal.
      assert (Hnone : requested_calls msgs = []).
      { unfold requested_calls. clear -Hans.
        induction Hans as [|c a cs ms (text & -> & _) _ IH]; [done|].
        by rewrite fmap_cons. }
      rewrite Hnone, app_nil_r. unfold requested_calls. cbn.
      by rewrite Hcalls, app_nil_r.
    + by apply Forall_app.
    + rewrite Hall, Ha', Hsrc, fmap_app, concat_app. done.
Qed.

Lemma agentic_loop_logged init st :
  logged env cfg init st →
  fst (agentic_loop env cfg (cfg_maxSteps cfg) st) = None →
  logged env cfg init (snd (agentic_loop env cfg (cfg_maxSteps cfg) st)).
Proof.
  intros Hst.
  apply (agentic_loop_ind env cfg (logged env cfg init)
           (λ o s, o = None → logged env cfg init s)); [done| |done|lia].
  intros s o Hs _ Hstep. pose proof (body_step_logged _ _ _ Hs Hstep).
  by destruct o.
Qed.

(** What comes after the loop leaves the searches and the sources as they
    are. *)
Lemma run_final_log st :
  searches (snd (run env cfg st))
    = searches (snd (agentic_loop env cfg (cfg_maxSteps cfg) st)) ∧
  allSources (snd (run env cfg st))
    = allSources (snd (agentic_loop env cfg (cfg_maxSteps cfg) st)).
Proof.
  unfold run.
  destruct (agentic_loop env cfg (cfg_maxSteps cfg) st) as [[e|] st1]; simpl.
  { unfold fail; simpl. by autorewrite with frame. }
  assert (Hsyn : searches (snd (synthesize env cfg st1)) = searches st1 ∧
                 allSources (snd (synthesize env cfg st1)) = allSources st1).
  { unfold synthesize, create. destruct (lastAssistantMessage st1); simpl.
    - destruct (Nat.ltb 0 (totalSearchCount st1)); by autorewrite with frame.
    - destruct (groq_create _ _ _); simpl; by autorewrite with frame. }
  destruct Hsyn as [Hs Ha].
  destruct (synthesize env cfg st1) as [[e|] st2]; simpl in *.
  { unfold fail; simpl. by autorewrite with frame. }
  unfold assemble. autorewrite with frame.
  destruct (lastAssistantMessage st2); simpl; unfold fail; simpl;
    by autorewrite with frame.
Qed.

End Searches.

(** C9. A returned result counts exactly the web_search calls whose
    arguments parsed among the tool calls the model requested in the run;
    [searchPerformed] says whether that count is positive; every aggregated
    source was returned by the search backend. The searches made in the run
    are those of these web_search calls, in the order of the calls; each
    got the backend's answer; the sources collected are the sources these
    searches found, in some order, and the sources returned are the
    collected ones deduplicated. A browser_extract call, started and
    resumed, changes neither the search counter nor the collected sources,
    and the forced-continuation test on a tool-free reply reads that
    counter only. *)
Theorem only_web_search_counts
    (env : Env) (message : string) (history : list Message)
    (arg : option OptionsArg) (sink : option ProgressSink) :
  (∀ r, chat env message history arg sink = chat_ok r →
     ∃ appended,
       messages (final_state env message history arg sink) =
         first_messages env message history arg sink ++ appended ∧
       totalSearches r =
         length (filter (λ tc, parsed_web_search env tc = true)
                   (requested_calls appended)) ∧
       searchPerformed r = Nat.ltb 0 (totalSearches r) ∧
       (∀ s, s ∈ sources r → searched env s) ∧
       s_options <$> searches (final_state env message history arg sink) =
         omap (search_of env (run_config arg sink)) (requested_calls appended) ∧
       Forall (answered env)
         (searches (final_state env message history arg sink)) ∧
       allSources (final_state env message history arg sink) ≡ₚ
         concat (found <$> searches (final_state env message history arg sink)) ∧
       sources r =
         deduplicateSources
           (allSources (final_state env message history arg sink))) ∧
  (∀ tc st,
     tc_name tc = "browser_extract" →
     totalSearchCount
       (resume (run_config arg sink)
          (fst (start_tool_call env (run_config arg sink) tc st))
          (snd (start_tool_call env (run_config arg sink) tc st)))
       = totalSearchCount st ∧
     allSources
       (resume (run_config arg sink)
          (fst (start_tool_call env (run_config arg sink) tc st))
          (snd (start_tool_call env (run_config arg sink) tc st)))
       = allSources st) ∧
  (∀ st m,
     next_reply env (run_config arg sink) st = inl m → tool_free m = true →
     loop_body env (run_config arg sink) st =
     if cfg_isDeepResearch (run_config arg sink)
        && Nat.ltb (totalSearchCount st) 4
        && Nat.ltb (S (iteration st)) (cfg_maxSteps (run_config arg sink))
     then continue (force_continuation (run_config arg sink) m
                      (requested env (run_config arg sink) st))
     else break (set_lastAssistantMessage m
                   (requested env (run_config arg sink) st))).
Proof.
  unfold final_state, first_messages, chat. rewrite chat_run_unfold.
  set (cfg := run_config arg sink).
  split_and!; [|clear|clear].
  3:{ intros st m Hreply Hfree.
      rewrite (loop_body_tool_free env cfg st m Hreply Hfree).
      unfold must_continue.
      by destruct (requested_frame env cfg st) as (_ & _ & _ & -> & _ & -> & _). }
  - destruct (start_state_frame env message history arg sink)
      as (Hmsg & _ & Hsrc & Hit & _ & Hn & _).
    destruct (start_state_log env message history arg sink) as [Hlog _].
    set (st := start_state env message history arg sink) in *.
    destruct (run_final env cfg st) as (Hfm & _).
    destruct (run_final_log env cfg st) as [Hfs Hfa].
    intros r (m & Hout & ->)%run_ok_inv.
    assert (Hrec : recorded env (initial_messages env cfg message history) true st).
    { exists []. rewrite app_nil_r. split_and!; [done|done|cbn; lia|].
      intros _. rewrite Hn, Hsrc. split; [done|]. by intros s ?%elem_of_nil. }
    assert (Hlogged : logged env cfg (initial_messages env cfg message history) st).
    { exists []. rewrite app_nil_r, Hlog, Hsrc. by split_and!. }
    apply (agentic_loop_logged env cfg _ _ Hlogged) in Hout as Hlogs.
    apply (agentic_loop_recorded env cfg) in Hrec. rewrite Hout in Hrec.
    destruct Hrec as (appended & Ha & _ & _ & Hc).
    destruct Hlogs as (appended' & Ha' & Hopts & Hans & Hfound).
    assert (appended' = appended) as ->
      by (rewrite Ha in Ha'; by apply app_inv_head in Ha').
    destruct (Hc eq_refl) as [Hcount Hsources].
    exists appended. rewrite Hfm, Hfs, Hfa. unfold result_of.
    cbn [totalSearches searchPerformed sources].
    split_and!; [done|done|done| |done|done|done|done].
    intros s Hs. apply Hsources.
    eapply elem_of_sublist; [done|]. apply filter_unseen_sublist.
  - intros tc st Hname. unfold start_tool_call.
    destruct (JSON_parse env (tc_arguments tc)) as [args|]; [|done].
    rewrite Hname. simpl.
    destruct (start_browser_extract env cfg tc args st) as [p st'] eqn:Hstart.
    pose proof (start_browser_extract_frame _ _ _ _ _ _ _ Hstart)
      as (_ & Hsrc & _ & _ & _ & Hn).
    cbn [fst snd].
    destruct (resume_frame cfg p st') as (_ & _ & _ & -> & _ & _ & ->).
    rewrite Hn, Hsrc. split; [done|].
    unfold start_browser_extract in Hstart.
    assert (new_sources p = []) as ->; [|by rewrite app_nil_r].
    destruct args as [| | | | |props]; simpl in Hstart;
      repeat match type of Hstart with
             | context [if ?b then _ else _] => destruct b
             | context [match ?x with _ => _ end] => destruct x
             end; by inversion Hstart.
Qed.

Section Offer.

Variable env : Env.
Variable cfg : Config.

Lemma body_step_requests_shape st o :
  body_step env cfg st o →
  let st' := match o with continue s | break s | throw _ s => s end in
  requests st' = requests st ++ [next_request cfg st]
  ∨ requests st' =
    requests st ++ [next_request cfg st; synthesis_request 7 (requested env cfg st)].
Proof.
  destruct (requested_frame env cfg st) as (_ & _ & _ & _ & _ & _ & _ & Hreq).
  destruct 1 as [| | | | | |m tc calls st' _ _ Hround|m tc calls e st' _ _ Hround];
    unfold recovering, force_continuation; cbn; autorewrite with frame;
    rewrite ?Hreq, <- ?app_assoc; auto.
  - apply tool_round_settled in Hround as (_ & _ & _ & -> & _). cbn. auto.
  - apply tool_round_rejected in Hround as (_ & _ & _ & _ & ->). cbn. auto.
Qed.

Lemma agentic_loop_omits_tools st :
  cfg_tools cfg = [] → Forall omits_tools (requests st) →
  Forall omits_tools (requests (snd (agentic_loop env cfg (cfg_maxSteps cfg) st))).
Proof.
  intros Htools Hst.
  apply (agentic_loop_ind env cfg
           (λ s, Forall omits_tools (requests s))
           (λ _ s, Forall omits_tools (requests s))); [done| |done|lia].
  intros s o Hs _ Hstep. apply body_step_requests_shape in Hstep.
  assert (Hnext : omits_tools (next_request cfg s))
    by (unfold omits_tools, next_request, callOptions; by rewrite Htools).
  assert (Hmore : Forall omits_tools
            (requests s ++ [next_request cfg s;
                            synthesis_request 7 (requested env cfg s)])).
  { apply Forall_app. split; [done|].
    apply Forall_cons_2; [done|]. apply Forall_cons_2; [by split|].
    apply Forall_nil_2. }
  assert (Hone : Forall omits_tools (requests s ++ [next_request cfg s])).
  { apply Forall_app. split; [done|].
    apply Forall_cons_2; [done|]. apply Forall_nil_2. }
  destruct o; simpl in Hstep; destruct Hstep as [-> | ->]; done.
Qed.

(** When no tool is offered and the provider enforces it, no pass of the
    loop executes a tool call. *)
Lemma agentic_loop_no_tool_run init st :
  cfg_tools cfg = [] → enforced env →
  no_tool_run init st →
  no_tool_run init (snd (agentic_loop env cfg (cfg_maxSteps cfg) st)).
Proof.
  intros Htools Henf Hst.
  apply (agentic_loop_ind env cfg (no_tool_run init) (λ _, no_tool_run init));
    [done| |done|lia].
  intros s o (Ht & Hs & Hn & appended & Hm & Hcalls & Hroles) _ Hstep.
  destruct (requested_frame env cfg s)
    as (Hm' & Hs' & _ & _ & _ & Hn' & Ht' & _).
  assert (Hnext : omits_tools (next_request cfg s))
    by (unfold omits_tools, next_request, callOptions; by rewrite Htools).
  assert (Hsame : ∀ s', tavily_calls s' = tavily_calls (requested env cfg s) →
            searchSteps s' = searchSteps (requested env cfg s) →
            totalSearchCount s' = totalSearchCount (requested env cfg s) →
            messages s' = messages (requested env cfg s) →
            no_tool_run init s').
  { intros s' H1 H2 H3 H4. unfold no_tool_run.
    rewrite H1, H2, H3, H4, Ht', Hs', Hn', Hm'.
    split_and!; [done..|]. by exists appended. }
  destruct Hstep as [| | | |m Hreply Hfree| |m tc calls st' Hreply Hcalls' _
                    |m tc calls e st' Hreply Hcalls' _].
  1-4,6: apply Hsame; unfold recovering; cbn; by autorewrite with frame.
  - unfold force_continuation, no_tool_run. cbn. autorewrite with frame.
    rewrite Ht', Hs', Hn', Hm', Hm. split_and!; [done..|].
    exists (appended ++ [as_message m; text_message user FORCED_CONTINUATION]).
    split_and!; [by rewrite <- app_assoc| |].
    + unfold requested_calls in *. rewrite fmap_app, concat_app, Hcalls.
      unfold tool_free in Hfree. cbn.
      by destruct (am_tool_calls m) as [[|]|].
    + apply Forall_app. split; [done|].
      apply Forall_cons_2; [done|]. apply Forall_cons_2; [done|].
      apply Forall_nil_2.
  - apply (Henf _ _ _ Hnext) in Hreply. unfold tool_free in Hreply.
    by rewrite Hcalls' in Hreply.
  - apply (Henf _ _ _ Hnext) in Hreply. unfold tool_free in Hreply.
    by rewrite Hcalls' in Hreply.
Qed.

End Offer.

(** C3 (as the code has it). When [chat] is given a non-empty context, no
    tool is offered: every completion request of the run leaves [tools]
    undefined, and [tool_choice] too: the choice "none" is computed
    ([cfg_toolChoice]) but never sent. Consequently, under enforcement on
    the provider's side (a request that offers no tool is answered without
    a tool call), no tool call is executed in this mode: no call reaches
    the backend, no step is recorded, the search counter stays 0 and the
    transcript gains neither a tool call nor a tool message. *)
Theorem context_requests_omit_tools
    (env : Env) (message : string) (history : list Message)
    (arg : option OptionsArg) (sink : option ProgressSink) :
  cfg_context (run_config arg sink) ≠ "" →
  cfg_tools (run_config arg sink) = [] ∧
  cfg_toolChoice (run_config arg sink) = choice_none ∧
  Forall omits_tools (requests (final_state env message history arg sink)) ∧
  (enforced env →
   no_tool_run (first_messages env message history arg sink)
     (final_state env message history arg sink)).
Proof.
  intros Hctx. unfold final_state, first_messages. rewrite chat_run_unfold.
  set (cfg := run_config arg sink) in *.
  assert (Htools : cfg_tools cfg = [] ∧ cfg_toolChoice cfg = choice_none).
  { unfold cfg, run_config, configure in *. cbn in *.
    apply String.eqb_neq in Hctx. by rewrite Hctx. }
  destruct Htools as [Htools Hchoice].
  destruct (start_state_frame env message history arg sink)
    as (Hm & Hsteps & _ & _ & _ & Hn & Ht & Hreq).
  set (st := start_state env message history arg sink) in *.
  destruct (run_final env cfg st) as (Hfm & _ & Hfs & Hft & Hfn & Hfr).
  split_and!; [done|done| |].
  - pose proof (agentic_loop_omits_tools env cfg st Htools) as Hloop.
    rewrite Hreq in Hloop. specialize (Hloop (Forall_nil_2 _)).
    destruct Hfr as [-> | ->]; [done|].
    apply Forall_app. split; [done|].
    apply Forall_cons_2; [by split|]. apply Forall_nil_2.
  - intros Henf. unfold no_tool_run. rewrite Hfs, Hft, Hfn, Hfm.
    apply (agentic_loop_no_tool_run env cfg _ st Htools Henf).
    split_and!; [done..|]. exists []. by rewrite app_nil_r.
Qed.

(** C4 (as the code has it). A tool call whose arguments do not parse is
    answered, not raised: its callback settles at once with a tool message
    that carries the call's id and the text [Invalid JSON arguments.],
    leaving the state as it was. When no other call of the same reply
    throws, the pass goes on to the next one: the transcript gains the
    reply and one message for each call, the one at the call's position
    being that message; the search counter grows by the other calls that
    are searches, and one step is opened for each other call that is run,
    so the attempt is neither counted nor recorded as a step. When another
    call of the reply throws, the round is rejected: the pass throws and
    the transcript gains the reply only. *)
Theorem invalid_json_arguments_answered
    (env : Env) (cfg : Config) (tc : ToolCall) :
  JSON_parse env (tc_arguments tc) = None →
  (∀ st, start_tool_call env cfg tc st = (resolved (invalid_arguments tc), st)) ∧
  (∀ st m before after,
     next_reply env cfg st = inl m →
     am_tool_calls m = Some (before ++ tc :: after) →
     if existsb (rejects env cfg) (before ++ after) then
       ∃ st', loop_body env cfg st = throw type_error st' ∧
              messages st' = messages st ++ [as_message m]
     else
       ∃ st' msgs,
         loop_body env cfg st = continue st' ∧
         messages st' = messages st ++ as_message m :: msgs ∧
         length msgs = S (length (before ++ after)) ∧
         msgs !! length before = Some (invalid_arguments tc) ∧
         totalSearchCount st' =
           totalSearchCount st
           + length (filter (λ c, parsed_web_search env c = true)
                       (before ++ after)) ∧
         length (searchSteps st') =
           length (searchSteps st)
           + length (filter (λ c, not_run env c = false) (before ++ after))).
Proof.
  intros Hparse.
  assert (Hsafe : rejects env cfg tc = false)
    by (unfold rejects; by rewrite Hparse).
  assert (Hnot : not_run env tc = true) by (unfold not_run; by rewrite Hparse).
  assert (Hsearch : parsed_web_search env tc = false)
    by (unfold parsed_web_search; by rewrite Hparse).
  split.
  { intros st. unfold start_tool_call, invalid_arguments. by rewrite Hparse. }
  intros st m before after Hreply Hcalls.
  set (st0 := set_messages (λ ms, ms ++ [as_message m]) (requested env cfg st)).
  assert (Hbody : loop_body env cfg st =
            match tool_round env cfg (before ++ tc :: after) st0 with
            | (Some e, st') => throw e st'
            | (None, st') => continue st'
            end).
  { destruct before as [|c cs]; cbn [app] in *; by apply loop_body_tools. }
  destruct (requested_frame env cfg st) as (Hm & Hs & _ & _ & _ & Hn & _).
  assert (Hm0 : messages st0 = messages st ++ [as_message m])
    by (unfold st0; cbn; by rewrite Hm).
  assert (Hs0 : searchSteps st0 = searchSteps st) by (unfold st0; by cbn).
  assert (Hn0 : totalSearchCount st0 = totalSearchCount st)
    by (unfold st0; by cbn).
  pose proof (tool_round_fst env cfg (before ++ tc :: after) st0) as Hfst.
  rewrite existsb_app in Hfst. cbn [existsb] in Hfst.
  rewrite Hsafe in Hfst. cbn [orb] in Hfst. rewrite <- existsb_app in Hfst.
  destruct (tool_round env cfg (before ++ tc :: after) st0) as [o st'] eqn:Hround.
  cbn [fst] in Hfst. subst o.
  destruct (existsb (rejects env cfg) (before ++ after)).
  - apply tool_round_rejected in Hround as (_ & Hmsgs & _).
    exists st'. split; [done|]. by rewrite Hmsgs.
  - pose proof (tool_round_opened _ _ _ _ _ Hround) as Hopened.
    apply tool_round_settled in Hround
      as ((msgs & Hmsgs & Hans) & _ & _ & _ & Hcount & _).
    exists st', msgs. split_and!; [done| | | | |].
    + by rewrite Hmsgs, Hm0, <- app_assoc.
    + apply Forall2_length in Hans. rewrite <- Hans, !length_app. cbn. lia.
    + destruct (Forall2_lookup_l _ _ _ (length before) tc Hans)
        as (a & Ha & text & -> & Htext).
      { by rewrite lookup_app_r, Nat.sub_diag by lia. }
      by rewrite Ha, (Htext Hparse).
    + rewrite Hcount, Hn0, !filter_app, filter_cons_False; [done|].
      by rewrite Hsearch.
    + rewrite Hopened, Hs0, !filter_app, filter_cons_False; [done|].
      by rewrite Hnot.
Qed.

(** ** The statements on the sample runs *)

Section SampleRuns.

Import Samples.

Example dedupe_sample :
  deduplicateSources
    [page "https://example.com/a"; page ""; page "https://example.com/b";
     page "https://example.com/a"]
  = [page "https://example.com/a"; page "https://example.com/b"].
Proof. vm_compute. reflexivity. Qed.

Example one_search_sample :
  chat one_search "What is bitcoin?" [] (Some (legacy_forceSearch true)) None
  = chat_ok
      {| response := Some "done"; searchPerformed := true;
         sources := [page "https://example.com/a"; page "https://example.com/b"];
         res_searchSteps :=
           [{| step_id := search_step_id 1 1;
               step_type := searching (Some (JStr "bitcoin")) (JStr "general")
                              (JStr "basic");
               status := status_done; timestamp := 1700000000000;
               resultCount := Some 3 |}];
         totalSteps := 2; totalSearches := 1 |}.
Proof. vm_compute. reflexivity. Qed.

(** In deep mode a page read does not count as a search: the tool-free
    reply that follows it is still overridden. *)
Example extract_does_not_count :
  let env := scripted (λ n, match n with
                            | 0 => inl (calling extract_call)
                            | _ => inl (answer "report")
                            end) found read in
  ∃ r, chat env "What is bitcoin?" [] deep None = chat_ok r ∧
       totalSearches r = 0 ∧ totalSteps r = 10 ∧ length (res_searchSteps r) = 1.
Proof. eexists. vm_compute. repeat split. Qed.

(** A loop left at the iteration cap: six passes are counted, the seventh
    request is the synthesis. *)
Example exhausted_sample :
  ∃ r, chat restless "What is bitcoin?" [] None None = chat_ok r ∧
       response r = Some "final" ∧ totalSteps r = 6 ∧ totalSearches r = 6 ∧
       length (requests (final_state restless "What is bitcoin?" [] None None)) = 7.
Proof. eexists. vm_compute. repeat split. Qed.

End SampleRuns.

(** C7 on the sample question: deep mode off, the model answers at once. *)
Lemma tool_free_first_reply_single_pass_witness :
  chat Samples.direct "What is 2 + 2?" [] None None =
  chat_ok {| response := Some "4"; searchPerformed := false; sources := [];
             res_searchSteps := []; totalSteps := 1; totalSearches := 0 |}.
Proof.
  apply (tool_free_first_reply_single_pass Samples.direct "What is 2 + 2?" []
           None None (Samples.answer "4")); reflexivity.
Defined.

(** C6 on a provider that answers 429 to the first request. *)
Lemma rate_limit_on_first_request_witness :
  chat Samples.rate_limited "What is bitcoin?" [] None None =
    chat_failed {| success := false; error := "Rate limit exceeded.";
                   code := "RATE_LIMIT" |} ∧
  requests (snd (chat_run Samples.rate_limited "What is bitcoin?" [] None None)) =
    [first_request Samples.rate_limited "What is bitcoin?" [] None None].
Proof.
  apply (rate_limit_on_first_request Samples.rate_limited "What is bitcoin?" []
           None None (Samples.status_error 429)); reflexivity.
Defined.

(** C1 on the first pass of a deep-research run whose model answers
    without searching. *)
Lemma forced_continuation_reenters_reasoning_witness :
  ∃ st',
    loop_body Samples.shallow (run_config Samples.deep None) Samples.shallow_start
      = continue st' ∧
    messages st' =
      messages Samples.shallow_start
      ++ [as_message (Samples.answer "shallow");
          text_message user FORCED_CONTINUATION] ∧
    lastAssistantMessage st' = lastAssistantMessage Samples.shallow_start ∧
    iteration st' = S (iteration Samples.shallow_start) ∧
    agentic_loop Samples.shallow (run_config Samples.deep None)
      (cfg_maxSteps (run_config Samples.deep None)) Samples.shallow_start =
    agentic_loop Samples.shallow (run_config Samples.deep None)
      (cfg_maxSteps (run_config Samples.deep None)) st' ∧
    req_messages (next_request (run_config Samples.deep None) st') = messages st' ∧
    S (S (length (requests Samples.shallow_start)))
    ≤ length (requests (snd (run Samples.shallow (run_config Samples.deep None)
                               Samples.shallow_start))) ∧
    ∀ r, fst (run Samples.shallow (run_config Samples.deep None)
                Samples.shallow_start) = chat_ok r →
         S (S (iteration Samples.shallow_start)) ≤ totalSteps r.
Proof.
  apply (forced_continuation_reenters_reasoning Samples.shallow
           (run_config Samples.deep None) Samples.shallow_start
           (Samples.answer "shallow"));
    [reflexivity | reflexivity | reflexivity | vm_compute; lia | vm_compute; lia].
Defined.

(** C3 does not hold as stated: in a run with a non-empty context the
    request sent to the provider carries no tool choice at all, not the
    choice "none". *)
Lemma context_tool_choice_counterexample :
  cfg_context (run_config Samples.with_context None) ≠ "" ∧
  ∃ req,
    requests (final_state Samples.direct "What is bitcoin?" []
                Samples.with_context None) = [req] ∧
    req_tool_choice req ≠ Some choice_none.
Proof.
  split; [vm_compute; discriminate|].
  eexists. split; [vm_compute; reflexivity|]. vm_compute. discriminate.
Qed.

(** C3 as amended, on a run with a context whose provider answers
    without a tool call. *)
Lemma context_requests_omit_tools_witness :
  cfg_tools (run_config Samples.with_context None) = [] ∧
  cfg_toolChoice (run_config Samples.with_context None) = choice_none ∧
  Forall omits_tools
    (requests (final_state Samples.direct "What is bitcoin?" []
                 Samples.with_context None)) ∧
  no_tool_run
    (first_messages Samples.direct "What is bitcoin?" [] Samples.with_context None)
    (final_state Samples.direct "What is bitcoin?" [] Samples.with_context None).
Proof.
  destruct (context_requests_omit_tools Samples.direct "What is bitcoin?" []
              Samples.with_context None) as (Htools & Hchoice & Hreqs & Hrun).
  { vm_compute. discriminate. }
  split_and!; [exact Htools|exact Hchoice|exact Hreqs|].
  apply Hrun. intros n req m _ Hm. cbn in Hm. injection Hm as <-. reflexivity.
Defined.

(** C4 does not hold as stated. After a tool call with unparsable
    arguments the run goes on and the transcript holds the error message,
    but [totalSearches] is 0 and no step, with status error or any other,
    is recorded. And when the same reply carries a call that throws, the
    run is aborted all the same: [chat] fails and the transcript holds no
    tool message. *)
Lemma invalid_json_counterexample :
  (JSON_parse Samples.broken_arguments (tc_arguments Samples.broken_call) = None ∧
   chat Samples.broken_arguments "What is bitcoin?" [] None None =
     chat_ok {| response := Some "done"; searchPerformed := false; sources := [];
                res_searchSteps := []; totalSteps := 2; totalSearches := 0 |} ∧
   messages (final_state Samples.broken_arguments "What is bitcoin?" []
               None None) !! 3
   = Some (tool_message Samples.broken_call "Invalid JSON arguments.")) ∧
  (first_reply Samples.broken_beside_null "What is bitcoin?" [] None None
   = inl {| am_content := None;
            am_tool_calls := Some [Samples.broken_call; Samples.null_call] |} ∧
   chat Samples.broken_beside_null "What is bitcoin?" [] None None =
     chat_failed unavailable ∧
   role <$> messages (final_state Samples.broken_beside_null "What is bitcoin?"
                        [] None None)
   = [system; user; assistant]).
Proof. split_and!; vm_compute; reflexivity. Qed.

(** C4 as amended, on the unparsable call of the samples. *)
Lemma invalid_json_arguments_answered_witness :
  (∀ st, start_tool_call Samples.broken_arguments (run_config None None)
           Samples.broken_call st
         = (resolved (invalid_arguments Samples.broken_call), st)) ∧
  (∀ st m before after,
     next_reply Samples.broken_arguments (run_config None None) st = inl m →
     am_tool_calls m = Some (before ++ Samples.broken_call :: after) →
     if existsb (rejects Samples.broken_arguments (run_config None None))
          (before ++ after)
     then
       ∃ st', loop_body Samples.broken_arguments (run_config None None) st
              = throw type_error st' ∧
              messages st' = messages st ++ [as_message m]
     else
       ∃ st' msgs,
         loop_body Samples.broken_arguments (run_config None None) st
           = continue st' ∧
         messages st' = messages st ++ as_message m :: msgs ∧
         length msgs = S (length (before ++ after)) ∧
         msgs !! length before = Some (invalid_arguments Samples.broken_call) ∧
         totalSearchCount st' =
           totalSearchCount st
           + length (filter (λ c, parsed_web_search Samples.broken_arguments c
                                  = true)
                       (before ++ after)) ∧
         length (searchSteps st') =
           length (searchSteps st)
           + length (filter (λ c, not_run Samples.broken_arguments c = false)
                       (before ++ after))).
Proof.
  apply (invalid_json_arguments_answered Samples.broken_arguments
           (run_config None None) Samples.broken_call).
  reflexivity.
Defined.

(** C5 does not hold as stated. In the first run no tool call succeeded
    (the only search failed, its step has status error), yet after the
    provider's failure a recovery request is sent, making three requests,
    and its reply is returned instead of the error. In the second run a page
    was read successfully (its step has status done), yet the provider's
    failure is surfaced after two requests, without a recovery request. *)
Lemma recovery_counterexample :
  (chat Samples.failed_search_then_outage "What is bitcoin?" [] None None =
     chat_ok {| response := Some "partial answer"; searchPerformed := true;
                sources := [];
                res_searchSteps :=
                  [{| step_id := search_step_id 1 1;
                      step_type := searching (Some (JStr "bitcoin"))
                                     (JStr "general") (JStr "basic");
                      status := status_error; timestamp := 1700000000000;
                      resultCount := Some 0 |}];
                totalSteps := 2; totalSearches := 1 |} ∧
   length (requests (snd (chat_run Samples.failed_search_then_outage
                            "What is bitcoin?" [] None None))) = 3) ∧
  (chat Samples.extract_then_outage "What is bitcoin?" [] Samples.deep None =
     chat_failed {| success := false; error := "AI service temporarily unavailable.";
                    code := "GROQ_ERROR" |} ∧
   status <$> searchSteps (snd (chat_run Samples.extract_then_outage
                                  "What is bitcoin?" [] Samples.deep None))
   = [status_done] ∧
   length (requests (snd (chat_run Samples.extract_then_outage
                            "What is bitcoin?" [] Samples.deep None))) = 2).
Proof. vm_compute. repeat split. Qed.

(** C5 as amended, on the second pass of the run whose search failed:
    one search was started, so the recovery request is sent and its reply
    is the answer. *)
Lemma provider_failure_recovery_witness :
  match salvaged Samples.failed_search_then_outage (Samples.status_error 500) with
  | Some text =>
      requests (snd (run Samples.failed_search_then_outage (run_config None None)
                       Samples.after_failed_search))
      = requests Samples.after_failed_search
        ++ [next_request (run_config None None) Samples.after_failed_search] ∧
      ∃ r, fst (run Samples.failed_search_then_outage (run_config None None)
                  Samples.after_failed_search) = chat_ok r ∧
           response r = Some text
  | None =>
      if Nat.ltb 0 (totalSearchCount Samples.after_failed_search) then
        requests (snd (run Samples.failed_search_then_outage (run_config None None)
                         Samples.after_failed_search))
        = requests Samples.after_failed_search
          ++ [next_request (run_config None None) Samples.after_failed_search;
              recovery_request Samples.after_failed_search] ∧
        match groq_create Samples.failed_search_then_outage
                (S (length (requests Samples.after_failed_search)))
                (recovery_request Samples.after_failed_search) with
        | inl m =>
            ∃ r, fst (run Samples.failed_search_then_outage (run_config None None)
                        Samples.after_failed_search) = chat_ok r ∧
                 response r = am_content m
        | inr _ =>
            fst (run Samples.failed_search_then_outage (run_config None None)
                   Samples.after_failed_search)
            = chat_failed (handleError (api_error (Samples.status_error 500)))
        end
      else
        requests (snd (run Samples.failed_search_then_outage (run_config None None)
                         Samples.after_failed_search))
        = requests Samples.after_failed_search
          ++ [next_request (run_config None None) Samples.after_failed_search] ∧
        fst (run Samples.failed_search_then_outage (run_config None None)
               Samples.after_failed_search)
        = chat_failed (handleError (api_error (Samples.status_error 500)))
  end.
Proof.
  apply (provider_failure_recovery Samples.failed_search_then_outage
           (run_config None None) Samples.after_failed_search
           (Samples.status_error 500));
    [vm_compute; lia | reflexivity].
Defined.

(** ** The progress sink never steers a run *)

Section Silent.

Variable env : Env.
Variable cfg : Config.

(** Settles a goal in which the sink was consulted. *)
Ltac sunk :=
  let onProgress := fresh "onProgress" in
  destruct (cfg_onProgress cfg) as [onProgress|]; simpl; [|done];
  repeat match goal with
         | |- context [onProgress ?e] => destruct (onProgress e)
         end;
  done.

Lemma erase_emit type step st : erase (emit cfg type step st) = erase st.
Proof. unfold emit, erase. sunk. Qed.

Lemma emit_silent type step st : emit (silent cfg) type step st = st.
Proof. reflexivity. Qed.

Lemma start_web_search_erase tc args st :
  start_web_search env (silent cfg) tc args (erase st) =
  (fst (start_web_search env cfg tc args st),
   erase (snd (start_web_search env cfg tc args st))).
Proof.
  unfold start_web_search, now.
  destruct args; cbv beta iota zeta; try done;
    (destruct (text_throws _ || to_string_throws _); [done|]);
    unfold emit, erase; sunk.
Qed.

Lemma start_browser_extract_erase tc args st :
  start_browser_extract env (silent cfg) tc args (erase st) =
  (fst (start_browser_extract env cfg tc args st),
   erase (snd (start_browser_extract env cfg tc args st))).
Proof.
  unfold start_browser_extract, now.
  destruct args as [| | | | |props]; simpl; try done;
    destruct (assoc "urls" props) as [[| | | |items|more]|]; simpl; try done;
    try destruct (existsb to_string_throws items);
    try destruct (text_throws (assoc "length" more));
    try done; unfold emit, erase; sunk.
Qed.

Lemma start_tool_call_erase tc st :
  start_tool_call env (silent cfg) tc (erase st) =
  (fst (start_tool_call env cfg tc st),
   erase (snd (start_tool_call env cfg tc st))).
Proof.
  unfold start_tool_call.
  destruct (JSON_parse env (tc_arguments tc)); [|done].
  destruct (String.eqb (tc_name tc) "web_search");
    [apply start_web_search_erase|].
  destruct (String.eqb (tc_name tc) "browser_extract");
    [apply start_browser_extract_erase|done].
Qed.

Lemma start_tool_calls_erase calls : ∀ st,
  start_tool_calls env (silent cfg) calls (erase st) =
  (fst (start_tool_calls env cfg calls st),
   erase (snd (start_tool_calls env cfg calls st))).
Proof.
  induction calls as [|tc calls IH]; intros st; simpl; [done|].
  rewrite start_tool_call_erase.
  destruct (start_tool_call env cfg tc st) as [p st1]. simpl.
  rewrite IH. by destruct (start_tool_calls env cfg calls st1).
Qed.

Lemma resume_erase p st :
  resume (silent cfg) p (erase st) = erase (resume cfg p st).
Proof.
  unfold resume, emit, erase.
  destruct p as [| | ? ? ? []| ? ? ? []]; simpl; try done; sunk.
Qed.

Lemma resume_all_erase ps : ∀ st,
  foldl (λ st p, resume (silent cfg) p st) (erase st) ps =
  erase (foldl (λ st p, resume cfg p st) st ps).
Proof.
  induction ps as [|p ps IH]; intros st; simpl; [done|].
  by rewrite resume_erase, IH.
Qed.

Lemma tool_round_erase calls st :
  tool_round env (silent cfg) calls (erase st) =
  (fst (tool_round env cfg calls st), erase (snd (tool_round env cfg calls st))).
Proof.
  unfold tool_round. rewrite start_tool_calls_erase.
  destruct (start_tool_calls env cfg calls st) as [ps st1]. simpl.
  destruct (first_rejection ps); by rewrite resume_all_erase.
Qed.

Lemma requested_erase st :
  requested env (silent cfg) (erase st) = erase (requested env cfg st).
Proof.
  unfold requested, create, emit, erase. simpl.
  destruct (Nat.ltb 1 (S (iteration st))); simpl; [sunk|done].
Qed.

Lemma next_reply_erase st :
  next_reply env (silent cfg) (erase st) = next_reply env cfg st.
Proof. reflexivity. Qed.

Lemma recover_erase e st :
  recover env (silent cfg) e (erase st) = erase_outcome (recover env cfg e st).
Proof.
  rewrite !recover_cases. destruct (salvaged env e); [done|].
  change (totalSearchCount (erase st)) with (totalSearchCount st).
  destruct (Nat.ltb 0 (totalSearchCount st)); [|done].
  change (requests (erase st)) with (requests st).
  change (synthesis_request 7 (erase st)) with (synthesis_request 7 st).
  cbn zeta. destruct (groq_create env _ _); simpl;
    unfold emit, erase; sunk.
Qed.

Lemma loop_body_erase st :
  loop_body env (silent cfg) (erase st) = erase_outcome (loop_body env cfg st).
Proof.
  destruct (next_reply env cfg st) as [m|e] eqn:Hreply.
  - destruct (am_tool_calls m) as [[|tc calls]|] eqn:Hcalls.
    2:{ rewrite (loop_body_tools env cfg st m tc calls) by done.
        rewrite (loop_body_tools env (silent cfg) (erase st) m tc calls) by done.
        rewrite requested_erase.
        change (set_messages (λ ms, ms ++ [as_message m])
                  (erase (requested env cfg st)))
          with (erase (set_messages (λ ms, ms ++ [as_message m])
                         (requested env cfg st))).
        rewrite tool_round_erase.
        by destruct (tool_round env cfg _ _) as [[]]. }
    all: assert (Hfree : tool_free m = true) by (unfold tool_free; by rewrite Hcalls).
    all: rewrite (loop_body_tool_free env cfg st m) by done.
    all: rewrite (loop_body_tool_free env (silent cfg) (erase st) m) by done.
    all: rewrite requested_erase.
    all: change (must_continue (silent cfg) (erase (requested env cfg st)))
           with (must_continue cfg (requested env cfg st)).
    all: destruct (must_continue cfg (requested env cfg st)); [|done].
    all: unfold force_continuation, emit, erase; simpl; sunk.
  - rewrite (loop_body_failed env cfg st e) by done.
    rewrite (loop_body_failed env (silent cfg) (erase st) e) by done.
    by rewrite requested_erase, recover_erase.
Qed.

Lemma agentic_loop_erase fuel : ∀ st,
  agentic_loop env (silent cfg) fuel (erase st) =
  (fst (agentic_loop env cfg fuel st), erase (snd (agentic_loop env cfg fuel st))).
Proof.
  induction fuel as [|fuel IH]; intros st; simpl;
    change (iteration (erase st)) with (iteration st);
    destruct (Nat.ltb (iteration st) (cfg_maxSteps cfg)); try done.
  rewrite loop_body_erase.
  destruct (loop_body env cfg st) as [st'|st'|e st']; simpl; [|done|done].
  apply IH.
Qed.

Lemma synthesize_erase st :
  synthesize env (silent cfg) (erase st) =
  (fst (synthesize env cfg st), erase (snd (synthesize env cfg st))).
Proof.
  unfold synthesize, create. rewrite !emit_silent.
  destruct (lastAssistantMessage st) eqn:Hlast;
    change (lastAssistantMessage (erase st)) with (lastAssistantMessage st);
    rewrite Hlast; cbv beta iota zeta.
  - change (totalSearchCount (erase st)) with (totalSearchCount st).
    destruct (Nat.ltb 0 (totalSearchCount st)); [|done].
    cbn [fst snd]. by rewrite erase_emit.
  - change (emit cfg ev_synthesizing None st)
      with (emit cfg ev_synthesizing None st).
    rewrite emit_unfold. destruct (cfg_onProgress cfg); simpl;
      by destruct (groq_create env _ _).
Qed.

Lemma assemble_erase st :
  assemble (silent cfg) (erase st) =
  (fst (assemble cfg st), erase (snd (assemble cfg st))).
Proof.
  unfold assemble. rewrite emit_silent, emit_unfold. unfold erase. simpl.
  destruct (cfg_onProgress cfg); simpl; by destruct (lastAssistantMessage st).
Qed.

Lemma fail_erase e st :
  fail (silent cfg) e (erase st) = (fst (fail cfg e st), erase (snd (fail cfg e st))).
Proof. unfold fail, emit, erase. simpl. sunk. Qed.

Lemma run_erase st :
  run env (silent cfg) (erase st) =
  (fst (run env cfg st), erase (snd (run env cfg st))).
Proof.
  unfold run. change (cfg_maxSteps (silent cfg)) with (cfg_maxSteps cfg).
  rewrite agentic_loop_erase.
  destruct (agentic_loop env cfg (cfg_maxSteps cfg) st) as [[e|] st1]; simpl.
  { apply fail_erase. }
  rewrite synthesize_erase.
  destruct (synthesize env cfg st1) as [[e|] st2]; simpl.
  { apply fail_erase. }
  rewrite assemble_erase.
  destruct (assemble cfg st2) as [[e|r] st3]; simpl; [|done].
  apply fail_erase.
Qed.

Lemma initial_state_erase message history :
  initial_state env (silent cfg) message history =
  erase (initial_state env cfg message history).
Proof.
  unfold initial_state, emit, erase. simpl.
  destruct (String.eqb (cfg_context cfg) ""); sunk.
Qed.

End Silent.

(** X1. The value [chat] returns depends neither on whether there is a
    progress sink nor on what the sink throws: with any sink that leaves
    the events it is handed as they are, throwing or not, the run returns
    what it returns without one, and it ends in the same state but for the
    events handed over. *)
Theorem progress_sink_never_steers
    (env : Env) (message : string) (history : list Message)
    (arg : option OptionsArg) (sink : option ProgressSink) :
  chat env message history arg sink = chat env message history arg None ∧
  final_state env message history arg None =
    erase (final_state env message history arg sink) ∧
  events (final_state env message history arg None) = [].
Proof.
  unfold chat, final_state, chat_run.
  change (configure (normalize arg) None)
    with (silent (configure (normalize arg) sink)).
  rewrite initial_state_erase, run_erase. done.
Qed.

(** ** Steps are opened once and finished once *)

Section Steps.

Variable env : Env.
Variable cfg : Config.

Lemma resume_steps p st :
  searchSteps (resume cfg p st) = finish_step p (searchSteps st).
Proof.
  unfold resume, finish_step.
  destruct p as [| | ? ? ? []| ? ? ? []]; simpl; by autorewrite with frame.
Qed.

Lemma resume_all_steps ps : ∀ st,
  searchSteps (foldl (λ st p, resume cfg p st) st ps) =
  foldl (λ steps p, finish_step p steps) (searchSteps st) ps.
Proof.
  induction ps as [|p ps IH]; intros st; simpl; [done|].
  by rewrite IH, resume_steps.
Qed.

Lemma finish_with_settles p s :
  is_running (finish_with p s) =
  is_running s && negb (bool_decide (is_Some (pending_index p))).
Proof.
  unfold is_running.
  destruct p as [| | ? ? ? []| ? ? ? []]; simpl; by destruct (status s).
Qed.

Lemma finish_with_type p s : step_type (finish_with p s) = step_type s.
Proof. by destruct p as [| | ? ? ? []| ? ? ? []]. Qed.

Lemma finish_step_lookup p steps j :
  finish_step p steps !! j =
  (if bool_decide (pending_index p = Some j) then finish_with p else λ s, s)
    <$> steps !! j.
Proof.
  unfold finish_step. destruct (pending_index p) as [i|] eqn:Hi.
  - case_bool_decide as Hj.
    + injection Hj as ->. apply list_lookup_alter_eq.
    + rewrite list_lookup_alter_ne by congruence. by destruct (steps !! j).
  - rewrite bool_decide_eq_false_2 by done. by destruct (steps !! j).
Qed.

Lemma finish_step_types p steps :
  step_type <$> finish_step p steps = step_type <$> steps.
Proof.
  apply list_eq. intros j. rewrite !list_lookup_fmap, finish_step_lookup.
  destruct (steps !! j); simpl; [|done].
  case_bool_decide; by rewrite ?finish_with_type.
Qed.

Lemma finish_all_types ps : ∀ steps,
  step_type <$> foldl (λ steps p, finish_step p steps) steps ps = step_type <$> steps.
Proof.
  induction ps as [|p ps IH]; intros steps; simpl; [done|].
  by rewrite IH, finish_step_types.
Qed.

(** After the callbacks of [ps] resumed, a step is running only if it was
    running before and none of them was waiting on it. *)
Lemma finish_all_lookup ps : ∀ steps j s,
  foldl (λ steps p, finish_step p steps) steps ps !! j = Some s →
  ∃ s0, steps !! j = Some s0 ∧
        (is_running s = true →
         is_running s0 = true ∧ ∀ p, p ∈ ps → pending_index p ≠ Some j).
Proof.
  induction ps as [|p ps IH]; intros steps j s; simpl.
  - intros Hs. exists s. split; [done|]. intros Hr. split; [done|].
    by intros p ?%elem_of_nil.
  - intros (s1 & Hs1 & Hrun)%IH.
    rewrite finish_step_lookup in Hs1.
    destruct (steps !! j) as [s0|] eqn:Hs0; [|done]. simpl in Hs1.
    injection Hs1 as <-. exists s0. split; [done|]. intros Hs.
    destruct (Hrun Hs) as [Hr1 Hrest]. clear Hrun.
    case_bool_decide as Hp.
    + rewrite finish_with_settles, Hp in Hr1.
      rewrite bool_decide_eq_true_2, andb_false_r in Hr1 by eauto. done.
    + split; [done|]. intros q [->|Hq]%elem_of_cons; auto.
Qed.




(** A started call opens at most one step, at the end of the list, and
    the searching steps grow with the search counter. *)
Lemma start_web_search_steps tc args st :
  let started := start_web_search env cfg tc args st in
  match pending_index (fst started) with
  | Some index =>
      index = length (searchSteps st) ∧
      ∃ s, searchSteps (snd started) = searchSteps st ++ [s] ∧
           is_searching s = true ∧
           totalSearchCount (snd started) = S (totalSearchCount st)
  | None =>
      first_rejection [fst started] = None →
      searchSteps (snd started) = searchSteps st ∧
      totalSearchCount (snd started) = totalSearchCount st
  end.
Proof.
  unfold start_web_search, now.
  destruct args; cbv beta iota zeta; try done;
    (destruct (text_throws _ || to_string_throws _); [done|]);
    simpl; autorewrite with frame; simpl; eauto.
Qed.

Lemma start_browser_extract_steps tc args st :
  let started := start_browser_extract env cfg tc args st in
  totalSearchCount (snd started) = totalSearchCount st ∧
  match pending_index (fst started) with
  | Some index =>
      index = length (searchSteps st) ∧
      ∃ s, searchSteps (snd started) = searchSteps st ++ [s] ∧
           is_searching s = false
  | None =>
      first_rejection [fst started] = None →
      searchSteps (snd started) = searchSteps st
  end.
Proof.
  unfold start_browser_extract, now.
  destruct args as [| | | | |props]; simpl; try done;
    destruct (assoc "urls" props) as [[| | | |items|more]|]; simpl;
    try destruct (existsb to_string_throws items);
    try destruct (text_throws (assoc "length" more));
    simpl; autorewrite with frame; simpl; eauto; by split.
Qed.

Lemma searching_steps_app steps steps' :
  searching_steps (steps ++ steps') = searching_steps steps + searching_steps steps'.
Proof. unfold searching_steps. by rewrite filter_app, length_app. Qed.

Lemma searching_steps_types steps steps' :
  step_type <$> steps = step_type <$> steps' →
  searching_steps steps = searching_steps steps'.
Proof.
  revert steps'. induction steps as [|s steps IH]; intros [|s' steps'] Heq;
    try done.
  injection Heq as Hs Hrest. unfold searching_steps in *.
  assert (is_searching s = is_searching s') as Hsearch
    by (unfold is_searching; by rewrite Hs).
  destruct (is_searching s) eqn:E; symmetry in Hsearch.
  - rewrite !filter_cons_True by done. simpl. f_equal. by apply IH.
  - rewrite !filter_cons_False by congruence. by apply IH.
Qed.

Lemma start_tool_call_steps tc st p st' :
  start_tool_call env cfg tc st = (p, st') →
  first_rejection [p] = None →
  ∃ new,
    searchSteps st' = searchSteps st ++ new ∧
    omap pending_index [p] = seq (length (searchSteps st)) (length new) ∧
    searching_steps new + totalSearchCount st = totalSearchCount st'.
Proof.
  unfold start_tool_call. intros H Hrej.
  destruct (JSON_parse env (tc_arguments tc)) as [args|].
  2:{ inversion H; subst. exists []. by rewrite app_nil_r. }
  destruct (String.eqb (tc_name tc) "web_search").
  { pose proof (start_web_search_steps tc args st) as Hs. rewrite H in Hs.
    simpl in Hs. simpl. destruct (pending_index p) as [i|].
    - destruct Hs as (-> & s & -> & Hsearch & ->). exists [s].
      split_and!; [done|done|].
      unfold searching_steps. rewrite filter_cons_True by done. simpl. lia.
    - destruct (Hs Hrej) as [-> ->]. exists []. by rewrite app_nil_r. }
  destruct (String.eqb (tc_name tc) "browser_extract").
  { pose proof (start_browser_extract_steps tc args st) as Hs. rewrite H in Hs.
    simpl in Hs. simpl. destruct Hs as [-> Hs]. destruct (pending_index p) as [i|].
    - destruct Hs as (-> & s & -> & Hsearch). exists [s].
      split_and!; [done|done|].
      unfold searching_steps. rewrite filter_cons_False by congruence. done.
    - rewrite (Hs Hrej). exists []. by rewrite app_nil_r. }
  inversion H; subst. exists []. by rewrite app_nil_r.
Qed.

Lemma start_tool_calls_steps calls : ∀ st ps st',
  start_tool_calls env cfg calls st = (ps, st') →
  first_rejection ps = None →
  ∃ new,
    searchSteps st' = searchSteps st ++ new ∧
    omap pending_index ps = seq (length (searchSteps st)) (length new) ∧
    searching_steps new + totalSearchCount st = totalSearchCount st'.
Proof.
  induction calls as [|tc calls IH]; simpl; intros st ps st' H Hrej.
  - inversion H; subst. exists []. by rewrite app_nil_r.
  - destruct (start_tool_call env cfg tc st) as [p st1] eqn:H1.
    destruct (start_tool_calls env cfg calls st1) as [ps' st2] eqn:H2.
    inversion H; subst.
    apply first_rejection_cons in Hrej as [Hp Hps].
    destruct (start_tool_call_steps _ _ _ _ H1 Hp) as (new1 & Hs1 & Hi1 & Hc1).
    destruct (IH _ _ _ H2 Hps) as (new2 & Hs2 & Hi2 & Hc2).
    exists (new1 ++ new2). rewrite Hs2, Hs1, <- app_assoc.
    split_and!; [done| |].
    + change (p :: ps') with ([p] ++ ps'). rewrite omap_app, Hi1, Hi2, Hs1.
      by rewrite !length_app, <- seq_app.
    + rewrite searching_steps_app. lia.
Qed.

(** What a settled round leaves in the step list. *)
Lemma tool_round_steps calls st st' :
  tool_round env cfg calls st = (None, st') →
  Forall (λ s, is_running s = false) (searchSteps st) →
  Forall (λ s, is_running s = false) (searchSteps st') ∧
  searching_steps (searchSteps st') + totalSearchCount st
  = searching_steps (searchSteps st) + totalSearchCount st'.
Proof.
  unfold tool_round.
  destruct (start_tool_calls env cfg calls st) as [ps st1] eqn:Hstart.
  destruct (first_rejection ps) eqn:Hrej; [done|].
  intros H Hold; inversion H; subst; clear H.
  cbn [searchSteps totalSearchCount set_messages].
  destruct (start_tool_calls_steps _ _ _ _ Hstart Hrej) as (new & Hs & Hi & Hc).
  pose proof (resume_all_frame cfg (completion_order env ps) st1)
    as (_ & _ & _ & Hn & _). cbn zeta in Hn.
  rewrite Hn, resume_all_steps. split.
  - apply Forall_lookup. intros j s Hj.
    apply finish_all_lookup in Hj as (s0 & Hs0 & Hrun).
    destruct (is_running s) eqn:Hr; [|done].
    destruct (Hrun eq_refl) as [Hr0 Hnone]. rewrite Hs in Hs0.
    apply lookup_app_Some in Hs0 as [Hs0|[Hge Hs0]].
    + rewrite Forall_lookup in Hold. by rewrite (Hold _ _ Hs0) in Hr0.
    + assert (Hin : j ∈ omap pending_index ps).
      { rewrite Hi. apply elem_of_seq. apply lookup_lt_Some in Hs0. lia. }
      apply list_elem_of_omap in Hin as (p & Hp & Hpj).
      exfalso. apply (Hnone p); [|done]. by rewrite completion_order_perm.
  - rewrite (searching_steps_types _ (searchSteps st1))
      by apply finish_all_types.
    rewrite Hs, searching_steps_app. lia.
Qed.

End Steps.

Section StepsOfARun.

Variable env : Env.
Variable cfg : Config.

Lemma agentic_loop_steps st :
  Forall (λ s, is_running s = false) (searchSteps st) →
  searching_steps (searchSteps st) = totalSearchCount st →
  match agentic_loop env cfg (cfg_maxSteps cfg) st with
  | (None, st') =>
      Forall (λ s, is_running s = false) (searchSteps st') ∧
      searching_steps (searchSteps st') = totalSearchCount st'
  | (Some _, _) => True
  end.
Proof.
  intros Hrun Hcount.
  pose proof (agentic_loop_ind env cfg
    (λ s, Forall (λ s, is_running s = false) (searchSteps s) ∧
          searching_steps (searchSteps s) = totalSearchCount s)
    (λ o s, if o is None
            then Forall (λ s, is_running s = false) (searchSteps s) ∧
                 searching_steps (searchSteps s) = totalSearchCount s
            else True)) as Hind.
  specialize (Hind ltac:(done)).
  destruct (agentic_loop env cfg (cfg_maxSteps cfg) st) as [[e|] st'] eqn:Hloop;
    [done|].
  assert (Hgoal := λ H, Hind H (cfg_maxSteps cfg) st (conj Hrun Hcount) ltac:(lia)).
  rewrite Hloop in Hgoal. apply Hgoal. clear Hgoal Hind Hloop.
  intros s o [Hs Hn] _ Hstep.
  destruct (requested_frame env cfg s) as (_ & Hsteps & _ & _ & _ & Hcnt & _).
  destruct Hstep as [| | | | | |m tc calls s' _ _ Hround|]; try done;
    unfold recovering, force_continuation; cbn; autorewrite with frame;
    rewrite ?Hsteps, ?Hcnt; try done.
  apply tool_round_steps in Hround; cbn [searchSteps set_messages];
    rewrite ?Hsteps; [|done].
  cbn [searchSteps totalSearchCount set_messages] in Hround.
  rewrite Hcnt, Hsteps in Hround.
  destruct Hround as [? ?]. split; [done|lia].
Qed.

End StepsOfARun.

(** X3. In a result that [chat] returns no step is still running: every
    step opened for a tool call has been finished as done or as error.
    There is exactly one searching step for each counted search. *)
Theorem returned_steps_are_finished
    (env : Env) (message : string) (history : list Message)
    (arg : option OptionsArg) (sink : option ProgressSink) :
  match chat env message history arg sink with
  | chat_ok r =>
      Forall (λ s, status s = status_done ∨ status s = status_error)
        (res_searchSteps r) ∧
      searching_steps (res_searchSteps r) = totalSearches r
  | chat_failed _ => True
  end.
Proof.
  destruct (chat env message history arg sink) as [r|f] eqn:Hchat; [|done].
  unfold chat in Hchat. rewrite chat_run_unfold in Hchat.
  apply run_ok_inv in Hchat as (m & Hout & ->).
  destruct (start_state_frame env message history arg sink)
    as (_ & Hsteps & _ & _ & _ & Hn & _).
  set (cfg := run_config arg sink) in *.
  set (st := start_state env message history arg sink) in *.
  pose proof (agentic_loop_steps env cfg st) as Hloop.
  rewrite Hsteps, Hn in Hloop. specialize (Hloop (Forall_nil_2 _) eq_refl).
  destruct (agentic_loop env cfg (cfg_maxSteps cfg) st) as [[e|] st'];
    [done|]. destruct Hloop as [Hrun Hcount]. cbn. split; [|done].
  eapply Forall_impl; [exact Hrun|]. intros s. unfold is_running.
  destruct (status s); auto; done.
Qed.

(** ** Completion order *)

Section Latency.

Variable env : Env.
Variable cfg : Config.
Variable latency : nat → nat.



End Latency.


(** ** The transcript only grows *)

Section Growing.

Lemma growing_singleton (m : list Message) : growing [m].
Proof.
  intros [|i] [|j] a b _ Hi Hj; simplify_eq/=; done.
Qed.

Lemma growing_snoc (l : list (list Message)) (m m' : list Message) :
  growing (l ++ [m]) → m `prefix_of` m' → growing (l ++ [m; m']).
Proof.
  intros Hl Hm i j a b Hij Hi Hj.
  change (l ++ [m; m']) with (l ++ [m] ++ [m']) in *.
  rewrite app_assoc in Hi, Hj.
  assert (Hlast : (l ++ [m]) !! length l = Some m)
    by (rewrite lookup_app_r, Nat.sub_diag by lia; done).
  destruct (decide (j < length (l ++ [m]))) as [Hj'|Hj'].
  - rewrite lookup_app_l in Hi, Hj by lia. eauto.
  - rewrite lookup_app_r in Hj by lia.
    destruct (j - length (l ++ [m])) as [|k] eqn:Hk; [|done].
    simpl in Hj. simplify_eq.
    destruct (decide (i < length (l ++ [m]))) as [Hi'|Hi'].
    + rewrite lookup_app_l in Hi by lia. etrans; [|exact Hm].
      eapply (Hl i (length l)); [|done..].
      rewrite length_app in Hi'. simpl in Hi'. lia.
    + rewrite lookup_app_r in Hi by lia.
      destruct (i - length (l ++ [m])) as [|k'] eqn:Hk'; [|done].
      simpl in Hi. by simplify_eq.
Qed.

Lemma growing_last (l : list (list Message)) (m m' : list Message) :
  growing (l ++ [m]) → m `prefix_of` m' → growing (l ++ [m']).
Proof.
  intros Hl Hm i j a b Hij Hi Hj.
  assert (Hlast : (l ++ [m]) !! length l = Some m)
    by (rewrite lookup_app_r, Nat.sub_diag by lia; done).
  destruct (decide (j < length l)) as [Hj'|Hj'].
  - rewrite lookup_app_l in Hi, Hj by lia.
    eapply (Hl i j); [done|by rewrite lookup_app_l by lia..].
  - rewrite lookup_app_r in Hj by lia.
    destruct (j - length l) as [|k] eqn:Hk; [|done].
    simpl in Hj. simplify_eq.
    destruct (decide (i < length l)) as [Hi'|Hi'].
    + rewrite lookup_app_l in Hi by lia. etrans; [|exact Hm].
      eapply (Hl i (length l)); [lia| |done].
      by rewrite lookup_app_l by lia.
    + rewrite lookup_app_r in Hi by lia.
      destruct (i - length l) as [|k'] eqn:Hk'; [|done].
      simpl in Hi. by simplify_eq.
Qed.

Variable env : Env.
Variable cfg : Config.

(** What a pass does to the transcript and to the requests. *)
Lemma body_step_transcript st o :
  body_step env cfg st o →
  let st' := match o with continue s | break s | throw _ s => s end in
  messages st `prefix_of` messages st' ∧
  (transcripts st' = transcripts st ++ [messages st]
   ∨ transcripts st' = transcripts st ++ [messages st; messages st]).
Proof.
  intros Hstep. split.
  - destruct (requested_frame env cfg st) as (Hm & _).
    destruct Hstep as [| | | | | |m tc calls st' _ _ Hround
                       |m tc calls e st' _ _ Hround];
      unfold recovering, force_continuation; cbn; autorewrite with frame;
      rewrite ?Hm; try done.
    + by apply prefix_app_r.
    + apply tool_round_settled in Hround as ((msgs & -> & _) & _). cbn.
      rewrite Hm, <- app_assoc. by apply prefix_app_r.
    + apply tool_round_rejected in Hround as (_ & -> & _). cbn.
      rewrite Hm. by apply prefix_app_r.
  - destruct (requested_frame env cfg st) as (Hm & _).
    apply body_step_requests_shape in Hstep. cbn zeta in Hstep.
    unfold transcripts.
    destruct Hstep as [-> | ->]; rewrite fmap_app; cbn; rewrite ?Hm; auto.
Qed.

Lemma agentic_loop_growing init st :
  growing (init :: transcripts st ++ [messages st]) →
  growing (init :: transcripts (snd (agentic_loop env cfg (cfg_maxSteps cfg) st))
             ++ [messages (snd (agentic_loop env cfg (cfg_maxSteps cfg) st))]).
Proof.
  intros Hst.
  apply (agentic_loop_ind env cfg
           (λ s, growing (init :: transcripts s ++ [messages s]))
           (λ _ s, growing (init :: transcripts s ++ [messages s])));
    [done| |done|lia].
  intros s o Hs _ Hstep. apply body_step_transcript in Hstep.
  cbn zeta in Hstep. destruct Hstep as [Hpre Hreq].
  assert (∀ s', messages s `prefix_of` messages s' →
            (transcripts s' = transcripts s ++ [messages s]
             ∨ transcripts s' = transcripts s ++ [messages s; messages s]) →
            growing (init :: transcripts s' ++ [messages s'])) as Hgo.
  { intros s' Hp [-> | ->]; rewrite <- app_assoc; cbn [app].
    - by apply (growing_snoc (init :: transcripts s)).
    - replace (init :: transcripts s ++ [messages s; messages s; messages s'])
        with ((init :: transcripts s ++ [messages s])
                ++ [messages s; messages s'])
        by (cbn; by rewrite <- app_assoc).
      apply (growing_snoc (init :: transcripts s ++ [messages s])); [|done].
      replace ((init :: transcripts s ++ [messages s]) ++ [messages s])
        with ((init :: transcripts s) ++ [messages s; messages s])
        by (cbn; by rewrite <- app_assoc).
      by apply (growing_snoc (init :: transcripts s)). }
  destruct o; by apply Hgo.
Qed.

End Growing.

(** X4. The transcript of a run is append-only. The requests sent during
    a call to [chat], taken in order, carry transcripts of which each
    extends the one before; the first of them extends the transcript the
    call starts from and the transcript the call ends with extends the
    last. *)
Theorem transcript_only_grows
    (env : Env) (message : string) (history : list Message)
    (arg : option OptionsArg) (sink : option ProgressSink) :
  growing (first_messages env message history arg sink
             :: transcripts (final_state env message history arg sink)
             ++ [messages (final_state env message history arg sink)]).
Proof.
  unfold final_state. rewrite chat_run_unfold.
  set (cfg := run_config arg sink).
  set (st := start_state env message history arg sink).
  destruct (start_state_frame env message history arg sink)
    as (Hm & _ & _ & _ & _ & _ & _ & Hreq).
  fold st in Hm, Hreq.
  assert (Hinit : growing (first_messages env message history arg sink
                             :: transcripts st ++ [messages st])).
  { unfold transcripts. rewrite Hreq, Hm. cbn.
    change [first_messages env message history arg sink;
            initial_messages env (run_config arg sink) message history]
      with ([] ++ [first_messages env message history arg sink;
                   first_messages env message history arg sink]).
    apply (growing_snoc []); [apply growing_singleton|done]. }
  apply (agentic_loop_growing env cfg) in Hinit.
  pose proof (run_final env cfg st) as Hfin. cbn zeta in Hfin.
  destruct Hfin as (Hmf & _ & _ & _ & _ & Hrf).
  set (out := snd (agentic_loop env cfg (cfg_maxSteps cfg) st)) in *.
  rewrite Hmf. unfold transcripts in *.
  destruct Hrf as [-> | ->]; [done|].
  rewrite fmap_app, <- app_assoc. cbn [fmap list_fmap app req_messages synthesis_request].
  by apply (growing_snoc
              (first_messages env message history arg sink
                 :: (req_messages <$> requests out))).
Qed.

(** ** The tool choice of a request *)

Section Choice.

Variable env : Env.
Variable cfg : Config.

Lemma next_request_free st :
  1 ≤ iteration st → free_choice (next_request cfg st).
Proof.
  intros Hit. unfold free_choice, next_request, callOptions. cbn.
  destruct (iteration st) as [|n]; [lia|].
  destruct (length (cfg_tools cfg)); cbn; auto.
Qed.

Lemma agentic_loop_free st :
  iteration st = 0 → requests st = [] → 0 < cfg_maxSteps cfg →
  ∃ rest,
    requests (snd (agentic_loop env cfg (cfg_maxSteps cfg) st))
      = next_request cfg st :: rest ∧
    Forall free_choice rest.
Proof.
  intros Hit Hreq Hmax.
  apply (agentic_loop_ind env cfg
           (λ s, s = st ∨
                 1 ≤ iteration s ∧
                 ∃ rest, requests s = next_request cfg st :: rest
                         ∧ Forall free_choice rest)
           (λ _ s, ∃ rest, requests s = next_request cfg st :: rest
                           ∧ Forall free_choice rest));
    [| |by left|lia].
  - intros s [->|[_ ?]] ?; [lia|done].
  - intros s o Hs _ Hstep.
    pose proof (body_step_iteration env cfg s o Hstep) as Hnext.
    apply body_step_requests_shape in Hstep. cbn zeta in Hstep.
    assert (∀ s', (requests s' = requests s ++ [next_request cfg s]
                   ∨ requests s' = requests s ++
                       [next_request cfg s;
                        synthesis_request 7 (requested env cfg s)]) →
              ∃ rest, requests s' = next_request cfg st :: rest
                      ∧ Forall free_choice rest) as Hgo.
    { assert (Hsyn : ∀ t x, free_choice (synthesis_request t x)) by (by left).
      intros s' Hs'. destruct Hs as [->|(Hpos & rest & Hrest & Hfree)].
      - rewrite Hreq in Hs'. destruct Hs' as [-> | ->]; eexists;
          (split; [done|]); auto using Forall_cons_2, Forall_nil_2.
      - rewrite Hrest in Hs'. destruct Hs' as [-> | ->]; eexists;
          (split; [by rewrite <- app_comm_cons|]);
          apply Forall_app; split; try done;
          auto using Forall_cons_2, Forall_nil_2, next_request_free. }
    destruct o as [s'|s'|e s']; [right; split; [lia|] | |]; by apply Hgo.
Qed.

Lemma run_requests_first st :
  iteration st = 0 → requests st = [] → 0 < cfg_maxSteps cfg →
  ∃ rest,
    requests (snd (run env cfg st)) = next_request cfg st :: rest ∧
    Forall free_choice rest.
Proof.
  intros Hit Hreq Hmax.
  destruct (agentic_loop_free st Hit Hreq Hmax) as (rest & Hout & Hfree).
  pose proof (run_final env cfg st) as Hfin. cbn zeta in Hfin.
  destruct Hfin as (_ & _ & _ & _ & _ & [-> | ->]); rewrite Hout.
  - by exists rest.
  - exists (rest ++ [synthesis_request 5
                       (snd (agentic_loop env cfg (cfg_maxSteps cfg) st))]).
    split; [done|]. apply Forall_app. split; [done|].
    apply Forall_cons_2; [by left|apply Forall_nil_2].
Qed.

End Choice.

Lemma chat_requests_first
    (env : Env) (message : string) (history : list Message)
    (arg : option OptionsArg) (sink : option ProgressSink) :
  ∃ rest,
    requests (snd (chat_run env message history arg sink))
      = first_request env message history arg sink :: rest ∧
    Forall free_choice rest.
Proof.
  rewrite chat_run_unfold.
  destruct (start_state_frame env message history arg sink)
    as (_ & _ & _ & Hit & _ & _ & _ & Hreq).
  apply run_requests_first; [done|done|].
  rewrite maxSteps_config.
  destruct (cfg_isDeepResearch (run_config arg sink)); lia.
Qed.

(** X5. Only the first request of a call to [chat] can force a tool:
    every later request, the recovery and the synthesis requests included,
    either names no tool choice or leaves the choice to the model. A call
    always sends a first request, and that request forces web_search
    exactly when [forceSearch] is set and there is no context. *)
Theorem tool_choice_forced_at_most_once
    (env : Env) (message : string) (history : list Message)
    (arg : option OptionsArg) (sink : option ProgressSink) :
  (∃ rest,
     requests (final_state env message history arg sink)
       = first_request env message history arg sink :: rest ∧
     Forall free_choice rest) ∧
  (req_tool_choice (first_request env message history arg sink)
     = Some (choice_function "web_search")
   ↔ cfg_forceSearch (run_config arg sink) = true
     ∧ cfg_context (run_config arg sink) = "").
Proof.
  split; [apply chat_requests_first|].
  unfold first_request, next_request, callOptions.
  destruct (start_state_frame env message history arg sink)
    as (_ & _ & _ & Hit & _).
  cbn [req_tool_choice iteration set_iteration]. rewrite Hit.
  unfold run_config, configure. cbn.
  destruct (default false (forceSearch (normalize arg)));
    destruct (String.eqb_spec (default "" (context (normalize arg))) "")
      as [->|Hne];
    destruct (default false (isDeepResearch (normalize arg))); cbn;
    split; try done; intros [? ?]; done.
Qed.

(** ** Calls that throw, calls that are not run *)

Section Rejections.

Variable env : Env.
Variable cfg : Config.

Lemma start_tool_call_not_run tc st :
  not_run env tc = true →
  start_tool_call env cfg tc st = (resolved (refusal env tc), st).
Proof.
  unfold not_run, start_tool_call, refusal.
  destruct (JSON_parse env (tc_arguments tc)); [|done].
  intros [Hw Hb]%andb_prop.
  apply negb_true_iff in Hw, Hb. by rewrite Hw, Hb.
Qed.

Lemma start_tool_calls_not_run calls : ∀ st,
  forallb (not_run env) calls = true →
  start_tool_calls env cfg calls st = (resolved <$> (refusal env <$> calls), st).
Proof.
  induction calls as [|tc calls IH]; intros st H; [done|].
  simpl in H. apply andb_prop in H as [Htc Hcalls]. simpl.
  by rewrite start_tool_call_not_run, IH.
Qed.

Lemma resume_all_resolved ps : ∀ st,
  Forall (λ p, ∃ m, p = resolved m) ps →
  foldl (λ st p, resume cfg p st) st ps = st.
Proof.
  induction ps as [|p ps IH]; intros st H; [done|].
  inversion H as [|? ? [m ->] Hps]; subst. simpl. by apply IH.
Qed.

End Rejections.

(** X6. A round of tool calls is rejected exactly when one of its calls
    throws before its first [await]: a call to web_search or
    browser_extract whose arguments parse to [null]; a web_search call
    whose query, or outside deep research whose search depth, is an object
    or array that cannot be turned into text for the progress event; a
    browser_extract call whose [urls] is not an array, or is an array
    holding an entry that cannot be turned into text. What is thrown is a
    [TypeError], and the transcript is left as it was. *)
Theorem round_rejected_iff_a_call_throws
    (env : Env) (cfg : Config) (calls : list ToolCall) (st : RunState) :
  fst (tool_round env cfg calls st) =
    (if existsb (rejects env cfg) calls then Some type_error else None) ∧
  (existsb (rejects env cfg) calls = true →
   messages (snd (tool_round env cfg calls st)) = messages st).
Proof.
  pose proof (start_tool_calls_rejects env cfg calls st) as Hrej.
  split.
  - unfold tool_round.
    destruct (start_tool_calls env cfg calls st) as [ps st1]. cbn [fst] in Hrej.
    rewrite Hrej. by destruct (existsb (rejects env cfg) calls).
  - intros Hex.
    destruct (tool_round env cfg calls st) as [[e|] st'] eqn:Hround.
    + cbn [snd]. by apply tool_round_rejected in Hround as (_ & -> & _).
    + exfalso. unfold tool_round in Hround.
      destruct (start_tool_calls env cfg calls st) as [ps st1].
      cbn [fst] in Hrej. rewrite Hrej, Hex in Hround. done.
Qed.

(** X7. When the first reply carries a call that throws before its first
    [await], the whole call to [chat] fails, with the generic provider
    failure: no answer is produced although the provider answered. *)
Theorem throwing_call_fails_the_chat
    (env : Env) (message : string) (history : list Message)
    (arg : option OptionsArg) (sink : option ProgressSink)
    (m : AssistantMessage) (calls : list ToolCall) :
  first_reply env message history arg sink = inl m →
  am_tool_calls m = Some calls →
  existsb (rejects env (run_config arg sink)) calls = true →
  chat env message history arg sink = chat_failed unavailable.
Proof.
  intros Hreply Hcalls Hex. unfold chat. rewrite chat_run_unfold.
  set (cfg := run_config arg sink) in *.
  set (st := start_state env message history arg sink).
  rewrite <- first_reply_next in Hreply. fold cfg st in Hreply.
  destruct calls as [|tc calls]; [done|].
  pose proof (loop_body_tools env cfg st m tc calls Hreply Hcalls) as Hbody.
  pose proof (start_tool_calls_rejects env cfg (tc :: calls)
                (set_messages (λ ms, ms ++ [as_message m]) (requested env cfg st)))
    as Hrej.
  unfold tool_round in Hbody.
  destruct (start_tool_calls env cfg (tc :: calls) _) as [ps st1].
  cbn [fst] in Hrej. rewrite Hrej, Hex in Hbody.
  assert (Hlt : iteration st < cfg_maxSteps cfg).
  { destruct (start_state_frame env message history arg sink)
      as (_ & _ & _ & Hit & _).
    fold st in Hit. rewrite Hit. unfold cfg. rewrite maxSteps_config.
    destruct (cfg_isDeepResearch (run_config arg sink)); lia. }
  pose proof (agentic_loop_throw env cfg st _ _ Hlt Hbody) as Hloop.
  by destruct (run_thrown env cfg st _ _ Hloop) as [-> _].
Qed.

(** X8. Calls that are not run change nothing but the transcript. A round
    whose calls all have arguments that do not parse or name a tool other
    than web_search and browser_extract settles; it opens no step, counts
    no search, calls no backend, reads no clock and reports no event; each
    call is answered in call order with [Invalid JSON arguments.] or
    [Unknown tool.]. *)
Theorem calls_not_run_only_answered
    (env : Env) (cfg : Config) (calls : list ToolCall) (st : RunState) :
  forallb (not_run env) calls = true →
  tool_round env cfg calls st =
  (None, set_messages (λ ms, ms ++ (refusal env <$> calls)) st).
Proof.
  intros Hall. unfold tool_round.
  rewrite (start_tool_calls_not_run env cfg calls st Hall).
  assert (Hres : Forall (λ p, ∃ m, p = resolved m)
                   (resolved <$> (refusal env <$> calls)))
    by (apply Forall_fmap, Forall_true; intros m'; by eexists).
  assert (Hnone : first_rejection (resolved <$> (refusal env <$> calls)) = None)
    by (clear; induction calls; [done|]; simpl; auto).
  rewrite Hnone, resume_all_resolved.
  - assert (Hmsgs : ∀ ms : list Message,
              omap result_message (resolved <$> ms) = ms)
      by (induction ms as [|? ? IH]; [done|]; cbn; by rewrite IH).
    by rewrite Hmsgs.
  - by rewrite completion_order_perm.
Qed.

(** ** The events of a run *)

Section Events.

Variable env : Env.
Variable cfg : Config.

Lemma reported_refl st : reported st st.
Proof. exists []. by rewrite app_nil_r. Qed.

Lemma reported_trans st1 st2 st3 :
  reported st1 st2 → reported st2 st3 → reported st1 st3.
Proof.
  intros (new & H1 & Hq) (new' & H2 & Hq'). exists (new ++ new').
  rewrite H2, H1, <- app_assoc. split; [done|]. by apply Forall_app.
Qed.

Lemma reported_same st st' : events st' = events st → reported st st'.
Proof. intros H. exists []. by rewrite app_nil_r. Qed.

Lemma emit_reported type step st0 st :
  reports {| ev_type := type; ev_step := step |} = true →
  reported st0 st → reported st0 (emit cfg type step st).
Proof.
  intros H Hst. eapply reported_trans; [exact Hst|].
  rewrite emit_unfold. destruct (cfg_onProgress cfg); [|apply reported_refl].
  eexists [_]. split; [done|]. by apply Forall_cons_2.
Qed.

(** Setters other than [emit] leave the events alone, so that [cbn]
    strips them from a goal. *)
Ltac quiet :=
  unfold reported; cbn;
  repeat first [ apply reported_refl
               | apply emit_reported; [done|]
               | by apply reported_same ].

Lemma start_tool_call_reported tc st :
  reported st (snd (start_tool_call env cfg tc st)).
Proof.
  unfold start_tool_call.
  destruct (JSON_parse env (tc_arguments tc)) as [args|]; [|apply reported_refl].
  destruct (String.eqb (tc_name tc) "web_search").
  { unfold start_web_search, now.
    destruct args; cbv beta iota zeta; try apply reported_refl;
      destruct (text_throws _ || to_string_throws _); quiet. }
  destruct (String.eqb (tc_name tc) "browser_extract"); [|apply reported_refl].
  unfold start_browser_extract, now.
  destruct args as [| | | | |props]; [quiet..|].
  cbn. destruct (assoc "urls" props) as [[| | | |items|more]|];
    try destruct (existsb to_string_throws items);
    try destruct (text_throws (assoc "length" more)); quiet.
Qed.

Lemma start_tool_calls_reported calls : ∀ st,
  reported st (snd (start_tool_calls env cfg calls st)).
Proof.
  induction calls as [|tc calls IH]; intros st; [apply reported_refl|]. simpl.
  pose proof (start_tool_call_reported tc st) as H1.
  destruct (start_tool_call env cfg tc st) as [p st1].
  specialize (IH st1).
  destruct (start_tool_calls env cfg calls st1) as [ps st2].
  by eapply reported_trans.
Qed.

(** A started callback waits on a step of its kind, and steps are only
    ever appended. *)
Lemma start_tool_call_pending tc st :
  let started := start_tool_call env cfg tc st in
  searchSteps st `prefix_of` searchSteps (snd started) ∧
  pending_ok (step_type <$> searchSteps (snd started)) (fst started).
Proof.
  unfold start_tool_call.
  destruct (JSON_parse env (tc_arguments tc)) as [args|]; [|done].
  destruct (String.eqb (tc_name tc) "web_search").
  { unfold start_web_search, now.
    destruct args; cbv beta iota zeta; try done;
      destruct (text_throws _ || to_string_throws _);
      cbn; autorewrite with frame; cbn;
      (split; [try done; by apply prefix_app_r|]); try done;
      rewrite list_lookup_fmap, lookup_app_r, Nat.sub_diag by done;
      cbn; eauto. }
  destruct (String.eqb (tc_name tc) "browser_extract"); [|done].
  unfold start_browser_extract, now.
  destruct args as [| | | | |props]; cbn;
    try (split; [try done; by apply prefix_app_r|done]).
  destruct (assoc "urls" props) as [[| | | |items|more]|];
    try destruct (existsb to_string_throws items);
    try destruct (text_throws (assoc "length" more));
    cbn; autorewrite with frame; cbn;
    (split; [by apply prefix_app_r|]); try done.
  rewrite list_lookup_fmap, lookup_app_r, Nat.sub_diag by done. cbn. eauto.
Qed.

Lemma fmap_prefix_of {A B} (f : A → B) (l l' : list A) :
  l `prefix_of` l' → f <$> l `prefix_of` f <$> l'.
Proof. intros [k ->]. exists (f <$> k). by rewrite fmap_app. Qed.

Lemma pending_ok_mono types types' p :
  types `prefix_of` types' → pending_ok types p → pending_ok types' p.
Proof.
  intros Hpre. destruct p as [| |tc i c r|tc i c r]; cbn; try done.
  - intros (q & t & d & H). exists q, t, d. by eapply prefix_lookup_Some.
  - intros (u & H). exists u. by eapply prefix_lookup_Some.
Qed.

Lemma start_tool_calls_pending calls : ∀ st,
  let started := start_tool_calls env cfg calls st in
  searchSteps st `prefix_of` searchSteps (snd started) ∧
  Forall (pending_ok (step_type <$> searchSteps (snd started))) (fst started).
Proof.
  induction calls as [|tc calls IH]; intros st; cbn zeta; [by cbn|]. simpl.
  pose proof (start_tool_call_pending tc st) as [Hpre Hp]. cbn zeta in *.
  destruct (start_tool_call env cfg tc st) as [p st1].
  destruct (IH st1) as [Hpre' Hps]. cbn zeta in *.
  destruct (start_tool_calls env cfg calls st1) as [ps st2].
  cbn [fst snd] in *. split; [by etrans|].
  apply Forall_cons_2; [|done].
  eapply pending_ok_mono; [|exact Hp]. by apply fmap_prefix_of.
Qed.

Lemma resume_types p st :
  step_type <$> searchSteps (resume cfg p st) = step_type <$> searchSteps st.
Proof. by rewrite resume_steps, finish_step_types. Qed.

Lemma resume_reported p st :
  pending_ok (step_type <$> searchSteps st) p → reported st (resume cfg p st).
Proof.
  destruct p as [| |tc i c r|tc i c r]; cbn; try (intros; apply reported_refl).
  - intros (q & t & d & H). rewrite list_lookup_fmap in H.
    destruct (searchSteps st !! i) as [s|] eqn:Hs; [|done].
    injection H as Htype.
    assert (reported st
              (emit cfg ev_search_complete (Some (finish_search_step r s))
                 (set_searchSteps (alter (finish_search_step r) i) st))).
    { apply emit_reported; [|by apply reported_same].
      unfold reports, is_searching, is_running. cbn. rewrite Htype.
      by destruct r. }
    rewrite list_lookup_alter_eq, Hs. cbn.
    destruct r; [|done]. unfold reported in *. by cbn.
  - intros (u & H). rewrite list_lookup_fmap in H.
    destruct (searchSteps st !! i) as [s|] eqn:Hs; [|done].
    injection H as Htype.
    rewrite list_lookup_alter_eq, Hs. cbn.
    apply emit_reported; [|by apply reported_same].
    unfold reports, is_searching, is_running. cbn. rewrite Htype.
    by destruct r.
Qed.

Lemma resume_all_reported ps : ∀ st,
  Forall (pending_ok (step_type <$> searchSteps st)) ps →
  reported st (foldl (λ st p, resume cfg p st) st ps).
Proof.
  induction ps as [|p ps IH]; intros st Hps; [apply reported_refl|]. simpl.
  apply Forall_cons in Hps as [Hp Hps].
  eapply reported_trans; [by apply resume_reported|].
  apply IH. by rewrite resume_types.
Qed.

Lemma tool_round_reported calls st :
  reported st (snd (tool_round env cfg calls st)).
Proof.
  unfold tool_round.
  pose proof (start_tool_calls_reported calls st) as Hstart.
  pose proof (start_tool_calls_pending calls st) as [_ Hps]. cbn zeta in Hps.
  destruct (start_tool_calls env cfg calls st) as [ps st1].
  cbn [fst snd] in Hstart, Hps.
  destruct (first_rejection ps).
  { assert (Hres : reported st1
                     (foldl (λ st p, resume cfg p st) st1
                        (filter (answered_at_once env) ps))).
    { apply resume_all_reported. by apply Forall_filter_of. }
    unfold reported. cbn. by eapply reported_trans. }
  assert (Hres : reported st1
                   (foldl (λ st p, resume cfg p st) st1 (completion_order env ps))).
  { apply resume_all_reported. by rewrite completion_order_perm. }
  unfold reported. cbn. by eapply reported_trans.
Qed.

Lemma requested_reported st : reported st (requested env cfg st).
Proof. unfold requested, create. cbn. destruct (iteration st); quiet. Qed.

Lemma body_step_reported st o :
  body_step env cfg st o →
  reported st match o with continue s | break s | throw _ s => s end.
Proof.
  pose proof (requested_reported st) as Hreq.
  assert (Hround : ∀ m calls,
            reported st
              (snd (tool_round env cfg calls
                      (set_messages (λ ms, ms ++ [as_message m])
                         (requested env cfg st))))).
  { intros m calls. eapply reported_trans; [|apply tool_round_reported].
    unfold reported. cbn. exact Hreq. }
  destruct 1 as [| | | | | |m tc calls st' _ _ H|m tc calls e st' _ _ H];
    try (specialize (Hround m (tc :: calls)); by rewrite H in Hround);
    unfold recovering, force_continuation; quiet; exact Hreq.
Qed.

Lemma agentic_loop_reported st :
  reported st (snd (agentic_loop env cfg (cfg_maxSteps cfg) st)).
Proof.
  apply (agentic_loop_ind env cfg (reported st) (λ _, reported st));
    [done| |apply reported_refl|lia].
  intros s o Hs _ Hstep. apply body_step_reported in Hstep.
  destruct o; by eapply reported_trans.
Qed.

Lemma synthesize_reported st : reported st (snd (synthesize env cfg st)).
Proof.
  unfold synthesize, create. destruct (lastAssistantMessage st); cbn.
  - destruct (totalSearchCount st); quiet.
  - destruct (groq_create env _ _); quiet.
Qed.

(** *** Callbacks left waiting *)

Lemma start_tool_call_in_flight tc st :
  in_flight (snd (start_tool_call env cfg tc st)) = in_flight st.
Proof.
  unfold start_tool_call.
  destruct (JSON_parse env (tc_arguments tc)) as [args|]; [|done].
  destruct (String.eqb (tc_name tc) "web_search").
  { unfold start_web_search, now.
    destruct args; cbv beta iota zeta; try done;
      destruct (text_throws _ || to_string_throws _);
      cbn; by autorewrite with frame. }
  destruct (String.eqb (tc_name tc) "browser_extract"); [|done].
  unfold start_browser_extract, now.
  destruct args as [| | | | |props]; cbn; try done.
  destruct (assoc "urls" props) as [[| | | |items|more]|];
    try destruct (existsb to_string_throws items);
    try destruct (text_throws (assoc "length" more));
    cbn; by autorewrite with frame.
Qed.

Lemma start_tool_calls_in_flight calls : ∀ st,
  in_flight (snd (start_tool_calls env cfg calls st)) = in_flight st.
Proof.
  induction calls as [|tc calls IH]; intros st; [done|]. simpl.
  pose proof (start_tool_call_in_flight tc st) as H1.
  destruct (start_tool_call env cfg tc st) as [p st1].
  specialize (IH st1).
  destruct (start_tool_calls env cfg calls st1) as [ps st2].
  cbn [snd] in *. congruence.
Qed.

Lemma resume_in_flight p st : in_flight (resume cfg p st) = in_flight st.
Proof.
  destruct p as [| | ? ? ? []| ? ? ? []]; cbn; by autorewrite with frame.
Qed.

Lemma resume_all_in_flight ps : ∀ st,
  in_flight (foldl (λ st p, resume cfg p st) st ps) = in_flight st.
Proof.
  induction ps as [|p ps IH]; intros st; simpl; [done|].
  by rewrite IH, resume_in_flight.
Qed.

Lemma late_waits p : answered_at_once env p = false → waits p.
Proof.
  unfold answered_at_once, latency, waits.
  destruct (backend_call p); [by eauto|done].
Qed.

(** A settled round leaves no callback behind; the callbacks a rejected
    round leaves behind wait on steps of their kinds. *)
Lemma tool_round_left calls st :
  in_flight st = [] →
  left_waiting (snd (tool_round env cfg calls st)) ∧
  (fst (tool_round env cfg calls st) = None →
   in_flight (snd (tool_round env cfg calls st)) = []).
Proof.
  intros Hst. unfold tool_round, left_waiting.
  pose proof (start_tool_calls_in_flight calls st) as Hfl.
  pose proof (start_tool_calls_pending calls st) as [_ Hps]. cbn zeta in Hps.
  destruct (start_tool_calls env cfg calls st) as [ps st1].
  cbn [fst snd] in *. rewrite Hst in Hfl.
  destruct (first_rejection ps); cbn [fst snd in_flight searchSteps
                                       set_in_flight set_messages].
  - rewrite resume_all_in_flight, Hfl, resume_all_steps, finish_all_types.
    split; [|done]. cbn [app]. rewrite completion_order_perm.
    apply Forall_forall. intros p [Hlate Hp]%list_elem_of_filter.
    split.
    + apply late_waits. by destruct (answered_at_once env p).
    + rewrite Forall_forall in Hps. by apply Hps.
  - rewrite resume_all_in_flight, Hfl. split; [apply Forall_nil_2|done].
Qed.

Lemma requested_in_flight st : in_flight (requested env cfg st) = in_flight st.
Proof.
  unfold requested, create. cbn.
  destruct (iteration st); cbn; by autorewrite with frame.
Qed.

Lemma agentic_loop_left st :
  in_flight st = [] →
  left_waiting (snd (agentic_loop env cfg (cfg_maxSteps cfg) st)) ∧
  (fst (agentic_loop env cfg (cfg_maxSteps cfg) st) = None →
   in_flight (snd (agentic_loop env cfg (cfg_maxSteps cfg) st)) = []).
Proof.
  intros Hst.
  assert (Hnone : ∀ s, in_flight s = [] → left_waiting s)
    by (intros s Hs; unfold left_waiting; rewrite Hs; apply Forall_nil_2).
  apply (agentic_loop_ind env cfg (λ s, in_flight s = [])
           (λ o s, left_waiting s ∧ (o = None → in_flight s = [])));
    [by auto| |done|lia].
  intros s o Hs _ Hstep.
  pose proof (requested_in_flight s) as Hreq. rewrite Hs in Hreq.
  assert (Hround : ∀ m : AssistantMessage,
            in_flight (set_messages (λ ms, ms ++ [as_message m])
                         (requested env cfg s)) = []) by done.
  destruct Hstep as [| | | | | |m tc calls s' _ _ H|m tc calls e s' _ _ H].
  1-6: unfold recovering, force_continuation; cbn; autorewrite with frame;
    rewrite ?Hreq; try done; split; auto;
    apply Hnone; cbn; by autorewrite with frame.
  - destruct (tool_round_left (tc :: calls) _ (Hround m)) as [_ Hl].
    rewrite H in Hl. by apply Hl.
  - destruct (tool_round_left (tc :: calls) _ (Hround m)) as [Hl _].
    rewrite H in Hl. by split.
Qed.

(** What comes after the loop leaves the waiting callbacks and the steps
    as they are. *)
Lemma run_left st :
  in_flight st = [] →
  left_waiting (snd (run env cfg st)) ∧
  (∀ r, fst (run env cfg st) = chat_ok r → in_flight (snd (run env cfg st)) = []).
Proof.
  intros Hst. destruct (agentic_loop_left st Hst) as [Hleft Hnone].
  assert (Hfin : in_flight (snd (run env cfg st))
                 = in_flight (snd (agentic_loop env cfg (cfg_maxSteps cfg) st))).
  { unfold run.
    destruct (agentic_loop env cfg (cfg_maxSteps cfg) st) as [[e|] st1]; simpl.
    { unfold fail; simpl. by autorewrite with frame. }
    assert (Hsyn : in_flight (snd (synthesize env cfg st1)) = in_flight st1).
    { unfold synthesize, create. destruct (lastAssistantMessage st1); simpl.
      - destruct (Nat.ltb 0 (totalSearchCount st1)); by autorewrite with frame.
      - destruct (groq_create _ _ _); simpl; by autorewrite with frame. }
    destruct (synthesize env cfg st1) as [[e|] st2]; simpl in *.
    { unfold fail; simpl. by autorewrite with frame. }
    unfold assemble. autorewrite with frame.
    destruct (lastAssistantMessage st2); simpl; unfold fail; simpl;
      by autorewrite with frame. }
  destruct (run_final env cfg st) as (_ & _ & Hsteps & _).
  split.
  - unfold left_waiting in *. by rewrite Hfin, Hsteps.
  - intros r (m & Hloop & _)%run_ok_inv. rewrite Hfin. by apply Hnone.
Qed.

(** A waiting callback that resumes reports the end of its step. *)
Lemma resume_completes f p st :
  cfg_onProgress cfg = Some f →
  waits p → pending_ok (step_type <$> searchSteps st) p →
  ∃ e, events (resume cfg p st) = events st ++ [e] ∧
       completion e = true ∧ reports e = true.
Proof.
  intros Hsink Hw.
  destruct p as [| |tc i c r|tc i c r]; cbn; try by destruct Hw.
  - intros (q & t & d & H). rewrite list_lookup_fmap in H.
    destruct (searchSteps st !! i) as [s|] eqn:Hs; [|done].
    injection H as Htype.
    rewrite list_lookup_alter_eq, Hs. cbn.
    exists {| ev_type := ev_search_complete;
              ev_step := Some (finish_search_step r s) |}.
    split_and!; [|done|].
    + destruct r; cbn; rewrite emit_unfold, Hsink; done.
    + unfold reports, is_searching, is_running. cbn. rewrite Htype.
      by destruct r.
  - intros (u & H). rewrite list_lookup_fmap in H.
    destruct (searchSteps st !! i) as [s|] eqn:Hs; [|done].
    injection H as Htype.
    rewrite list_lookup_alter_eq, Hs. cbn.
    exists {| ev_type := ev_reading_complete;
              ev_step := Some (finish_extract_step r s) |}.
    split_and!; [|done|].
    + rewrite emit_unfold, Hsink; done.
    + unfold reports, is_searching, is_running. cbn. rewrite Htype.
      by destruct r.
Qed.

Lemma resume_all_completes f ps : ∀ st,
  cfg_onProgress cfg = Some f →
  Forall (λ p, waits p ∧ pending_ok (step_type <$> searchSteps st) p) ps →
  ∃ late,
    events (foldl (λ st p, resume cfg p st) st ps) = events st ++ late ∧
    Forall (λ e, completion e = true ∧ reports e = true) late ∧
    length late = length ps.
Proof.
  induction ps as [|p ps IH]; intros st Hsink Hps.
  { exists []. by rewrite app_nil_r. }
  apply Forall_cons in Hps as [[Hw Hp] Hps]. simpl.
  destruct (resume_completes f p st Hsink Hw Hp) as (e & He & Hc & Hr).
  destruct (IH (resume cfg p st) Hsink) as (late & Hl & Hq & Hn).
  { by rewrite resume_types. }
  exists (e :: late). rewrite Hl, He, <- app_assoc. cbn.
  split_and!; [done| |by rewrite Hn]. by apply Forall_cons_2.
Qed.

Lemma aftermath_completes f st :
  cfg_onProgress cfg = Some f → left_waiting st →
  ∃ late,
    events (aftermath cfg st) = events st ++ late ∧
    Forall (λ e, completion e = true ∧ reports e = true) late ∧
    length late = length (in_flight st).
Proof.
  intros Hsink Hleft. unfold aftermath. cbn [events set_in_flight].
  by apply (resume_all_completes f).
Qed.

(** How a run closes its events. *)
Lemma run_closes st f :
  cfg_onProgress cfg = Some f →
  ∃ mid,
    events (snd (run env cfg st)) =
      events st ++ mid ++ [closing_event (fst (run env cfg st))] ∧
    Forall (λ e, reports e = true) mid.
Proof.
  intros Hsink. unfold run.
  destruct (agentic_loop_reported st) as (new & Hev & Hq).
  destruct (agentic_loop env cfg (cfg_maxSteps cfg) st) as [[e|] st1];
    cbn [snd] in Hev.
  { exists new. unfold fail. rewrite emit_unfold, Hsink. cbn.
    by rewrite Hev, <- app_assoc. }
  destruct (synthesize_reported st1) as (new' & Hev' & Hq').
  pose proof (synthesize_cases env cfg st1) as Hcases.
  destruct (synthesize env cfg st1) as [[e|] st2]; cbn [fst snd] in *.
  { exists (new ++ new'). unfold fail. rewrite emit_unfold, Hsink. cbn.
    rewrite Hev', Hev, <- !app_assoc. split; [done|]. by apply Forall_app. }
  assert (Hlast : ∃ m, lastAssistantMessage st2 = Some m).
  { destruct (lastAssistantMessage st1) as [m|].
    - destruct Hcases as (_ & ? & _). eauto.
    - destruct Hcases as [_ Hcases].
      destruct (groq_create env _ _) as [m|]; [|done].
      destruct Hcases as [_ ?]. eauto. }
  destruct Hlast as [m Hlast].
  exists (new ++ new'). unfold assemble. rewrite emit_unfold, Hsink. cbn.
  rewrite Hlast. cbn. rewrite Hev', Hev, <- !app_assoc.
  split; [done|]. by apply Forall_app.
Qed.

End Events.

(** X9. What a progress sink is told. By the time [chat] returns, the
    first event is [thinking] and the last is [complete] when [chat]
    returns a result and [error] when it returns a failure; no event before
    the last is of these two types, and every event in between reports:
    [searching] and [reading] carry the step just opened, still running;
    [search_complete] and [reading_complete] carry that step finished, a
    search with its result count; [thinking] and [synthesizing] carry no
    step. After a result nothing follows, no callback being left waiting.
    After a failure the callbacks that a rejected round left waiting still
    report, each the end of its step when its answer comes: these events
    follow the closing [error]. *)
Theorem events_open_report_and_close
    (env : Env) (message : string) (history : list Message)
    (arg : option OptionsArg) (f : ProgressSink) :
  (∃ mid,
     events (final_state env message history arg (Some f)) =
       opening_event :: mid
       ++ [closing_event (chat env message history arg (Some f))] ∧
     Forall (λ e, reports e = true ∧ terminal e = false) mid) ∧
  (∀ r, chat env message history arg (Some f) = chat_ok r →
        in_flight (final_state env message history arg (Some f)) = []) ∧
  ∃ late,
    events (aftermath (run_config arg (Some f))
              (final_state env message history arg (Some f))) =
      events (final_state env message history arg (Some f)) ++ late ∧
    Forall (λ e, completion e = true ∧ reports e = true) late ∧
    length late =
      length (in_flight (final_state env message history arg (Some f))).
Proof.
  unfold final_state, chat. rewrite chat_run_unfold.
  set (cfg := run_config arg (Some f)).
  destruct (start_state_log env message history arg (Some f)) as [_ Hfl].
  set (st := start_state env message history arg (Some f)) in *.
  destruct (run_left env cfg st Hfl) as [Hleft Hnone].
  split_and!; [|done|by apply (aftermath_completes cfg f)].
  destruct (run_closes env cfg st f eq_refl) as (mid & Hev & Hq).
  assert (Hmid : Forall (λ e, reports e = true ∧ terminal e = false) mid).
  { eapply Forall_impl; [exact Hq|]. intros [[] [s|]]; by cbn. }
  assert (Hst : events st = [opening_event]
                ∨ events st = [opening_event; opening_event]).
  { unfold st, start_state, initial_state. rewrite !emit_unfold. cbn.
    destruct (String.eqb _ ""); cbn; auto. }
  destruct Hst as [Hst|Hst]; rewrite Hst in Hev.
  - by exists mid.
  - exists (opening_event :: mid). split; [done|]. by apply Forall_cons_2.
Qed.

(** A round rejected beside a search. When the answer to the search is
    there at once, the search reports its end before the closing [error];
    when it comes later, the callback is left waiting and reports after
    the closing [error]. *)
Example rejected_round_sample :
  ev_type <$> events (final_state Samples.search_beside_null "What is bitcoin?"
                        [] None (Some Samples.quiet_sink))
    = [ev_thinking; ev_searching; ev_search_complete; ev_error] ∧
  in_flight (final_state Samples.search_beside_null "What is bitcoin?" [] None
               (Some Samples.quiet_sink)) = [] ∧
  ev_type <$> events (final_state
                        (with_latency Samples.search_beside_null (λ _, 1))
                        "What is bitcoin?" [] None (Some Samples.quiet_sink))
    = [ev_thinking; ev_searching; ev_error] ∧
  ev_type <$> events (aftermath (run_config None (Some Samples.quiet_sink))
                        (final_state
                           (with_latency Samples.search_beside_null (λ _, 1))
                           "What is bitcoin?" [] None (Some Samples.quiet_sink)))
    = [ev_thinking; ev_searching; ev_error; ev_search_complete].
Proof. split_and!; vm_compute; reflexivity. Qed.

(** ** Backend calls and steps *)

Section Backend.

Variable env : Env.
Variable cfg : Config.

Lemma start_tool_call_backend tc st :
  let started := start_tool_call env cfg tc st in
  tavily_calls (snd started) + length (searchSteps st)
    ≤ tavily_calls st + length (searchSteps (snd started)) ∧
  (first_rejection [fst started] = None →
   tavily_calls (snd started) + length (searchSteps st)
     = tavily_calls st + length (searchSteps (snd started))).
Proof.
  unfold start_tool_call.
  destruct (JSON_parse env (tc_arguments tc)) as [args|]; [|cbn; lia].
  destruct (String.eqb (tc_name tc) "web_search").
  { unfold start_web_search, now.
    destruct args; cbv beta iota zeta; try (cbn; lia);
      destruct (text_throws _ || to_string_throws _);
      cbn; autorewrite with frame; cbn; rewrite ?length_app;
      cbn; split; try done; lia. }
  destruct (String.eqb (tc_name tc) "browser_extract"); [|cbn; lia].
  unfold start_browser_extract, now.
  destruct args as [| | | | |props]; cbn; rewrite ?length_app; cbn;
    try (split; [lia|done]).
  destruct (assoc "urls" props) as [[| | | |items|more]|];
    try destruct (existsb to_string_throws items);
    try destruct (text_throws (assoc "length" more));
    cbn; autorewrite with frame; cbn;
    rewrite ?length_app; cbn; split; try done; lia.
Qed.

Lemma resume_all_length ps st :
  length (searchSteps (foldl (λ st p, resume cfg p st) st ps))
  = length (searchSteps st).
Proof.
  rewrite resume_all_steps.
  rewrite <- (length_fmap step_type), finish_all_types.
  apply length_fmap.
Qed.

Lemma start_tool_calls_backend calls : ∀ st,
  let started := start_tool_calls env cfg calls st in
  tavily_calls (snd started) + length (searchSteps st)
    ≤ tavily_calls st + length (searchSteps (snd started)) ∧
  (first_rejection (fst started) = None →
   tavily_calls (snd started) + length (searchSteps st)
     = tavily_calls st + length (searchSteps (snd started))).
Proof.
  induction calls as [|tc calls IH]; intros st; cbn zeta; [by cbn|]. simpl.
  pose proof (start_tool_call_backend tc st) as [Hle Heq]. cbn zeta in *.
  destruct (start_tool_call env cfg tc st) as [p st1].
  destruct (IH st1) as [Hle' Heq']. cbn zeta in *.
  destruct (start_tool_calls env cfg calls st1) as [ps st2].
  cbn [fst snd] in *. split; [lia|].
  intros [Hp Hps]%first_rejection_cons.
  specialize (Heq Hp). specialize (Heq' Hps). lia.
Qed.

Lemma tool_round_backend calls st :
  let round := tool_round env cfg calls st in
  tavily_calls (snd round) + length (searchSteps st)
    ≤ tavily_calls st + length (searchSteps (snd round)) ∧
  (fst round = None →
   tavily_calls (snd round) + length (searchSteps st)
     = tavily_calls st + length (searchSteps (snd round))).
Proof.
  unfold tool_round.
  pose proof (start_tool_calls_backend calls st) as [Hle Heq]. cbn zeta in *.
  destruct (start_tool_calls env cfg calls st) as [ps st1]. cbn [fst snd] in *.
  destruct (first_rejection ps); cbn [fst snd].
  { pose proof (resume_all_frame cfg (filter (answered_at_once env) ps) st1)
      as (_ & _ & _ & _ & _ & Hcalls & _). cbn zeta in Hcalls.
    cbn [tavily_calls searchSteps set_in_flight].
    rewrite Hcalls, resume_all_length. split; [lia|done]. }
  pose proof (resume_all_frame cfg (completion_order env ps) st1)
    as (_ & _ & _ & _ & _ & Hcalls & _). cbn zeta in Hcalls.
  cbn [tavily_calls searchSteps set_messages].
  rewrite Hcalls, resume_all_length. split; [lia|]. intros _. by apply Heq.
Qed.

Lemma agentic_loop_backend st :
  tavily_calls st = length (searchSteps st) →
  let out := agentic_loop env cfg (cfg_maxSteps cfg) st in
  tavily_calls (snd out) ≤ length (searchSteps (snd out)) ∧
  (fst out = None → tavily_calls (snd out) = length (searchSteps (snd out))).
Proof.
  intros Hst.
  apply (agentic_loop_ind env cfg
           (λ s, tavily_calls s = length (searchSteps s))
           (λ o s, tavily_calls s ≤ length (searchSteps s) ∧
                   (o = None → tavily_calls s = length (searchSteps s))));
    [intros; split; [lia|done]| |done|lia].
  intros s o Hs _ Hstep.
  destruct (requested_frame env cfg s) as (_ & Hsteps & _ & _ & _ & _ & Hcalls & _).
  destruct Hstep as [| | | | | |m tc calls s' _ _ Hround
                     |m tc calls e s' _ _ Hround];
    unfold recovering, force_continuation; cbn; autorewrite with frame;
    rewrite ?Hsteps, ?Hcalls; try (split; [lia|done]); try done.
  - pose proof (tool_round_backend (tc :: calls)
                  (set_messages (λ ms, ms ++ [as_message m])
                     (requested env cfg s))) as [_ Heq].
    cbn zeta in Heq. rewrite Hround in Heq. cbn in Heq.
    rewrite Hsteps, Hcalls in Heq. specialize (Heq eq_refl). lia.
  - pose proof (tool_round_backend (tc :: calls)
                  (set_messages (λ ms, ms ++ [as_message m])
                     (requested env cfg s))) as [Hle _].
    cbn zeta in Hle. rewrite Hround in Hle. cbn in Hle.
    rewrite Hsteps, Hcalls in Hle. split; [lia|done].
Qed.

End Backend.

(** X10. The backend is called at most once for each step: when a call to
    [chat] ends the backend has been called no more often than there are
    steps, and in a result that [chat] returns there is exactly one step
    for each call made to the backend. *)
Theorem one_backend_call_per_step
    (env : Env) (message : string) (history : list Message)
    (arg : option OptionsArg) (sink : option ProgressSink) :
  tavily_calls (final_state env message history arg sink)
    ≤ length (searchSteps (final_state env message history arg sink)) ∧
  match chat env message history arg sink with
  | chat_ok r =>
      length (res_searchSteps r)
        = tavily_calls (final_state env message history arg sink)
  | chat_failed _ => True
  end.
Proof.
  unfold final_state, chat. rewrite chat_run_unfold.
  set (cfg := run_config arg sink).
  set (st := start_state env message history arg sink).
  destruct (start_state_frame env message history arg sink)
    as (_ & Hsteps & _ & _ & _ & _ & Hcalls & _).
  fold st in Hsteps, Hcalls.
  assert (Hst : tavily_calls st = length (searchSteps st))
    by (by rewrite Hsteps, Hcalls).
  destruct (agentic_loop_backend env cfg st Hst) as [Hle Heq].
  pose proof (run_final env cfg st) as Hfin. cbn zeta in Hfin.
  destruct Hfin as (_ & _ & Hs & Hc & _). rewrite Hs, Hc.
  split; [done|].
  destruct (fst (run env cfg st)) as [r|f] eqn:Hrun; [|done].
  apply run_ok_inv in Hrun as (m & Hnone & ->). cbn.
  symmetry. by apply Heq.
Qed.

(** ** Step ids *)

Section StepIds.

Variable env : Env.
Variable cfg : Config.

Lemma omap_filter {A B} (f : A → option B) (d : B) (l : list A) :
  omap f l = (λ x, default d (f x)) <$> filter (λ x, is_Some (f x)) l.
Proof.
  induction l as [|x l IH]; [done|].
  change (omap f (x :: l))
    with (match f x with Some y => y :: omap f l | None => omap f l end).
  destruct (f x) as [y|] eqn:Hx.
  - rewrite filter_cons_True by (rewrite Hx; eauto).
    by rewrite fmap_cons, Hx, IH.
  - rewrite filter_cons_False by (rewrite Hx; by intros [? ?]). done.
Qed.

Lemma search_numbers_snoc steps s :
  search_numbers (steps ++ [s]) =
  search_numbers steps ++ option_list (search_number (step_id s)).
Proof.
  unfold search_numbers. rewrite fmap_app, omap_app. cbn.
  by destruct (search_number (step_id s)).
Qed.

Lemma numbered_open st s f :
  1 ≤ iteration st → numbered st →
  searchSteps (f st) = searchSteps st ++ [s] →
  iteration (f st) = iteration st →
  step_pass (step_id s) = iteration st →
  seq 1 (totalSearchCount (f st)) =
    seq 1 (totalSearchCount st) ++ option_list (search_number (step_id s)) →
  numbered (f st).
Proof.
  intros Hit [Hnum Hpass] Hsteps Hit' Hs Hcount. unfold numbered.
  rewrite Hsteps, Hit', Hcount, search_numbers_snoc, Hnum. split; [done|].
  apply Forall_app. split; [done|].
  apply Forall_cons_2; [lia|apply Forall_nil_2].
Qed.

Lemma start_tool_call_numbered tc st :
  1 ≤ iteration st → numbered st →
  numbered (snd (start_tool_call env cfg tc st)) ∧
  iteration (snd (start_tool_call env cfg tc st)) = iteration st.
Proof.
  intros Hit Hst. unfold start_tool_call.
  destruct (JSON_parse env (tc_arguments tc)) as [args|]; [|done].
  destruct (String.eqb (tc_name tc) "web_search").
  { unfold start_web_search, now.
    destruct args; cbv beta iota zeta; [done|..];
      destruct (text_throws _ || to_string_throws _); cbn [fst snd];
      (split; [|by cbn; autorewrite with frame]);
      (eapply (numbered_open st _ (λ _, _)); [done|done|..]);
      cbn; autorewrite with frame; cbn;
      first [reflexivity | exact (seq_S _ 1)]. }
  destruct (String.eqb (tc_name tc) "browser_extract"); [|done].
  unfold start_browser_extract, now.
  destruct args as [| | | | |props]; cbn [fst snd]; [done|..];
    try (split; [|done];
         eapply (numbered_open st _ (λ _, _)); [done|done|..];
         cbn; first [reflexivity | by rewrite app_nil_r]).
  cbn. destruct (assoc "urls" props) as [[| | | |items|more]|];
    try destruct (existsb to_string_throws items);
    try destruct (text_throws (assoc "length" more)); cbn [fst snd];
    (split; [|by cbn; autorewrite with frame]);
    (eapply (numbered_open st _ (λ _, _)); [done|done|..]);
    cbn; autorewrite with frame; cbn;
    first [reflexivity | by rewrite app_nil_r].
Qed.

Lemma start_tool_calls_numbered calls : ∀ st,
  1 ≤ iteration st → numbered st →
  numbered (snd (start_tool_calls env cfg calls st)).
Proof.
  induction calls as [|tc calls IH]; intros st Hit Hst; [done|]. simpl.
  destruct (start_tool_call_numbered tc st Hit Hst) as [H1 Hit1].
  destruct (start_tool_call env cfg tc st) as [p st1]. cbn [snd] in *.
  specialize (IH st1 ltac:(lia) H1).
  by destruct (start_tool_calls env cfg calls st1) as [ps st2].
Qed.

Lemma finish_with_id p s : step_id (finish_with p s) = step_id s.
Proof. by destruct p as [| | ? ? ? []| ? ? ? []]. Qed.

Lemma finish_step_ids p steps :
  step_id <$> finish_step p steps = step_id <$> steps.
Proof.
  apply list_eq. intros j. rewrite !list_lookup_fmap, finish_step_lookup.
  destruct (steps !! j); simpl; [|done].
  case_bool_decide; by rewrite ?finish_with_id.
Qed.

Lemma finish_all_ids ps : ∀ steps,
  step_id <$> foldl (λ steps p, finish_step p steps) steps ps = step_id <$> steps.
Proof.
  induction ps as [|p ps IH]; intros steps; simpl; [done|].
  by rewrite IH, finish_step_ids.
Qed.

Lemma tool_round_numbered calls st st' :
  tool_round env cfg calls st = (None, st') →
  1 ≤ iteration st → numbered st → numbered st'.
Proof.
  unfold tool_round. intros H Hit Hst.
  pose proof (start_tool_calls_numbered calls st Hit Hst) as [Hnum Hpass].
  destruct (start_tool_calls env cfg calls st) as [ps st1] eqn:Hstart.
  destruct (first_rejection ps); [done|].
  inversion H; subst; clear H. cbn [snd] in *.
  pose proof (resume_all_frame cfg (completion_order env ps) st1)
    as (_ & Hit' & _ & Hn & _). cbn zeta in Hit', Hn.
  unfold numbered, search_numbers.
  cbn [searchSteps totalSearchCount iteration set_messages].
  rewrite Hn, Hit', resume_all_steps, finish_all_ids. split; [done|].
  apply (proj1 (Forall_fmap step_id
                  (λ id, 1 ≤ step_pass id ≤ iteration st1) _)).
  rewrite finish_all_ids.
  by apply (proj2 (Forall_fmap step_id
                     (λ id, 1 ≤ step_pass id ≤ iteration st1) _)).
Qed.

Lemma agentic_loop_numbered st :
  numbered st →
  fst (agentic_loop env cfg (cfg_maxSteps cfg) st) = None →
  numbered (snd (agentic_loop env cfg (cfg_maxSteps cfg) st)).
Proof.
  intros Hst.
  apply (agentic_loop_ind env cfg numbered
           (λ o s, o = None → numbered s)); [done| |done|lia].
  intros s o [Hnum Hpass] _ Hstep.
  destruct (requested_frame env cfg s)
    as (_ & Hsteps & _ & Hit & _ & Hcnt & _).
  assert (Hreq : numbered (requested env cfg s)).
  { unfold numbered. rewrite Hsteps, Hit, Hcnt. split; [done|].
    eapply Forall_impl; [exact Hpass|]. intros x ?. cbn in *. lia. }
  destruct Hstep as [| | | | | |m tc calls s' _ _ Hround|];
    try done; try (intros _);
    unfold numbered, recovering, force_continuation in *; cbn;
    autorewrite with frame; try done.
  eapply tool_round_numbered; [exact Hround| |].
  - cbn. rewrite Hit. lia.
  - done.
Qed.

End StepIds.

(** X25. The searching steps of a result are numbered in the order they
    were opened: their ids carry the search numbers 1, 2, ... up to
    [totalSearches]. No two searching steps share an id, and every step id
    names a pass between 1 and [totalSteps]. *)
Theorem search_steps_are_numbered
    (env : Env) (message : string) (history : list Message)
    (arg : option OptionsArg) (sink : option ProgressSink) :
  match chat env message history arg sink with
  | chat_ok r =>
      search_numbers (res_searchSteps r) = seq 1 (totalSearches r) ∧
      NoDup (filter (λ id, is_Some (search_number id))
               (step_id <$> res_searchSteps r)) ∧
      Forall (λ s, 1 ≤ step_pass (step_id s) ≤ totalSteps r) (res_searchSteps r)
  | chat_failed _ => True
  end.
Proof.
  destruct (chat env message history arg sink) as [r|f] eqn:Hchat; [|done].
  unfold chat in Hchat. rewrite chat_run_unfold in Hchat.
  apply run_ok_inv in Hchat as (m & Hout & ->).
  destruct (start_state_frame env message history arg sink)
    as (_ & Hsteps & _ & _ & _ & Hn & _).
  set (cfg := run_config arg sink) in *.
  set (st := start_state env message history arg sink) in *.
  assert (Hst : numbered st).
  { unfold numbered. rewrite Hsteps, Hn. split; [done|apply Forall_nil_2]. }
  apply (agentic_loop_numbered env cfg st Hst) in Hout as [Hnum Hpass].
  unfold result_of. cbn [res_searchSteps totalSearches totalSteps].
  split_and!; [done| |done].
  apply (NoDup_fmap_1 (λ id, default 0 (search_number id))).
  unfold search_numbers in Hnum.
  rewrite <- (omap_filter search_number 0), Hnum.
  apply NoDup_seq.
Qed.

(** ** The depth of a search *)

Section Depth.

Variable env : Env.
Variable cfg : Config.

Lemma js_or_truthy v d : truthy d = true → truthy (js_or v d) = true.
Proof.
  intros Hd. unfold js_or. destruct v as [x|]; [|done].
  by destruct (truthy x) eqn:Hx.
Qed.

Lemma start_web_search_depth tc args st :
  Forall (depth_ok cfg) (step_type <$> searchSteps st) →
  Forall (depth_ok cfg)
    (step_type <$> searchSteps (snd (start_web_search env cfg tc args st))).
Proof.
  intros Hst. unfold start_web_search, now.
  assert (Hdepth : args ≠ JNull →
            depth_ok cfg
              (searching (js_get args "query")
                 (default (JStr "general") (js_get args "topic"))
                 (if cfg_isDeepResearch cfg then JStr "advanced"
                  else js_or (js_get args "search_depth") (JStr "basic")))).
  { intros _. cbn. destruct (cfg_isDeepResearch cfg); [by split|].
    split; [by apply js_or_truthy|done]. }
  destruct args; cbv beta iota zeta; try done;
    destruct (text_throws _ || to_string_throws _);
    cbn; autorewrite with frame; cbn; try done;
    rewrite fmap_app; apply Forall_app; (split; [done|]);
    (apply Forall_cons_2; [by apply Hdepth|apply Forall_nil_2]).
Qed.

Lemma start_browser_extract_depth tc args st :
  Forall (depth_ok cfg) (step_type <$> searchSteps st) →
  Forall (depth_ok cfg)
    (step_type <$> searchSteps (snd (start_browser_extract env cfg tc args st))).
Proof.
  intros Hst. unfold start_browser_extract, now.
  destruct args as [| | | | |props]; cbn; try done;
    try (rewrite fmap_app; apply Forall_app; split; [done|];
         by apply Forall_cons_2; [|apply Forall_nil_2]).
  destruct (assoc "urls" props) as [[| | | |items|more]|];
    try destruct (existsb to_string_throws items);
    try destruct (text_throws (assoc "length" more));
    cbn; autorewrite with frame; cbn;
    rewrite fmap_app; apply Forall_app; (split; [done|]);
    by apply Forall_cons_2; [|apply Forall_nil_2].
Qed.

Lemma start_tool_calls_depth calls : ∀ st,
  Forall (depth_ok cfg) (step_type <$> searchSteps st) →
  Forall (depth_ok cfg)
    (step_type <$> searchSteps (snd (start_tool_calls env cfg calls st))).
Proof.
  induction calls as [|tc calls IH]; intros st Hst; [done|]. simpl.
  assert (H1 : Forall (depth_ok cfg)
                 (step_type <$> searchSteps (snd (start_tool_call env cfg tc st)))).
  { unfold start_tool_call.
    destruct (JSON_parse env (tc_arguments tc)) as [args|]; [|done].
    destruct (String.eqb (tc_name tc) "web_search");
      [by apply start_web_search_depth|].
    destruct (String.eqb (tc_name tc) "browser_extract"); [|done].
    by apply start_browser_extract_depth. }
  destruct (start_tool_call env cfg tc st) as [p st1]. cbn [snd] in *.
  specialize (IH st1 H1).
  by destruct (start_tool_calls env cfg calls st1) as [ps st2].
Qed.

Lemma tool_round_depth calls st :
  Forall (depth_ok cfg) (step_type <$> searchSteps st) →
  Forall (depth_ok cfg)
    (step_type <$> searchSteps (snd (tool_round env cfg calls st))).
Proof.
  intros Hst. unfold tool_round.
  pose proof (start_tool_calls_depth calls st Hst) as Hstart.
  destruct (start_tool_calls env cfg calls st) as [ps st1]. cbn [snd] in *.
  destruct (first_rejection ps);
    cbn [snd searchSteps set_messages set_in_flight];
    by rewrite resume_all_steps, finish_all_types.
Qed.

Lemma agentic_loop_depth st :
  Forall (depth_ok cfg) (step_type <$> searchSteps st) →
  Forall (depth_ok cfg)
    (step_type <$> searchSteps (snd (agentic_loop env cfg (cfg_maxSteps cfg) st))).
Proof.
  intros Hst.
  apply (agentic_loop_ind env cfg
           (λ s, Forall (depth_ok cfg) (step_type <$> searchSteps s))
           (λ _ s, Forall (depth_ok cfg) (step_type <$> searchSteps s)));
    [done| |done|lia].
  intros s o Hs _ Hstep.
  destruct (requested_frame env cfg s) as (_ & Hsteps & _).
  assert (Hround : ∀ m calls,
            Forall (depth_ok cfg)
              (step_type <$> searchSteps
                 (snd (tool_round env cfg calls
                         (set_messages (λ ms, ms ++ [as_message m])
                            (requested env cfg s)))))).
  { intros m calls. apply tool_round_depth. cbn. by rewrite Hsteps. }
  destruct Hstep as [| | | | | |m tc calls s' _ _ H|m tc calls e s' _ _ H];
    try (specialize (Hround m (tc :: calls)); by rewrite H in Hround);
    unfold recovering, force_continuation; cbn; autorewrite with frame;
    by rewrite Hsteps.
Qed.

End Depth.

(** X27. When a call to [chat] ends, every searching step records a
    depth that is a truthy value, never a missing or an empty one, and in
    deep research that depth is [advanced] whatever the model asked
    for. *)
Theorem search_depth_is_settled
    (env : Env) (message : string) (history : list Message)
    (arg : option OptionsArg) (sink : option ProgressSink) :
  Forall (depth_ok (run_config arg sink))
    (step_type <$> searchSteps (final_state env message history arg sink)).
Proof.
  unfold final_state. rewrite chat_run_unfold.
  set (cfg := run_config arg sink).
  set (st := start_state env message history arg sink).
  destruct (start_state_frame env message history arg sink)
    as (_ & Hsteps & _).
  fold st in Hsteps.
  pose proof (run_final env cfg st) as Hfin. cbn zeta in Hfin.
  destruct Hfin as (_ & _ & -> & _).
  apply agentic_loop_depth. by rewrite Hsteps.
Qed.

(** ** Deduplicating as sources arrive *)

Section Incremental.

Implicit Types (seen : gset string) (sources more : list Source).

Lemma filter_unseen_app seen sources more :
  filter_unseen seen (sources ++ more) =
  filter_unseen seen sources ++ filter_unseen (seen_after seen sources) more.
Proof.
  revert seen; induction sources as [|s rest IH]; intros seen; simpl; [done|].
  destruct (url s) as [u|]; [|by apply IH].
  destruct (String.eqb u "" || bool_decide (u ∈ seen)); [by apply IH|].
  simpl. by rewrite IH.
Qed.

Lemma filter_unseen_again sources : ∀ seen seen',
  seen' ⊆ seen →
  filter_unseen seen' (filter_unseen seen sources) = filter_unseen seen sources.
Proof.
  induction sources as [|s rest IH]; intros seen seen' Hsub; simpl; [done|].
  destruct (url s) as [u|] eqn:Hu; [|by apply IH].
  destruct (String.eqb u "") eqn:He; simpl; [by apply IH|].
  case_bool_decide as Hin; [by apply IH|].
  simpl. rewrite Hu, He. simpl.
  rewrite bool_decide_eq_false_2
    by (intros Hu'; apply Hin; by apply (proj1 (elem_of_subseteq _ _) Hsub)).
  f_equal. apply IH. by apply union_mono_l.
Qed.

Lemma seen_after_filter_unseen sources : ∀ seen,
  seen_after seen (filter_unseen seen sources) = seen_after seen sources.
Proof.
  induction sources as [|s rest IH]; intros seen; simpl; [done|].
  destruct (url s) as [u|] eqn:Hu; [|by apply IH].
  destruct (String.eqb u "") eqn:He; simpl; [by apply IH|].
  case_bool_decide as Hin; [by apply IH|].
  simpl. rewrite Hu, He. simpl.
  rewrite bool_decide_eq_false_2 by done. apply IH.
Qed.

End Incremental.

(** X26. Deduplicating is idempotent, and it can be done as the sources
    arrive: deduplicating what was kept so far together with later sources
    gives what deduplicating everything at the end gives. *)
Theorem deduplicateSources_incremental (sources more : list Source) :
  deduplicateSources (deduplicateSources sources) = deduplicateSources sources ∧
  deduplicateSources (deduplicateSources sources ++ more)
    = deduplicateSources (sources ++ more).
Proof.
  unfold deduplicateSources. split.
  - by apply filter_unseen_again.
  - rewrite !filter_unseen_app, filter_unseen_again by done.
    by rewrite seen_after_filter_unseen.
Qed.

(** ** The phase messages of deep research *)

Lemma RESEARCH_MESSAGES_NoDup : NoDup RESEARCH_MESSAGES.
Proof. apply (bool_decide_unpack _). by vm_compute. Qed.

Lemma nearest_double_exact (n : Z) :
  (Z.abs n < 2 ^ 53)%Z → nearest_double n = n.
Proof.
  intros Hn. unfold nearest_double.
  destruct (Z.leb_spec (Z.log2 (Z.abs n) - 52) 0) as [|Hbig]; [done|].
  exfalso. destruct (Z.eq_dec (Z.abs n) 0%Z) as [Hz|Hnz].
  - rewrite Hz in Hbig. cbn in Hbig. lia.
  - assert (Z.log2 (Z.abs n) < 53)%Z by (apply Z.log2_lt_pow2; lia). lia.
Qed.

Lemma getDynamicResearchMessage_index (i : Z) :
  (2 ≤ i)%Z → (i - 2 < 2 ^ 53)%Z →
  getDynamicResearchMessage i
  = RESEARCH_MESSAGES !! Z.to_nat ((i - 2) mod 10) ∧
  Z.to_nat ((i - 2) mod 10) < length RESEARCH_MESSAGES.
Proof.
  intros Hi Hsafe. unfold getDynamicResearchMessage.
  rewrite nearest_double_exact by lia.
  change (Z.of_nat (length RESEARCH_MESSAGES)) with 10%Z.
  rewrite Z.rem_mod_nonneg by lia.
  pose proof (Z.mod_pos_bound (i - 2) 10 ltac:(lia)) as Hbound.
  destruct (Z.ltb_spec ((i - 2) mod 10) 0); [lia|].
  split; [done|]. change (length RESEARCH_MESSAGES) with 10. lia.
Qed.

(** X11. From the second pass on, and as long as the pass numbers are
    integers that a double holds exactly (up to 2^53), the phase message
    is defined, it repeats with period ten, and ten passes in a row get ten
    different messages. *)
Theorem research_messages_cycle (i j : Z) :
  (2 ≤ i)%Z → (i + 10 ≤ 2 ^ 53)%Z → (i < j < i + 10)%Z →
  is_Some (getDynamicResearchMessage i) ∧
  getDynamicResearchMessage (i + 10) = getDynamicResearchMessage i ∧
  getDynamicResearchMessage i ≠ getDynamicResearchMessage j.
Proof.
  intros Hi Hsafe Hj.
  destruct (getDynamicResearchMessage_index i Hi ltac:(lia)) as [Hgi Hlt].
  destruct (getDynamicResearchMessage_index j ltac:(lia) ltac:(lia))
    as [Hgj Hltj].
  destruct (getDynamicResearchMessage_index (i + 10) ltac:(lia) ltac:(lia))
    as [Hgk _].
  apply lookup_lt_is_Some in Hlt as Hsome. rewrite <- Hgi in Hsome.
  split_and!; [done| |].
  - rewrite Hgk, Hgi. do 2 f_equal.
    replace (i + 10 - 2)%Z with (i - 2 + 1 * 10)%Z by lia.
    by rewrite Z.mod_add by lia.
  - destruct Hsome as [s Hs]. rewrite Hs. intros Heq. symmetry in Heq.
    rewrite Hgi in Hs. rewrite Hgj in Heq.
    pose proof (NoDup_lookup _ _ _ _ RESEARCH_MESSAGES_NoDup Hs Heq) as Hij.
    pose proof (Z.mod_pos_bound (i - 2) 10 ltac:(lia)).
    pose proof (Z.mod_pos_bound (j - 2) 10 ltac:(lia)).
    assert (((i - 2) mod 10 = (j - 2) mod 10)%Z) as Hmod by lia.
    pose proof (Z.div_mod (i - 2) 10 ltac:(lia)).
    pose proof (Z.div_mod (j - 2) 10 ltac:(lia)).
    lia.
Qed.

(** X12. Within the step budget of a call to [chat], six passes or ten,
    the phase message of pass [i] is the message at position [i - 2], so
    the last of the ten messages is never shown. *)
Theorem last_research_message_unreachable
    (options : Options) (sink : option ProgressSink) (i : Z) :
  (2 ≤ i ≤ Z.of_nat (cfg_maxSteps (configure options sink)))%Z →
  getDynamicResearchMessage i = RESEARCH_MESSAGES !! Z.to_nat (i - 2) ∧
  getDynamicResearchMessage i ≠ last RESEARCH_MESSAGES.
Proof.
  intros [Hlo Hhi].
  assert (Hmax : cfg_maxSteps (configure options sink) ≤ 10).
  { unfold configure. cbn. destruct (default false (isDeepResearch options));
      unfold MAX_AGENTIC_STEPS; lia. }
  destruct (getDynamicResearchMessage_index i Hlo ltac:(lia)) as [Hgi _].
  rewrite Z.mod_small in Hgi by lia. split; [done|].
  rewrite Hgi. intros Heq.
  assert (Hlast : RESEARCH_MESSAGES !! 9 = last RESEARCH_MESSAGES) by done.
  rewrite <- Hlast in Heq.
  destruct (RESEARCH_MESSAGES !! 9) as [s|] eqn:Hs; [|done].
  pose proof (NoDup_lookup _ _ _ _ RESEARCH_MESSAGES_NoDup Heq Hs). lia.
Qed.

(** * Properties of the search backend *)

Section TavilyService.

Variable w : Tavily.World.

Lemma extractSources_mapM data :
  Tavily.extractSources w data = mapM (Tavily.source_of w) (results_of data).
Proof.
  unfold Tavily.extractSources, results_of.
  by destruct (Tavily.d_results data) as [[]|].
Qed.

Lemma source_of_is_Some r :
  is_Some (Tavily.source_of w r) ↔ is_Some (Tavily.hostname w (Tavily.r_url r)).
Proof.
  unfold Tavily.source_of. destruct (Tavily.hostname w (Tavily.r_url r)).
  - split; eauto.
  - split; intros [? ?]; done.
Qed.

Lemma extractSources_is_Some data :
  is_Some (Tavily.extractSources w data) ↔
  Forall (λ r, is_Some (Tavily.hostname w (Tavily.r_url r))) (results_of data).
Proof.
  rewrite extractSources_mapM, mapM_is_Some.
  apply Forall_proper; [|done]. intros r. apply source_of_is_Some.
Qed.

Lemma search_query_inv call options :
  search_succeeded (Tavily.search w call options) = true →
  ∃ query, so_query options = Some (JStr query) ∧ query ≠ "".
Proof.
  unfold Tavily.search.
  destruct (so_query options) as [[| | |query| |]|]; try done.
  destruct (String.eqb_spec query ""); [done|]. eauto.
Qed.

Lemma search_unfold call options query :
  so_query options = Some (JStr query) → query ≠ "" →
  Tavily.has_key w = true →
  Tavily.search w call options =
  if Tavily.unprintable options then Tavily.search_error Tavily.no_text
  else
    match Tavily.post_search w call (Tavily.search_request query options) with
    | inl data =>
        match Tavily.extractSources w data with
        | Some sources =>
            search_ok (Tavily.d_answer data) (Tavily.formatResults data) sources
        | None => Tavily.search_error Tavily.invalid_url
        end
    | inr e => Tavily.search_error e
    end.
Proof.
  intros Hq Hne Hkey. unfold Tavily.search. rewrite Hq, Hkey.
  by destruct (String.eqb_spec query "").
Qed.

Lemma format_result_head r :
  ∃ rest, Tavily.format_result r = String "T" rest.
Proof. unfold Tavily.format_result. cbn. eauto. Qed.

Lemma formatResults_text data :
  Tavily.formatResults data ≠ "" ∧
  (Tavily.formatResults data = "No results found." ↔ results_of data = []).
Proof.
  unfold Tavily.formatResults, results_of.
  destruct (Tavily.d_results data) as [[|r rs]|]; cbn [default]; try done.
  assert (∃ rest, join (nl +:+ nl) (Tavily.format_result <$> r :: rs)
                  = String "T" rest) as [rest ->].
  { destruct (format_result_head r) as [rest Hr]. rewrite fmap_cons.
    destruct rs as [|r' rs]; cbn [join fmap list_fmap]; rewrite Hr; cbn; eauto. }
  split; [done|]. split; intros; done.
Qed.

Lemma sources_mirror rs ss :
  Forall2 (λ r s, Tavily.source_of w r = Some s) rs ss →
  url <$> ss = (λ r, Some (Tavily.r_url r)) <$> rs ∧
  title <$> ss = Tavily.r_title <$> rs.
Proof.
  induction 1 as [|r s rs ss Hr _ [IH1 IH2]]; [done|].
  rewrite !fmap_cons, IH1, IH2. unfold Tavily.source_of in Hr.
  destruct (Tavily.hostname w (Tavily.r_url r)); [|done].
  by injection Hr as <-.
Qed.


End TavilyService.

(** X13. When a search succeeds. [search] returns a result exactly when
    the query is a non-empty string, the API key is set, the topic, the
    depth and the number of results asked for can be turned into text for
    the log line, the HTTP call succeeded, and the URL of every result in
    the response parses. *)
Theorem search_succeeds_exactly_when
    (w : Tavily.World) (call : nat) (options : SearchOptions) :
  search_succeeded (Tavily.search w call options) = true ↔
  ∃ query data,
    so_query options = Some (JStr query) ∧ query ≠ "" ∧
    Tavily.has_key w = true ∧
    Tavily.unprintable options = false ∧
    Tavily.post_search w call (Tavily.search_request query options) = inl data ∧
    Forall (λ r, is_Some (Tavily.hostname w (Tavily.r_url r))) (results_of data).
Proof.
  split.
  - intros Hok.
    destruct (search_query_inv w call options Hok) as (query & Hq & Hne).
    destruct (Tavily.has_key w) eqn:Hkey.
    2:{ unfold Tavily.search in Hok. rewrite Hq, Hkey in Hok.
        by destruct (String.eqb query ""). }
    rewrite (search_unfold w call options query Hq Hne Hkey) in Hok.
    destruct (Tavily.unprintable options) eqn:Hlog; [done|].
    destruct (Tavily.post_search w call _) as [data|e] eqn:Hpost; [|done].
    exists query, data. split_and!; try done.
    apply extractSources_is_Some.
    by destruct (Tavily.extractSources w data).
  - intros (query & data & Hq & Hne & Hkey & Hlog & Hpost & Hurls).
    rewrite (search_unfold w call options query Hq Hne Hkey), Hlog, Hpost.
    apply extractSources_is_Some in Hurls as [srcs ->]. done.
Qed.

(** X14. What a successful search hands to [chat]: the answer of the
    response, one source for each result and in the same order, with the
    result's title and URL, and a text that is never empty and is
    [No results found.] exactly when the response has no results. *)
Theorem search_result_mirrors_response
    (w : Tavily.World) (call : nat) (options : SearchOptions)
    (answer : option string) (text : string) (srcs : list Source) :
  Tavily.search w call options = search_ok answer text srcs →
  ∃ query data,
    so_query options = Some (JStr query) ∧
    Tavily.post_search w call (Tavily.search_request query options) = inl data ∧
    answer = Tavily.d_answer data ∧
    url <$> srcs = (λ r, Some (Tavily.r_url r)) <$> results_of data ∧
    title <$> srcs = Tavily.r_title <$> results_of data ∧
    text ≠ "" ∧
    (text = "No results found." ↔ results_of data = []).
Proof.
  intros Hsearch.
  assert (Hok : search_succeeded (Tavily.search w call options) = true)
    by (by rewrite Hsearch).
  destruct (search_query_inv w call options Hok) as (query & Hq & Hne).
  destruct (Tavily.has_key w) eqn:Hkey.
  2:{ unfold Tavily.search in Hsearch. rewrite Hq, Hkey in Hsearch.
      by destruct (String.eqb query ""). }
  rewrite (search_unfold w call options query Hq Hne Hkey) in Hsearch.
  destruct (Tavily.unprintable options); [done|].
  destruct (Tavily.post_search w call _) as [data|e] eqn:Hpost; [|done].
  destruct (Tavily.extractSources w data) as [sources|] eqn:Hsrc; [|done].
  injection Hsearch as <- <- <-.
  exists query, data. rewrite extractSources_mapM in Hsrc.
  apply mapM_Some_1, sources_mirror in Hsrc as [Hurls Htitles].
  destruct (formatResults_text data) as [Hne' Hiff].
  by split_and!.
Qed.

(** X15. One result whose URL does not parse loses the whole search: the
    response of a successful HTTP call is dropped and [search] reports the
    backend as unavailable. *)
Theorem unparsable_url_fails_search
    (w : Tavily.World) (call : nat) (options : SearchOptions)
    (query : string) (data : Tavily.ResponseData) (r : Tavily.ResultItem) :
  so_query options = Some (JStr query) → query ≠ "" →
  Tavily.has_key w = true →
  Tavily.post_search w call (Tavily.search_request query options) = inl data →
  r ∈ results_of data →
  Tavily.hostname w (Tavily.r_url r) = None →
  Tavily.search w call options =
  search_failed "Search service temporarily unavailable." "TAVILY_ERROR".
Proof.
  intros Hq Hne Hkey Hpost Hin Hurl.
  rewrite (search_unfold w call options query Hq Hne Hkey), Hpost.
  destruct (Tavily.unprintable options); [done|].
  rewrite extractSources_mapM.
  assert (Hnone : mapM (Tavily.source_of w) (results_of data) = None).
  { apply mapM_None_2, Exists_exists. exists r. split; [done|].
    unfold Tavily.source_of. by rewrite Hurl. }
  by rewrite Hnone.
Qed.



(** * [chat] over the search backend *)

Section Backed.

Variable env : Env.
Variable w : Tavily.World.
Variable cfg : Config.



End Backed.



(** * Properties of the chat routes *)

Section Joins.

Lemma append_empty (a b : string) : a +:+ b = "" → a = "" ∧ b = "".
Proof. destruct a; [done|]. intros H. by apply (f_equal String.length) in H. Qed.

Lemma join_empty (sep : string) (parts : list string) :
  sep ≠ "" → join sep parts = "" → parts = [] ∨ parts = [""].
Proof.
  intros Hsep. destruct parts as [|p [|q rest]]; cbn [join]; auto.
  - intros ->. auto.
  - intros [_ [? _]%append_empty]%append_empty. done.
Qed.

End Joins.

Section RouteLemmas.

Variable trim : string → string.

Lemma context_of_nonempty body :
  Routes.context_of body ≠ "" ↔
  ∃ d ds, Routes.b_documentContexts body = Some (d :: ds) ∧ (d ≠ "" ∨ ds ≠ []).
Proof.
  unfold Routes.context_of.
  destruct (Routes.b_documentContexts body) as [[|d ds]|].
  - split; [done|]. by intros (? & ? & ? & _).
  - split.
    + intros Hne. exists d, ds. split; [done|].
      destruct (decide (d = "")) as [->|]; [|by left]. right.
      intros ->. by apply Hne.
    + intros (d' & ds' & [= <- <-] & Hor) Hj.
      apply join_empty in Hj as [?|[= -> ->]]; [done| |done].
      by destruct Hor.
  - split; [done|]. by intros (? & ? & ? & _).
Qed.

Lemma route_tools body :
  cfg_tools (run_config (Routes.chat_options body) None) = []
  ↔ Routes.context_of body ≠ "".
Proof.
  unfold run_config, configure, Routes.chat_options. cbn.
  destruct (String.eqb_spec (Routes.context_of body) "") as [->|Hne]; cbn.
  - split; [|done]. by destruct (Routes.flag (Routes.b_deepSearch body)).
  - done.
Qed.

End RouteLemmas.

Lemma chat_omits_tools
    (env : Env) (message : string) (history : list Message)
    (arg : option OptionsArg) (sink : option ProgressSink) :
  cfg_tools (run_config arg sink) = [] →
  Forall omits_tools (requests (final_state env message history arg sink)).
Proof.
  intros Htools. unfold final_state. rewrite chat_run_unfold.
  set (cfg := run_config arg sink) in *.
  destruct (start_state_frame env message history arg sink)
    as (_ & _ & _ & _ & _ & _ & _ & Hreq).
  set (st := start_state env message history arg sink) in *.
  destruct (run_final env cfg st) as (_ & _ & _ & _ & _ & Hfr).
  pose proof (agentic_loop_omits_tools env cfg st Htools) as Hloop.
  rewrite Hreq in Hloop. specialize (Hloop (Forall_nil_2 _)).
  destruct Hfr as [-> | ->]; [done|].
  apply Forall_app. split; [done|].
  apply Forall_cons_2; [by split|]. apply Forall_nil_2.
Qed.

Lemma chat_offers_tools
    (env : Env) (message : string) (history : list Message)
    (arg : option OptionsArg) (sink : option ProgressSink) :
  cfg_tools (run_config arg sink) ≠ [] →
  ¬ Forall omits_tools (requests (final_state env message history arg sink)).
Proof.
  intros Htools Hall.
  destruct (chat_requests_first env message history arg sink)
    as (rest & Hreq & _).
  unfold final_state in Hall. rewrite Hreq in Hall.
  apply Forall_cons in Hall as [[Hfirst _] _].
  unfold first_request, next_request, callOptions in Hfirst.
  cbn [req_tools] in Hfirst.
  destruct (cfg_tools (run_config arg sink)); [done|]. done.
Qed.

(** X19. [POST /api/chat] on a message that passes validation answers
    with the outcome of [chat]: 200 with the result, or 500 with the
    failure; unless [forceSearch] or [deepSearch] came as a value that
    cannot be turned into text for the log line: then [chat] is not called
    and the error is handed to the next handler. The requests of that chat
    offer no tool exactly when the document contexts join to a non-empty
    text, that is when there are at least two of them or one that is not
    empty. *)
Theorem post_chat_withholds_tools_for_documents
    (trim : string → string) (env : Env) (body : Routes.Body)
    (message : string) :
  Routes.valid_message trim body = Some message →
  Routes.post_chat trim env body =
    (if Routes.unprintable body then Routes.passed_on type_error
     else
       match chat env (trim message) (Routes.history_of body)
               (Routes.chat_options body) None with
       | chat_ok r => Routes.ok r
       | chat_failed f => Routes.server_error f
       end) ∧
  (Forall omits_tools
     (requests (final_state env (trim message) (Routes.history_of body)
                  (Routes.chat_options body) None))
   ↔ Routes.context_of body ≠ "") ∧
  (Routes.context_of body ≠ "" ↔
   ∃ d ds, Routes.b_documentContexts body = Some (d :: ds)
           ∧ (d ≠ "" ∨ ds ≠ [])).
Proof.
  intros Hvalid. split_and!.
  - unfold Routes.post_chat. rewrite Hvalid.
    destruct (Routes.unprintable body); [done|]. by destruct (chat _ _ _ _ _).
  - rewrite <- route_tools. split.
    + intros Hall.
      destruct (decide (cfg_tools (run_config (Routes.chat_options body) None) = []))
        as [?|Hne]; [done|].
      by apply (chat_offers_tools env (trim message) (Routes.history_of body)) in Hne.
    + apply chat_omits_tools.
  - apply context_of_nonempty.
Qed.


(** * Properties of the single-round [chat] *)

(** X21. The single-round [chat] sends its initial request, makes at most
    one search and sends at most one more request, which carries no tools
    and follows a search. When the return has [searchPerformed], the field
    tells whether a search was made. *)
Theorem single_round_chat_trace
    (env : Env) (message : string) (history : list Message)
    (forceSearch : bool) (context : string) :
  head (Legacy.sent (snd (Legacy.chat_run env message history forceSearch context)))
    = Some (Legacy.initial_request env message history forceSearch context) ∧
  length (Legacy.sent (snd (Legacy.chat_run env message history forceSearch context)))
    ≤ 1 + length (Legacy.searches
                    (snd (Legacy.chat_run env message history forceSearch context))) ∧
  length (Legacy.searches
            (snd (Legacy.chat_run env message history forceSearch context))) ≤ 1 ∧
  Forall omits_tools
    (tail (Legacy.sent (snd (Legacy.chat_run env message history forceSearch context)))) ∧
  ∀ b, Legacy.searchPerformed
         (fst (Legacy.chat_run env message history forceSearch context)) = Some b →
       b = bool_decide
             (Legacy.searches
                (snd (Legacy.chat_run env message history forceSearch context)) ≠ []).
Proof.
  unfold Legacy.chat_run, Legacy.run_search.
  repeat case_match; cbn; split_and!; auto; try done;
    try (by intros ? [= <-]);
    (apply Forall_cons_2; [by split|apply Forall_nil_2]).
Qed.

(** X22. In the single-round [chat] a context overrides [forceSearch]:
    with a non-empty context the initial request offers no tool and names
    the tool choice [none], and the run is the same whether or not a
    search was to be forced. *)
Theorem single_round_context_overrides_forceSearch
    (env : Env) (message : string) (history : list Message)
    (forceSearch : bool) (context : string) :
  context ≠ "" →
  req_tools (Legacy.initial_request env message history forceSearch context)
    = None ∧
  req_tool_choice (Legacy.initial_request env message history forceSearch context)
    = Some choice_none ∧
  Legacy.chat_run env message history forceSearch context
    = Legacy.chat_run env message history false context.
Proof.
  intros Hctx. apply String.eqb_neq in Hctx.
  unfold Legacy.chat_run, Legacy.initial_request. rewrite Hctx. done.
Qed.

(** X23. In the single-round [chat] arguments that do not parse fail the
    whole call: when the first tool call of the reply carries them,
    whatever tool it names, the call returns the generic failure, after
    one request and without a search. *)
Theorem single_round_unparsable_arguments_fail
    (env : Env) (message : string) (history : list Message)
    (forceSearch : bool) (context : string)
    (m : AssistantMessage) (tc : ToolCall) (calls : list ToolCall) :
  groq_create env 0
    (Legacy.initial_request env message history forceSearch context) = inl m →
  am_tool_calls m = Some (tc :: calls) →
  JSON_parse env (tc_arguments tc) = None →
  Legacy.chat_run env message history forceSearch context =
    (Legacy.failed unavailable,
     {| Legacy.sent :=
          [Legacy.initial_request env message history forceSearch context];
        Legacy.searches := [] |}).
Proof.
  intros Hreply Hcalls Hparse. unfold Legacy.chat_run.
  by rewrite Hreply, Hcalls, Hparse.
Qed.

(** X24. [RAGService.query] is the plain single-round [chat] when
    retrieval fails and when it yields nothing to join; otherwise it is
    that [chat] on the joined page contents, which is then offered no
    tool. *)
Theorem query_falls_back_to_plain_chat
    (env : Env) (similaritySearch : string → nat → option (list string))
    (message : string) (history : list Message) :
  (similaritySearch message 10 = None
   ∨ similaritySearch message 10 = Some []
   ∨ similaritySearch message 10 = Some [""] →
   Legacy.query_run env similaritySearch message history
     = Legacy.chat_run env message history false "") ∧
  (∀ docs, similaritySearch message 10 = Some docs →
     docs ≠ [] → docs ≠ [""] →
     Legacy.query_run env similaritySearch message history
       = Legacy.chat_run env message history false (join (nl +:+ nl) docs) ∧
     req_tools (Legacy.initial_request env message history false
                  (join (nl +:+ nl) docs)) = None).
Proof.
  unfold Legacy.query_run. split.
  - intros [-> | [-> | ->]]; done.
  - intros docs -> Hne Hne'. split; [done|].
    unfold Legacy.initial_request. cbn.
    destruct (String.eqb_spec (join (nl +:+ nl) docs) "") as [Hj|]; [|done].
    apply join_empty in Hj as [?|?]; done.
Qed.

(** * The properties above on sample inputs *)

(** X7 on a reply that asks for a search with [null] as arguments. *)
Lemma throwing_call_fails_the_chat_witness :
  chat Cases.null_arguments "What is bitcoin?" [] None None
  = chat_failed unavailable.
Proof.
  apply (throwing_call_fails_the_chat Cases.null_arguments "What is bitcoin?"
           [] None None (Samples.calling Cases.null_call) [Cases.null_call]);
    reflexivity.
Defined.

(** X8 on a call to a tool that does not exist and a call whose arguments
    do not parse. *)
Lemma calls_not_run_only_answered_witness :
  tool_round Cases.direct (run_config None None)
    [Cases.calculator_call; Samples.broken_call] Cases.start
  = (None,
     set_messages
       (λ ms, ms ++ (refusal Cases.direct
                       <$> [Cases.calculator_call; Samples.broken_call]))
       Cases.start).
Proof.
  apply (calls_not_run_only_answered Cases.direct (run_config None None)
           [Cases.calculator_call; Samples.broken_call] Cases.start).
  reflexivity.
Defined.

(** X11 on the second and third pass. *)
Lemma research_messages_cycle_witness :
  is_Some (getDynamicResearchMessage 2) ∧
  getDynamicResearchMessage (2 + 10) = getDynamicResearchMessage 2 ∧
  getDynamicResearchMessage 2 ≠ getDynamicResearchMessage 3.
Proof. apply (research_messages_cycle 2 3); lia. Defined.

(** X12 on the last pass of a run that is not deep research. *)
Lemma last_research_message_unreachable_witness :
  getDynamicResearchMessage 6 = RESEARCH_MESSAGES !! Z.to_nat (6 - 2) ∧
  getDynamicResearchMessage 6 ≠ last RESEARCH_MESSAGES.
Proof.
  apply (last_research_message_unreachable empty_options None 6).
  vm_compute. split; discriminate.
Defined.

(** X14 on a response with two results. *)
Lemma search_result_mirrors_response_witness :
  ∃ query data,
    so_query Cases.bitcoin = Some (JStr query) ∧
    Tavily.post_search (Cases.world Cases.two_pages) 0
      (Tavily.search_request query Cases.bitcoin) = inl data ∧
    None = Tavily.d_answer data ∧
    url <$> Cases.two_sources
      = (λ r, Some (Tavily.r_url r)) <$> results_of data ∧
    title <$> Cases.two_sources = Tavily.r_title <$> results_of data ∧
    Tavily.formatResults (Cases.response Cases.two_pages) ≠ "" ∧
    (Tavily.formatResults (Cases.response Cases.two_pages) = "No results found."
     ↔ results_of data = []).
Proof.
  apply (search_result_mirrors_response (Cases.world Cases.two_pages) 0
           Cases.bitcoin None
           (Tavily.formatResults (Cases.response Cases.two_pages))
           Cases.two_sources).
  reflexivity.
Defined.

(** X15 on a response whose second result has no URL. *)
Lemma unparsable_url_fails_search_witness :
  Tavily.search (Cases.world Cases.one_broken) 0 Cases.bitcoin =
  search_failed "Search service temporarily unavailable." "TAVILY_ERROR".
Proof.
  apply (unparsable_url_fails_search (Cases.world Cases.one_broken) 0
           Cases.bitcoin "bitcoin" (Cases.response Cases.one_broken)
           (Cases.item "not a url")); try reflexivity.
  - discriminate.
  - cbn. apply list_elem_of_further, list_elem_of_here.
Defined.




(** X19 on a question that comes with one document. *)
Lemma post_chat_withholds_tools_for_documents_witness :
  Routes.post_chat Cases.trim Cases.direct
    (Cases.asking (Some ["Chapter 1. Bitcoin."])) =
    (if Routes.unprintable (Cases.asking (Some ["Chapter 1. Bitcoin."]))
     then Routes.passed_on type_error
     else
       match chat Cases.direct (Cases.trim " What is bitcoin? ")
               (Routes.history_of (Cases.asking (Some ["Chapter 1. Bitcoin."])))
               (Routes.chat_options (Cases.asking (Some ["Chapter 1. Bitcoin."])))
               None with
       | chat_ok r => Routes.ok r
       | chat_failed f => Routes.server_error f
       end) ∧
  (Forall omits_tools
     (requests
        (final_state Cases.direct (Cases.trim " What is bitcoin? ")
           (Routes.history_of (Cases.asking (Some ["Chapter 1. Bitcoin."])))
           (Routes.chat_options (Cases.asking (Some ["Chapter 1. Bitcoin."])))
           None))
   ↔ Routes.context_of (Cases.asking (Some ["Chapter 1. Bitcoin."])) ≠ "") ∧
  (Routes.context_of (Cases.asking (Some ["Chapter 1. Bitcoin."])) ≠ "" ↔
   ∃ d ds,
     Routes.b_documentContexts (Cases.asking (Some ["Chapter 1. Bitcoin."]))
       = Some (d :: ds)
     ∧ (d ≠ "" ∨ ds ≠ [])).
Proof.
  apply (post_chat_withholds_tools_for_documents Cases.trim Cases.direct
           (Cases.asking (Some ["Chapter 1. Bitcoin."])) " What is bitcoin? ").
  reflexivity.
Defined.


(** X22 on a forced search that comes with a context. *)
Lemma single_round_context_overrides_forceSearch_witness :
  req_tools (Legacy.initial_request Cases.direct "What is bitcoin?" [] true
               "Chapter 1. Bitcoin.") = None ∧
  req_tool_choice (Legacy.initial_request Cases.direct "What is bitcoin?" []
                     true "Chapter 1. Bitcoin.") = Some choice_none ∧
  Legacy.chat_run Cases.direct "What is bitcoin?" [] true "Chapter 1. Bitcoin."
    = Legacy.chat_run Cases.direct "What is bitcoin?" [] false
        "Chapter 1. Bitcoin.".
Proof.
  apply (single_round_context_overrides_forceSearch Cases.direct
           "What is bitcoin?" [] true "Chapter 1. Bitcoin.").
  discriminate.
Defined.

(** X23 on a reply whose call carries [not json]. *)
Lemma single_round_unparsable_arguments_fail_witness :
  Legacy.chat_run Samples.broken_arguments "What is bitcoin?" [] false "" =
    (Legacy.failed unavailable,
     {| Legacy.sent :=
          [Legacy.initial_request Samples.broken_arguments "What is bitcoin?"
             [] false ""];
        Legacy.searches := [] |}).
Proof.
  apply (single_round_unparsable_arguments_fail Samples.broken_arguments
           "What is bitcoin?" [] false "" (Samples.calling Samples.broken_call)
           Samples.broken_call []);
    reflexivity.
Defined.
